(** * ROI extraction core: model and verified properties

  A shallow embedding of the region model ([src/models/roi.py]), the
  overlap merger, the circle detector and the colour-flood segmenter
  ([src/core/auto_detect.py]) and the superpixel engine
  ([src/core/superpixel_segment.py]).

  Conventions.
  - Python [int] is [Z]; numpy [uint16] scalars are [Z] with the
    wrap-around written out ([wrap16]).
  - The float produced by [intersection / union] is idealised as the exact
    rational quotient in [Q].
  - Results of OpenCV / Qt calls whose input is a pixel buffer (Hough
    transform, connected-component statistics, SLIC label raster) enter the
    model as data; contour extraction on binary masks is modelled
    executable in [Cv].
  - Time stamps ([created_at], [modified_at]) carry no behaviour that is
    verified here and are left out of the record. *)

From Stdlib Require Import ZArith QArith List String Ascii Bool Lia Permutation Sorted.
From Stdlib Require Import DecimalString.
Import ListNotations.
Close Scope Q_scope.
Open Scope Z_scope.

(** Python's [f"{n:0Kd}"] for a non-negative [n]: decimal digits, padded with
    zeros on the left up to [k] characters. *)
Fixpoint zero_pad (missing : nat) (s : string) : string :=
  match missing with
  | O => s
  | S m => String "0"%char (zero_pad m s)
  end.

Definition format_0d (k : nat) (n : Z) : string :=
  let digits := NilZero.string_of_uint (N.to_uint (Z.to_N n)) in
  zero_pad (k - String.length digits) digits.

(** A call either returns a value or raises; [exc] is the exception class
    name. *)
Inductive outcome (A : Type) : Type :=
| Returned (v : A)
| Raised (exc : string).
Arguments Returned {A} v.
Arguments Raised {A} exc.

Definition raises {A : Type} (o : outcome A) : Prop :=
  match o with Raised _ => True | Returned _ => False end.

(** Values stored in the dictionaries the model builds, and a [dict] itself:
    Python dictionaries keep insertion order, [d[k] = v] overwrites in place
    or appends. *)
Inductive pyval : Type :=
| VStr (s : string)
| VInt (n : Z)
| VTuple (a b : Z).

Definition pydict : Type := list (string * pyval).

Fixpoint dict_set (k : string) (v : pyval) (d : pydict) : pydict :=
  match d with
  | [] => [(k, v)]
  | (k', v') :: d' =>
      if String.eqb k' k then (k, v) :: d' else (k', v') :: dict_set k v d'
  end.

Definition dict_keys (d : pydict) : list string := map fst d.

Fixpoint dict_get (k : string) (d : pydict) : option pyval :=
  match d with
  | [] => None
  | (k', v') :: d' => if String.eqb k' k then Some v' else dict_get k d'
  end.

(** The builtins [sorted(l, key=key, reverse=True)] and
    [l.sort(key=key, reverse=True)]: a stable sort into
    descending key order.  Insertion from the right keeps an element in front
    of every later element with the same key. *)
Fixpoint insert_desc {A : Type} (key : A -> Z) (a : A) (l : list A) : list A :=
  match l with
  | [] => [a]
  | b :: l' => if key b <=? key a then a :: b :: l' else b :: insert_desc key a l'
  end.

Fixpoint py_sorted_reverse {A : Type} (key : A -> Z) (l : list A) : list A :=
  match l with
  | [] => []
  | a :: l' => insert_desc key a (py_sorted_reverse key l')
  end.

(** The builtin [max(first :: rest, key=key)]: the first of the maximal
    elements. *)
Fixpoint py_max_by {A : Type} (key : A -> Q) (best : A) (l : list A) : A :=
  match l with
  | [] => best
  | a :: rest =>
      if Qle_bool (key a) (key best) then py_max_by key best rest
      else py_max_by key a rest
  end.

(** [int(q)] on a float: truncation toward zero. *)
Definition py_int (q : Q) : Z := Z.quot (Qnum q) (Z.pos (Qden q)).

(* ------------------------------------------------------------------ *)
(** * The ROI value type ([models/roi.py], class [ROI])                 *)
(* ------------------------------------------------------------------ *)

Module Roi.
Open Scope string_scope.

Record ROI : Type := mkROI {
  x : Z;
  y : Z;
  width : Z;
  height : Z;
  name : string;
  node_name : string;
  image_name : string;
  roi_type : string;
  action : string;
  click_mode : string;
  click_count : Z;
  click_interval : Z;
  swipe_direction : string;
  swipe_speed : Z;
  image_action : string;
  roi_id : string;
  color : string;
  tags : list string;
  image_path : string;
  (* attributes attached after construction by the detectors *)
  is_circle : bool;
  circle_center : option (Z * Z);
  circle_radius : option Z;
  contour : option (list (Z * Z));
  is_segmented : bool
}.

(** [ROI(x=..., y=..., width=..., height=...)]: every other field takes the
    dataclass default; [fresh_id] stands for the generated uuid prefix. *)
Definition make (fresh_id : string) (x0 y0 w0 h0 : Z) : ROI :=
  {| x := x0; y := y0; width := w0; height := h0;
     name := ""; node_name := ""; image_name := "";
     roi_type := "image"; action := "";
     click_mode := "single"; click_count := 1; click_interval := 500;
     swipe_direction := "top_to_bottom"; swipe_speed := 400;
     image_action := "detect";
     roi_id := fresh_id; color := "#00FF00"; tags := []; image_path := "";
     is_circle := false; circle_center := None; circle_radius := None;
     contour := None; is_segmented := false |}.

Definition center (r : ROI) : Z * Z := (x r + width r / 2, y r + height r / 2).
Definition area (r : ROI) : Z := width r * height r.
Definition right (r : ROI) : Z := x r + width r.
Definition bottom (r : ROI) : Z := y r + height r.

Definition set_name (s : string) (r : ROI) : ROI :=
  {| x := x r; y := y r; width := width r; height := height r;
     name := s; node_name := node_name r; image_name := image_name r;
     roi_type := roi_type r; action := action r;
     click_mode := click_mode r; click_count := click_count r;
     click_interval := click_interval r;
     swipe_direction := swipe_direction r; swipe_speed := swipe_speed r;
     image_action := image_action r;
     roi_id := roi_id r; color := color r; tags := tags r;
     image_path := image_path r;
     is_circle := is_circle r; circle_center := circle_center r;
     circle_radius := circle_radius r;
     contour := contour r; is_segmented := is_segmented r |}.

Definition translate (dx dy : Z) (r : ROI) : ROI :=
  {| x := x r + dx; y := y r + dy; width := width r; height := height r;
     name := name r; node_name := node_name r; image_name := image_name r;
     roi_type := roi_type r; action := action r;
     click_mode := click_mode r; click_count := click_count r;
     click_interval := click_interval r;
     swipe_direction := swipe_direction r; swipe_speed := swipe_speed r;
     image_action := image_action r;
     roi_id := roi_id r; color := color r; tags := tags r;
     image_path := image_path r;
     is_circle := is_circle r; circle_center := circle_center r;
     circle_radius := circle_radius r;
     contour := contour r; is_segmented := is_segmented r |}.

(** [ROI.copy]: a new record built from the constructor, so only the
    geometry, the suffixed name, the colour and the tags survive. *)
Definition copy (fresh_id : string) (r : ROI) : ROI :=
  {| x := x r; y := y r; width := width r; height := height r;
     name := name r ++ "_copy"; node_name := ""; image_name := "";
     roi_type := "image"; action := "";
     click_mode := "single"; click_count := 1; click_interval := 500;
     swipe_direction := "top_to_bottom"; swipe_speed := 400;
     image_action := "detect";
     roi_id := fresh_id; color := color r; tags := tags r; image_path := "";
     is_circle := false; circle_center := None; circle_radius := None;
     contour := None; is_segmented := false |}.

(** [ROI.to_dict]: the literal of base fields, then item assignments. *)
Definition to_dict (r : ROI) : pydict :=
  let result :=
    [("id", VStr (roi_id r));
     ("name", VStr (name r));
     ("node_name", VStr (node_name r));
     ("roi_type", VStr (roi_type r));
     ("x", VInt (x r));
     ("y", VInt (y r));
     ("width", VInt (width r));
     ("height", VInt (height r));
     ("center", VTuple (fst (center r)) (snd (center r)))] in
  if String.eqb (roi_type r) "image" then
    let result := dict_set "image_name" (VStr (image_name r)) result in
    dict_set "image_action" (VStr (image_action r)) result
  else
    let result := dict_set "action" (VStr (action r)) result in
    if String.eqb (action r) "click" then
      let result := dict_set "click_mode" (VStr (click_mode r)) result in
      let result := dict_set "click_count" (VInt (click_count r)) result in
      dict_set "click_interval" (VInt (click_interval r)) result
    else if String.eqb (action r) "swipe" then
      let result := dict_set "swipe_direction" (VStr (swipe_direction r)) result in
      dict_set "swipe_speed" (VInt (swipe_speed r)) result
    else result.

(** The export schema as the specification lists it, field names only. *)
Definition spec_base_fields : list string :=
  ["id"; "name"; "node_name"; "roi_type"; "x"; "y"; "width"; "height"; "center"].

Definition spec_schema (r : ROI) : list string :=
  (spec_base_fields ++
   (if String.eqb (roi_type r) "image" then ["image_name"; "image_action"]
    else if String.eqb (roi_type r) "region" then
      "action" ::
      (if String.eqb (action r) "click"
       then ["click_mode"; "click_count"; "click_interval_ms"]
       else if String.eqb (action r) "swipe"
       then ["swipe_direction"; "swipe_speed_px_s"]
       else [])
    else []))%list.

(** The field names [to_dict] writes, in insertion order. *)
Definition written_fields (r : ROI) : list string :=
  (spec_base_fields ++
   (if String.eqb (roi_type r) "image" then ["image_name"; "image_action"]
    else
      "action" ::
      (if String.eqb (action r) "click"
       then ["click_mode"; "click_count"; "click_interval"]
       else if String.eqb (action r) "swipe"
       then ["swipe_direction"; "swipe_speed"]
       else [])))%list.

Definition same_fields (l1 l2 : list string) : Prop :=
  forall k, In k l1 <-> In k l2.

(** A functional region configured for clicking. *)
Definition click_region : ROI :=
  {| x := 10; y := 20; width := 30; height := 40;
     name := "ok"; node_name := "ok_button"; image_name := "";
     roi_type := "region"; action := "click";
     click_mode := "single"; click_count := 1; click_interval := 500;
     swipe_direction := "top_to_bottom"; swipe_speed := 400;
     image_action := "detect";
     roi_id := "0a1b2c3d"; color := "#00FF00"; tags := []; image_path := "";
     is_circle := false; circle_center := None; circle_radius := None;
     contour := None; is_segmented := false |}.

(** [data.get(key, default)] for a field the dataclass declares [str] or
    [int].  Python stores whatever the dictionary holds; the typed record
    covers the dictionaries whose entries have the declared types, and
    [None] marks the others. *)
Definition get_str (data : pydict) (key default : string) : option string :=
  match dict_get key data with
  | None => Some default
  | Some (VStr s) => Some s
  | Some _ => None
  end.

Definition get_int (data : pydict) (key : string) (default : Z) : option Z :=
  match dict_get key data with
  | None => Some default
  | Some (VInt n) => Some n
  | Some _ => None
  end.

(** [ROI.from_dict].  [fresh_id] stands for the uuid prefix generated when
    the dictionary has no [id].  A [tags] entry is a list, which the
    dictionaries of the model cannot hold, so only its absence (the default
    [[]]) is covered. *)
Definition from_dict (fresh_id : string) (data : pydict) : option ROI :=
  match get_str data "id" fresh_id, get_str data "name" "",
        get_str data "node_name" "", get_str data "image_name" "",
        get_str data "roi_type" "image", get_str data "action" "" with
  | Some v_id, Some v_name, Some v_node, Some v_image, Some v_type, Some v_action =>
    match get_str data "click_mode" "single", get_int data "click_count" 1,
          get_int data "click_interval" 500,
          get_str data "swipe_direction" "top_to_bottom",
          get_int data "swipe_speed" 400, get_str data "image_action" "detect" with
    | Some v_mode, Some v_count, Some v_interval, Some v_dir, Some v_speed, Some v_iact =>
      match get_int data "x" 0, get_int data "y" 0, get_int data "width" 0,
            get_int data "height" 0, get_str data "color" "#00FF00",
            get_str data "image_path" "", dict_get "tags" data with
      | Some v_x, Some v_y, Some v_w, Some v_h, Some v_color, Some v_path, None =>
          Some {| x := v_x; y := v_y; width := v_w; height := v_h;
                  name := v_name; node_name := v_node; image_name := v_image;
                  roi_type := v_type; action := v_action;
                  click_mode := v_mode; click_count := v_count;
                  click_interval := v_interval;
                  swipe_direction := v_dir; swipe_speed := v_speed;
                  image_action := v_iact;
                  roi_id := v_id; color := v_color; tags := [];
                  image_path := v_path;
                  is_circle := false; circle_center := None;
                  circle_radius := None;
                  contour := None; is_segmented := false |}
      | _, _, _, _, _, _, _ => None
      end
    | _, _, _, _, _, _ => None
    end
  | _, _, _, _, _, _ => None
  end.

(** A functional region configured for swiping, with a colour, tags and an
    image path of its own. *)
Definition swipe_region : ROI :=
  {| x := 5; y := 6; width := 70; height := 80;
     name := "feed"; node_name := "feed_list"; image_name := "feed.png";
     roi_type := "region"; action := "swipe";
     click_mode := "loop"; click_count := 3; click_interval := 250;
     swipe_direction := "bottom_to_top"; swipe_speed := 900;
     image_action := "detect_and_click";
     roi_id := "deadbeef"; color := "#FF5733"; tags := ["list"];
     image_path := "./res_output/feed.png";
     is_circle := false; circle_center := None; circle_radius := None;
     contour := None; is_segmented := false |}.

Close Scope string_scope.
End Roi.

Abbreviation ROI := Roi.ROI.

(* ------------------------------------------------------------------ *)
(** * Overlap merger ([AutoDetector._calculate_iou],
    [AutoDetector._merge_overlapping_rois])                           *)
(* ------------------------------------------------------------------ *)

Module Merger.

Definition _calculate_iou (roi1 roi2 : ROI) : Q :=
  let x1 := Z.max (Roi.x roi1) (Roi.x roi2) in
  let y1 := Z.max (Roi.y roi1) (Roi.y roi2) in
  let x2 := Z.min (Roi.right roi1) (Roi.right roi2) in
  let y2 := Z.min (Roi.bottom roi1) (Roi.bottom roi2) in
  if (x2 <=? x1) || (y2 <=? y1) then 0%Q
  else
    let intersection := (x2 - x1) * (y2 - y1) in
    let union := Roi.area roi1 + Roi.area roi2 - intersection in
    if 0 <? union then (inject_Z intersection / inject_Z union)%Q else 0%Q.

(** Geometric vocabulary used to state the properties of the ratio: a box
    covers the pixels [x <= px < x + width], [y <= py < y + height]. *)
Definition covers (r : ROI) (px py : Z) : Prop :=
  Roi.x r <= px < Roi.right r /\ Roi.y r <= py < Roi.bottom r.

Definition boxes_overlap (a b : ROI) : Prop :=
  exists px py, covers a px py /\ covers b px py.

Definition intersection_area (a b : ROI) : Z :=
  Z.max 0 (Z.min (Roi.right a) (Roi.right b) - Z.max (Roi.x a) (Roi.x b))
  * Z.max 0 (Z.min (Roi.bottom a) (Roi.bottom b) - Z.max (Roi.y a) (Roi.y b)).

Definition positive_size (r : ROI) : Prop := 0 < Roi.width r /\ 0 < Roi.height r.

(** The inner [for existing in merged] loop with its [break]: the value of
    [should_merge] when the loop is left. *)
Fixpoint should_merge (iou_threshold : Q) (roi : ROI) (merged : list ROI) : bool :=
  match merged with
  | [] => false
  | existing :: rest =>
      if negb (Qle_bool (_calculate_iou roi existing) iou_threshold) then true
      else should_merge iou_threshold roi rest
  end.

(** The outer [for roi in sorted_rois] loop; [merged.append(roi)] adds at the
    end. *)
Fixpoint merge_loop (iou_threshold : Q) (merged sorted_rois : list ROI) : list ROI :=
  match sorted_rois with
  | [] => merged
  | roi :: rest =>
      if should_merge iou_threshold roi merged
      then merge_loop iou_threshold merged rest
      else merge_loop iou_threshold (merged ++ [roi]) rest
  end.

Definition _merge_overlapping_rois (rois : list ROI) (iou_threshold : Q) : list ROI :=
  match rois with
  | [] => []
  | _ => merge_loop iou_threshold [] (py_sorted_reverse Roi.area rois)
  end.

(** Vocabulary of the merge rule as the specification words it. *)
Definition area_desc (a b : ROI) : Prop := Roi.area b <= Roi.area a.

Definition same_area_order (l1 l2 : list ROI) : Prop :=
  forall k, filter (fun r => Roi.area r =? k) l1 = filter (fun r => Roi.area r =? k) l2.

Definition within_threshold (iou_threshold : Q) (candidate : ROI) (kept : list ROI) : Prop :=
  Forall (fun k => (_calculate_iou candidate k <= iou_threshold)%Q) kept.

(** [compatible thr kept l]: walking [l] after [kept], the loop drops
    nothing. *)
Fixpoint compatible (iou_threshold : Q) (kept l : list ROI) : Prop :=
  match l with
  | [] => True
  | c :: l' =>
      should_merge iou_threshold c kept = false
      /\ compatible iou_threshold (kept ++ [c]) l'
  end.

Definition sample_a : ROI := Roi.make "a" 0 0 10 10.
Definition sample_b : ROI := Roi.make "b" 5 5 10 10.

End Merger.

(* ------------------------------------------------------------------ *)
(** * The ROI collection ([models/roi.py], class [ROICollection])       *)
(* ------------------------------------------------------------------ *)

Module Collection.

Record ROICollection : Type := mkCollection {
  rois : list ROI;
  selected_index : Z;
  _name_counter : Z
}.

(** [__init__] *)
Definition init : ROICollection :=
  {| rois := []; selected_index := -1; _name_counter := 0 |}.

Definition len (c : ROICollection) : Z := Z.of_nat (List.length (rois c)).

(** Qt keeps the edges of a [QRect] in C [int]s: 32 bits, and sums that
    leave the range wrap around. *)
Definition int32 (n : Z) : Z := (n + 2 ^ 31) mod 2 ^ 32 - 2 ^ 31.

Definition fits_int (n : Z) : Prop := - 2 ^ 31 <= n < 2 ^ 31.

(** [QRect(x, y, w, h).contains(point)] as Qt computes it: the rectangle
    spans [x .. x+w-1]; a span that runs backwards is swapped first. *)
Definition span_contains (lo size v : Z) : bool :=
  let hi := int32 (lo + size - 1) in
  let '(l, r) := if hi <? int32 (lo - 1) then (hi, lo) else (lo, hi) in
  negb ((v <? l) || (r <? v)).

Definition contains (r : ROI) (point : Z * Z) : bool :=
  span_contains (Roi.x r) (Roi.width r) (fst point)
  && span_contains (Roi.y r) (Roi.height r) (snd point).

(** [add]: names an unnamed ROI from the counter, appends, returns the index. *)
Definition add (roi : ROI) (c : ROICollection) : ROICollection * Z :=
  let '(counter, roi') :=
    if String.eqb (Roi.name roi) ""
    then (_name_counter c + 1,
          Roi.set_name ("ROI_" ++ format_0d 3 (_name_counter c + 1)) roi)
    else (_name_counter c, roi) in
  let c' := {| rois := rois c ++ [roi'];
               selected_index := selected_index c;
               _name_counter := counter |} in
  (c', len c' - 1).

(** [del self.rois[index]] for an index known to be in range. *)
Definition del_at (index : Z) (l : list ROI) : list ROI :=
  firstn (Z.to_nat index) l ++ skipn (S (Z.to_nat index)) l.

Definition remove (index : Z) (c : ROICollection) : ROICollection * bool :=
  if (0 <=? index) && (index <? len c) then
    let sel :=
      if selected_index c =? index then -1
      else if index <? selected_index c then selected_index c - 1
      else selected_index c in
    ({| rois := del_at index (rois c);
        selected_index := sel;
        _name_counter := _name_counter c |}, true)
  else (c, false).

Definition remove_selected (c : ROICollection) : ROICollection * bool :=
  if 0 <=? selected_index c then remove (selected_index c) c else (c, false).

Definition get (index : Z) (c : ROICollection) : option ROI :=
  if (0 <=? index) && (index <? len c)
  then nth_error (rois c) (Z.to_nat index)
  else None.

Definition get_selected (c : ROICollection) : option ROI :=
  get (selected_index c) c.

Definition select (index : Z) (c : ROICollection) : ROICollection :=
  {| rois := rois c;
     selected_index := if (0 <=? index) && (index <? len c) then index else -1;
     _name_counter := _name_counter c |}.

(** The [for i, roi in enumerate(self.rois)] scan of [select_by_point]. *)
Fixpoint first_containing (point : Z * Z) (i : Z) (l : list ROI) : option Z :=
  match l with
  | [] => None
  | roi :: rest =>
      if contains roi point then Some i else first_containing point (i + 1) rest
  end.

Definition select_by_point (point : Z * Z) (c : ROICollection) : ROICollection * Z :=
  let i := match first_containing point 0 (rois c) with
           | Some i => i
           | None => -1
           end in
  ({| rois := rois c; selected_index := i; _name_counter := _name_counter c |}, i).

(** [copy_selected]: a dataclass instance is always truthy, so [if roi:]
    tests for [None] only. *)
Definition copy_selected (fresh_id : string) (c : ROICollection)
  : ROICollection * option ROI :=
  match get_selected c with
  | Some roi =>
      let new_roi := Roi.translate 20 20 (Roi.copy fresh_id roi) in
      let c' := fst (add new_roi c) in
      ({| rois := rois c';
          selected_index := len c' - 1;
          _name_counter := _name_counter c' |},
       nth_error (rois c') (Z.to_nat (len c' - 1)))
  | None => (c, None)
  end.

Definition clear (c : ROICollection) : ROICollection :=
  {| rois := []; selected_index := -1; _name_counter := 0 |}.

(** The mutating calls of the class, as one alphabet. *)
Inductive call : Type :=
| Add (roi : ROI)
| Remove (index : Z)
| RemoveSelected
| Select (index : Z)
| SelectByPoint (point : Z * Z)
| CopySelected (fresh_id : string)
| Clear.

Definition run (k : call) (c : ROICollection) : ROICollection :=
  match k with
  | Add roi => fst (add roi c)
  | Remove index => fst (remove index c)
  | RemoveSelected => fst (remove_selected c)
  | Select index => select index c
  | SelectByPoint point => fst (select_by_point point c)
  | CopySelected fresh_id => fst (copy_selected fresh_id c)
  | Clear => clear c
  end.

Definition run_all (ks : list call) (c : ROICollection) : ROICollection :=
  fold_left (fun acc k => run k acc) ks c.

Definition valid_selection (c : ROICollection) : Prop :=
  selected_index c = -1 \/ 0 <= selected_index c < len c.

Definition sample : ROICollection :=
  run_all [Add (Roi.make "r1" 0 0 10 10); Add (Roi.make "r2" 20 0 10 10);
           Add (Roi.make "r3" 40 0 10 10); Select 2] init.

(** [to_list] and [from_list].  [fresh_id i] stands for the uuid prefix
    generated for the [i]-th dictionary should it lack an [id]. *)
Definition to_list (c : ROICollection) : list pydict := map Roi.to_dict (rois c).

Fixpoint load_all (fresh_id : nat -> string) (i : nat) (data_list : list pydict)
    (c : ROICollection) : option ROICollection :=
  match data_list with
  | [] => Some c
  | data :: rest =>
      match Roi.from_dict (fresh_id i) data with
      | Some roi => load_all fresh_id (S i) rest (fst (add roi c))
      | None => None
      end
  end.

Definition from_list (fresh_id : nat -> string) (data_list : list pydict)
    (c : ROICollection) : option ROICollection :=
  load_all fresh_id 0 data_list (clear c).

(** [self.rois[roi_index].translate(dx, dy)] *)
Fixpoint update_at (n : nat) (f : ROI -> ROI) (l : list ROI) : list ROI :=
  match l, n with
  | [], _ => []
  | r :: rest, O => f r :: rest
  | r :: rest, S n' => r :: update_at n' f rest
  end.

Definition move_roi (roi_index : Z) (delta : Z * Z) (c : ROICollection) : ROICollection :=
  if (roi_index <? 0) || (len c <=? roi_index) then c
  else {| rois := update_at (Z.to_nat roi_index)
                    (Roi.translate (fst delta) (snd delta)) (rois c);
          selected_index := selected_index c;
          _name_counter := _name_counter c |}.

(** [QRect(x, y, w, h)]: [right()] and [bottom()] are the last column and
    row, kept in C [int]s; [center()] halves the sum of the two edges (taken
    in 64 bits) as C++ does, rounding toward zero. *)
Definition rect_left (r : ROI) : Z := Roi.x r.
Definition rect_top (r : ROI) : Z := Roi.y r.
Definition rect_right (r : ROI) : Z := int32 (Roi.x r + Roi.width r - 1).
Definition rect_bottom (r : ROI) : Z := int32 (Roi.y r + Roi.height r - 1).
Definition rect_center (r : ROI) : Z * Z :=
  (Z.quot (rect_left r + rect_right r) 2, Z.quot (rect_top r + rect_bottom r) 2).

Definition handles (r : ROI) : list (Z * Z) :=
  [ (rect_left r, rect_top r);
    (fst (rect_center r), rect_top r);
    (rect_right r, rect_top r);
    (rect_left r, snd (rect_center r));
    (rect_right r, snd (rect_center r));
    (rect_left r, rect_bottom r);
    (fst (rect_center r), rect_bottom r);
    (rect_right r, rect_bottom r) ].

Definition on_handle (point handle : Z * Z) : bool :=
  (Z.abs (fst point - fst handle) <=? 8 / 2)
  && (Z.abs (snd point - snd handle) <=? 8 / 2).

(** The [for i, (hx, hy) in enumerate(handles)] scan. *)
Fixpoint first_handle (point : Z * Z) (i : Z) (hs : list (Z * Z)) : Z :=
  match hs with
  | [] => -1
  | h :: rest => if on_handle point h then i else first_handle point (i + 1) rest
  end.

Definition get_resize_handle (point : Z * Z) (roi_index : Z) (c : ROICollection) : Z :=
  if (roi_index <? 0) || (len c <=? roi_index) then -1
  else
    match nth_error (rois c) (Z.to_nat roi_index) with
    | Some roi => first_handle point 0 (handles roi)
    | None => -1
    end.

(** The fields of an ROI from which PyQt can build the [QRect] (each fits
    a C [int]) and whose edges are computed without wrapping. *)
Definition qrect_exact (r : ROI) : Prop :=
  fits_int (Roi.x r - 1) /\ fits_int (Roi.y r - 1)
  /\ fits_int (Roi.x r) /\ fits_int (Roi.y r)
  /\ fits_int (Roi.width r) /\ fits_int (Roi.height r)
  /\ fits_int (Roi.x r + Roi.width r - 1)
  /\ fits_int (Roi.y r + Roi.height r - 1).

(** A collection of three named ROIs, the last one selected. *)
Definition named_sample : ROICollection :=
  run_all [Add Roi.click_region; Add Roi.swipe_region;
           Add (Roi.set_name "logo" (Roi.make "c0ffee00" 100 100 40 40));
           Select 2] init.

End Collection.

(* ------------------------------------------------------------------ *)
(** * Pixmaps and numpy scalars                                         *)
(* ------------------------------------------------------------------ *)

Module Qt.

(** What the detectors read off a [QPixmap] themselves; the pixels are only
    handed on to OpenCV. *)
Record QPixmap : Type := mkPixmap {
  isNull : bool;
  width : Z;
  height : Z
}.


(** [QImage.bytesPerLine] of a [Format_RGB888] image: 24 bits a pixel, each
    scanline padded to a multiple of 4 bytes. *)
Definition bytesPerLine (w : Z) : Z := (w * 24 + 31) / 32 * 4.

(** [QImage.byteCount]: the size of the buffer behind [image.bits()]. *)
Definition byteCount (pixmap : QPixmap) : Z :=
  bytesPerLine (width pixmap) * height pixmap.

(** [_qpixmap_to_cv2]: [None] for a null pixmap.  Otherwise the
    [byteCount] bytes of the RGB888 image are reshaped to
    [(height, width, 3)]; [reshape] raises [ValueError] when the sizes
    differ, which the padding of the scanlines causes for every width that
    is not a multiple of 4.  The array returned has [shape[:2]] equal to
    [(height, width)]. *)
Definition _qpixmap_to_cv2 (pixmap : QPixmap) : outcome (option (Z * Z)) :=
  if isNull pixmap then Returned None
  else if byteCount pixmap =? height pixmap * width pixmap * 3
  then Returned (Some (height pixmap, width pixmap))
  else Raised "ValueError".

End Qt.

Module Numpy.

(** Scalar promotion differs between NumPy 1.x (value-based: a Python [int]
    next to a numpy scalar becomes [int64]) and NumPy 2 (NEP 50: the Python
    [int] takes the numpy scalar's type and must fit it).  The project asks
    for [numpy>=1.21.0], so both occur. *)
Inductive promotion : Type := Legacy | NEP50.

Inductive scalar : Type :=
| PyInt (n : Z)
| U16 (n : Z)
| I64 (n : Z).

Definition value (s : scalar) : Z :=
  match s with PyInt n | U16 n | I64 n => n end.

Definition wrap16 (n : Z) : Z := n mod 65536.
Definition wrap64 (n : Z) : Z := (n + 2 ^ 63) mod 2 ^ 64 - 2 ^ 63.

Definition fits16 (n : Z) : bool := (0 <=? n) && (n <? 65536).

(** [a op b] for [op] among [+], [-], [*]. *)
Definition binop (p : promotion) (op : Z -> Z -> Z) (a b : scalar) : outcome scalar :=
  match a, b with
  | PyInt m, PyInt n => Returned (PyInt (op m n))
  | U16 m, U16 n => Returned (U16 (wrap16 (op m n)))
  | U16 m, PyInt n =>
      match p with
      | Legacy => Returned (I64 (wrap64 (op m n)))
      | NEP50 => if fits16 n then Returned (U16 (wrap16 (op m n)))
                 else Raised "OverflowError"
      end
  | PyInt m, U16 n =>
      match p with
      | Legacy => Returned (I64 (wrap64 (op m n)))
      | NEP50 => if fits16 m then Returned (U16 (wrap16 (op m n)))
                 else Raised "OverflowError"
      end
  | I64 m, PyInt n | I64 m, U16 n | I64 m, I64 n
  | PyInt m, I64 n | U16 m, I64 n => Returned (I64 (wrap64 (op m n)))
  end.

(** The builtins [max(a, b)] and [min(a, b)]: the first argument wins ties. *)
Definition py_max (a b : scalar) : scalar := if value a <? value b then b else a.
Definition py_min (a b : scalar) : scalar := if value b <? value a then b else a.

End Numpy.

(* ------------------------------------------------------------------ *)
(** * Python floats (IEEE 754 binary64, round to nearest, ties to even) *)
(* ------------------------------------------------------------------ *)

Module Ieee.

(** A double is held as the rational it denotes.  [fl q] is the double
    nearest to [q]: the mantissa has 53 bits, a tie goes to the even
    mantissa.  The exponent is left unbounded, so overflow and subnormal
    results are outside the model; the quotients and products of image
    coordinates taken here stay between [2^-62] and [2^62]. *)
Definition round_half_even (n d : Z) : Z :=
  let q := n / d in
  let r := n mod d in
  if 2 * r <? d then q
  else if d <? 2 * r then q + 1
  else if Z.even q then q else q + 1.

(** [n / d] times [2^-e], as a fraction of integers. *)
Definition scaled (n d e : Z) : Z * Z :=
  if 0 <=? e then (n, d * 2 ^ e) else (n * 2 ^ (- e), d).

(** The exponent [e] with [2^52 <= (n / d) * 2^-e < 2^53]. *)
Definition exponent (n d : Z) : Z :=
  let e := Z.log2 n - Z.log2 d - 52 in
  let '(N, D) := scaled n d e in
  if N <? 2 ^ 52 * D then e - 1 else e.

Definition fl_pos (n d : Z) : Q :=
  let e := exponent n d in
  let '(N, D) := scaled n d e in
  let m := round_half_even N D in
  if 0 <=? e then inject_Z (m * 2 ^ e) else Qmake m (Z.to_pos (2 ^ (- e))).

Definition fl (q : Q) : Q :=
  match Qnum q with
  | 0 => 0%Q
  | Z.pos n => fl_pos (Z.pos n) (Z.pos (Qden q))
  | Z.neg n => Qopp (fl_pos (Z.pos n) (Z.pos (Qden q)))
  end.

(** [float(k)], and an [int] operand of a float operation. *)
Definition of_int (k : Z) : Q := fl (inject_Z k).

(** [a * b] and [a / b] on floats: one rounding of the exact result. *)
Definition mul (a b : Q) : Q := fl (a * b)%Q.
Definition div (a b : Q) : Q := fl (a / b)%Q.

(** [a / b] on Python [int]s: the double nearest to the exact quotient. *)
Definition int_truediv (a b : Z) : Q := fl (inject_Z a / inject_Z b)%Q.

End Ieee.

(* ------------------------------------------------------------------ *)
(** * Detectors ([core/auto_detect.py], class [AutoDetector])           *)
(* ------------------------------------------------------------------ *)

Module Detector.
Import Numpy.

Definition bind {A B : Type} (m : outcome A) (k : A -> outcome B) : outcome B :=
  match m with
  | Returned v => k v
  | Raised e => Raised e
  end.

Notation "x <- m ;; k" := (bind m (fun x => k))
  (at level 61, m at next level, right associativity).

(** The body of the loop over [circles[0, :]] in [detect_circles].
    [circle] holds the rounded Hough hit; [np.uint16(...)] stores it. *)
Definition circle_roi (p : promotion) (pixmap : Qt.QPixmap)
    (fresh_id : nat -> string) (i : nat) (circle : Z * Z * Z) : outcome ROI :=
  let '(cx, cy, rad) := circle in
  let center_x := U16 (wrap16 cx) in
  let center_y := U16 (wrap16 cy) in
  let radius := U16 (wrap16 rad) in
  dx <- binop p Z.sub center_x radius ;;
  mx <- binop p Z.sub dx (PyInt 2) ;;
  let x := py_max (PyInt 0) mx in
  dy <- binop p Z.sub center_y radius ;;
  my <- binop p Z.sub dy (PyInt 2) ;;
  let y := py_max (PyInt 0) my in
  room_w <- binop p Z.sub (PyInt (Qt.width pixmap)) x ;;
  dw <- binop p Z.mul radius (PyInt 2) ;;
  side_w <- binop p Z.add dw (PyInt 4) ;;
  let w := py_min room_w side_w in
  room_h <- binop p Z.sub (PyInt (Qt.height pixmap)) y ;;
  dh <- binop p Z.mul radius (PyInt 2) ;;
  side_h <- binop p Z.add dh (PyInt 4) ;;
  let h := py_min room_h side_h in
  let roi := Roi.make (fresh_id i) (value x) (value y) (value w) (value h) in
  Returned
    {| Roi.x := Roi.x roi; Roi.y := Roi.y roi;
       Roi.width := Roi.width roi; Roi.height := Roi.height roi;
       Roi.name := ("circle_" ++ format_0d 2 (Z.of_nat i + 1))%string;
       Roi.node_name := Roi.node_name roi; Roi.image_name := Roi.image_name roi;
       Roi.roi_type := Roi.roi_type roi; Roi.action := Roi.action roi;
       Roi.click_mode := Roi.click_mode roi; Roi.click_count := Roi.click_count roi;
       Roi.click_interval := Roi.click_interval roi;
       Roi.swipe_direction := Roi.swipe_direction roi;
       Roi.swipe_speed := Roi.swipe_speed roi;
       Roi.image_action := Roi.image_action roi;
       Roi.roi_id := Roi.roi_id roi; Roi.color := Roi.color roi;
       Roi.tags := Roi.tags roi; Roi.image_path := Roi.image_path roi;
       Roi.is_circle := true;
       Roi.circle_center := Some (value center_x, value center_y);
       Roi.circle_radius := Some (value radius);
       Roi.contour := Roi.contour roi; Roi.is_segmented := Roi.is_segmented roi |}.

Fixpoint circle_rois (p : promotion) (pixmap : Qt.QPixmap)
    (fresh_id : nat -> string) (i : nat) (circles : list (Z * Z * Z))
  : outcome (list ROI) :=
  match circles with
  | [] => Returned []
  | circle :: rest =>
      roi <- circle_roi p pixmap fresh_id i circle ;;
      rois <- circle_rois p pixmap fresh_id (S i) rest ;;
      Returned (roi :: rois)
  end.

(** [detect_circles].  [circles] is what [cv2.HoughCircles] returned for the
    pixmap, already rounded: [None], or the hits [(x, y, radius)]. *)
Definition detect_circles (p : promotion) (pixmap : Qt.QPixmap)
    (fresh_id : nat -> string) (circles : option (list (Z * Z * Z)))
  : outcome (list ROI) :=
  img <- Qt._qpixmap_to_cv2 pixmap ;;
  match img with
  | None => Returned []
  | Some _ =>
      match circles with
      | None => Returned []
      | Some hits => circle_rois p pixmap fresh_id 0 hits
      end
  end.

(** The bbox requirements of the data model, against a pixmap. *)
Definition bbox_in_image (pixmap : Qt.QPixmap) (r : ROI) : Prop :=
  0 < Roi.width r /\ 0 < Roi.height r
  /\ 0 <= Roi.x r /\ 0 <= Roi.y r
  /\ Roi.x r + Roi.width r <= Qt.width pixmap
  /\ Roi.y r + Roi.height r <= Qt.height pixmap.

Definition pixmap_100 : Qt.QPixmap :=
  {| Qt.isNull := false; Qt.width := 100; Qt.height := 100 |}.

Definition no_ids (i : nat) : string := EmptyString.

(** One row of [stats] from [cv2.connectedComponentsWithStats]: left, top,
    width, height and pixel area of a component.  The entries are bounded by
    the image size, far from the limits of their [int32]. *)
Record component : Type := mkComponent {
  left : Z;
  top : Z;
  comp_width : Z;
  comp_height : Z;
  comp_area : Z
}.

(** What OpenCV reports for the colour mask grown from a seed: one [stats]
    row per label (row 0 is the background, so [num_labels] is the number
    of rows), the label under the seed, and the largest external contour of
    the whole mask and of the seed's component, when there is one. *)
Record flood_result : Type := mkFlood {
  stats : list component;
  clicked_label : Z;
  mask_contour : option (list (Z * Z));
  component_contour : option (list (Z * Z))
}.

Definition num_labels (f : flood_result) : Z := Z.of_nat (List.length (stats f)).

(** The running values of the [merge_all] loop:
    [all_x1, all_y1, all_x2, all_y2, total_area, valid_count]. *)
Record merge_acc : Type := mkAcc {
  all_x1 : Z;
  all_y1 : Z;
  all_x2 : Z;
  all_y2 : Z;
  total_area : Z;
  valid_count : Z
}.

Definition merge_step (acc : merge_acc) (c : component) : merge_acc :=
  if comp_area c <? 20 then acc
  else
    {| all_x1 := Z.min (all_x1 acc) (left c);
       all_y1 := Z.min (all_y1 acc) (top c);
       all_x2 := Z.max (all_x2 acc) (left c + comp_width c);
       all_y2 := Z.max (all_y2 acc) (top c + comp_height c);
       total_area := total_area acc + comp_area c;
       valid_count := valid_count acc + 1 |}.

Definition with_name_contour (s : string) (c : option (list (Z * Z))) (r : ROI) : ROI :=
  let r := Roi.set_name s r in
  {| Roi.x := Roi.x r; Roi.y := Roi.y r;
     Roi.width := Roi.width r; Roi.height := Roi.height r;
     Roi.name := Roi.name r;
     Roi.node_name := Roi.node_name r; Roi.image_name := Roi.image_name r;
     Roi.roi_type := Roi.roi_type r; Roi.action := Roi.action r;
     Roi.click_mode := Roi.click_mode r; Roi.click_count := Roi.click_count r;
     Roi.click_interval := Roi.click_interval r;
     Roi.swipe_direction := Roi.swipe_direction r;
     Roi.swipe_speed := Roi.swipe_speed r;
     Roi.image_action := Roi.image_action r;
     Roi.roi_id := Roi.roi_id r; Roi.color := Roi.color r;
     Roi.tags := Roi.tags r; Roi.image_path := Roi.image_path r;
     Roi.is_circle := Roi.is_circle r;
     Roi.circle_center := Roi.circle_center r;
     Roi.circle_radius := Roi.circle_radius r;
     Roi.contour := match c with Some _ => c | None => Roi.contour r end;
     Roi.is_segmented := Roi.is_segmented r |}.

(** [detect_at_point].  [flood x y tolerance] is the outcome of the colour
    distance, threshold, morphology and connected-component calls for the
    (clamped) seed. *)
Definition detect_at_point (pixmap : Qt.QPixmap) (x y color_tolerance : Z)
    (merge_all : bool) (flood : Z -> Z -> Z -> flood_result) (fresh_id : string)
  : outcome (option ROI) :=
  img <- Qt._qpixmap_to_cv2 pixmap ;;
  match img with
  | None => Returned None
  | Some (h, w) =>
      let x := Z.max 0 (Z.min x (w - 1)) in
      let y := Z.max 0 (Z.min y (h - 1)) in
      let cc := flood x y color_tolerance in
      if num_labels cc <? 2 then Returned None
      else if merge_all then
        let acc := fold_left merge_step (skipn 1 (stats cc))
                     {| all_x1 := w; all_y1 := h; all_x2 := 0; all_y2 := 0;
                        total_area := 0; valid_count := 0 |} in
        if valid_count acc =? 0 then Returned None
        else
          let roi := Roi.make fresh_id (all_x1 acc) (all_y1 acc)
                       (all_x2 acc - all_x1 acc) (all_y2 acc - all_y1 acc) in
          Returned (Some (with_name_contour "color_merged" (mask_contour cc) roi))
      else
        if clicked_label cc =? 0 then Returned None
        else
          match nth_error (stats cc) (Z.to_nat (clicked_label cc)) with
          | None => Raised "IndexError"
          | Some c =>
              if comp_area c <? 20 then Returned None
              else
                let roi := Roi.make fresh_id (left c) (top c)
                             (comp_width c) (comp_height c) in
                Returned (Some (with_name_contour "color_blob" (component_contour cc) roi))
          end
  end.



Definition component_in_image (pixmap : Qt.QPixmap) (c : component) : Prop :=
  0 <= left c /\ 0 <= top c /\ 0 < comp_width c /\ 0 < comp_height c
  /\ left c + comp_width c <= Qt.width pixmap
  /\ top c + comp_height c <= Qt.height pixmap.


(** Two 5 x 5 blobs in opposite corners of a 100 x 100 image. *)
Definition two_blobs : flood_result :=
  {| stats := [ {| left := 0; top := 0; comp_width := 100; comp_height := 100;
                   comp_area := 9950 |};
                {| left := 0; top := 0; comp_width := 5; comp_height := 5;
                   comp_area := 25 |};
                {| left := 50; top := 50; comp_width := 5; comp_height := 5;
                   comp_area := 25 |} ];
     clicked_label := 1;
     mask_contour := None;
     component_contour := None |}.

Definition two_blobs_flood (x y color_tolerance : Z) : flood_result := two_blobs.

(** The float constants of the contour detectors, as the rationals the
    doubles denote: [0.6], [0.3], [0.1] and [np.pi]. *)
Definition float_0_6 : Q := 5404319552844595 # 9007199254740992.
Definition float_0_3 : Q := 5404319552844595 # 18014398509481984.
Definition float_0_1 : Q := 3602879701896397 # 36028797018963968.
Definition np_pi : Q := 884279719003555 # 281474976710656.

(** What OpenCV measures on one external contour of a detector's mask:
    [contourArea], [arcLength(contour, True)], [minEnclosingCircle]
    ([x], [y], [radius]), [boundingRect] and the number of vertices of
    [approxPolyDP(contour, 0.02 * arcLength, True)]. *)
Record contour_info : Type := mkContourInfo {
  contourArea : Q;
  arcLength : Q;
  minEnclosingCircle : Q * Q * Q;
  boundingRect : Z * Z * Z * Z;
  approx_vertices : nat
}.

Definition with_name (s : string) (r : ROI) : ROI := Roi.set_name s r.

Definition as_circle (center : Z * Z) (radius : Z) (r : ROI) : ROI :=
  {| Roi.x := Roi.x r; Roi.y := Roi.y r;
     Roi.width := Roi.width r; Roi.height := Roi.height r;
     Roi.name := Roi.name r;
     Roi.node_name := Roi.node_name r; Roi.image_name := Roi.image_name r;
     Roi.roi_type := Roi.roi_type r; Roi.action := Roi.action r;
     Roi.click_mode := Roi.click_mode r; Roi.click_count := Roi.click_count r;
     Roi.click_interval := Roi.click_interval r;
     Roi.swipe_direction := Roi.swipe_direction r;
     Roi.swipe_speed := Roi.swipe_speed r;
     Roi.image_action := Roi.image_action r;
     Roi.roi_id := Roi.roi_id r; Roi.color := Roi.color r;
     Roi.tags := Roi.tags r; Roi.image_path := Roi.image_path r;
     Roi.is_circle := true;
     Roi.circle_center := Some center;
     Roi.circle_radius := Some radius;
     Roi.contour := Roi.contour r; Roi.is_segmented := Roi.is_segmented r |}.

(** Body of the loop of [detect_red_dots] for the [i]-th contour: the ROI
    appended, or [None] where the loop moves on. *)
Definition red_dot_roi (pixmap : Qt.QPixmap) (fresh_id : nat -> string)
    (i : nat) (c : contour_info) : option ROI :=
  let area := contourArea c in
  if negb (Qle_bool 30 area) || negb (Qle_bool area 5000) then None
  else
    let '(fx, fy, fradius) := minEnclosingCircle c in
    let center := (py_int fx, py_int fy) in
    let radius := py_int fradius in
    let perimeter := arcLength c in
    if Qle_bool perimeter 0 then None
    else
      let circularity :=
        Ieee.div (Ieee.mul (Ieee.mul 4 np_pi) area) (Ieee.mul perimeter perimeter) in
      if Qle_bool circularity float_0_6 then None
      else
        let x := Z.max 0 (fst center - radius - 2) in
        let y := Z.max 0 (snd center - radius - 2) in
        let w := Z.min (Qt.width pixmap - x) (radius * 2 + 4) in
        let h := Z.min (Qt.height pixmap - y) (radius * 2 + 4) in
        Some (as_circle center radius
                (with_name ("red_dot_" ++ format_0d 2 (Z.of_nat i + 1))
                   (Roi.make (fresh_id i) x y w h))).

(** Body of the loop of [detect_ui_buttons].  [area] is a float;
    [pixmap.width() * pixmap.height()] is an [int] product that [* 0.5]
    turns into a float; [float(w) / h] divides two floats. *)
Definition button_roi (pixmap : Qt.QPixmap) (fresh_id : nat -> string)
    (i : nat) (c : contour_info) : option ROI :=
  let area := contourArea c in
  if negb (Qle_bool 200 area)
     || negb (Qle_bool area
                (Ieee.mul (Ieee.of_int (Qt.width pixmap * Qt.height pixmap)) (1 # 2)))
  then None
  else
    let '(x, y, w, h) := boundingRect c in
    let aspect_ratio :=
      if 0 <? h then Ieee.div (Ieee.of_int w) (Ieee.of_int h) else 0%Q in
    if negb (Qle_bool float_0_1 aspect_ratio) || negb (Qle_bool aspect_ratio 10) then None
    else if (4 <=? approx_vertices c)%nat then
      Some (with_name ("button_" ++ format_0d 2 (Z.of_nat i + 1))
              (Roi.make (fresh_id i) x y w h))
    else None.

(** Body of the loop of [detect_icons].  [img_area * 0.3] is a float
    product; [max(w, h) / min(w, h)] is the true division of two [int]s. *)
Definition icon_roi (pixmap : Qt.QPixmap) (fresh_id : nat -> string)
    (i : nat) (c : contour_info) : option ROI :=
  let img_area := Qt.width pixmap * Qt.height pixmap in
  let area := contourArea c in
  if negb (Qle_bool 100 area)
     || negb (Qle_bool area (Ieee.mul (Ieee.of_int img_area) float_0_3))
  then None
  else
    let '(x, y, w, h) := boundingRect c in
    let aspect_ratio :=
      if 0 <? Z.min w h then Ieee.int_truediv (Z.max w h) (Z.min w h)
      else 0%Q in
    if negb (Qle_bool aspect_ratio 2) then None
    else Some (with_name ("icon_" ++ format_0d 2 (Z.of_nat i + 1))
                 (Roi.make (fresh_id i) x y w h)).

(** [for i, contour in enumerate(contours): ...] with a body that appends
    or moves on. *)
Fixpoint scan_contours (body : nat -> contour_info -> option ROI) (i : nat)
    (contours : list contour_info) : list ROI :=
  match contours with
  | [] => []
  | c :: rest =>
      match body i c with
      | Some roi => roi :: scan_contours body (S i) rest
      | None => scan_contours body (S i) rest
      end
  end.

(** [detect_red_dots], [detect_ui_buttons], [detect_icons]: [contours] is
    what [cv2.findContours] found on the detector's mask of the pixmap. *)
Definition detect_red_dots (pixmap : Qt.QPixmap) (fresh_id : nat -> string)
    (contours : list contour_info) : outcome (list ROI) :=
  img <- Qt._qpixmap_to_cv2 pixmap ;;
  match img with
  | None => Returned []
  | Some _ => Returned (scan_contours (red_dot_roi pixmap fresh_id) 0 contours)
  end.

Definition detect_ui_buttons (pixmap : Qt.QPixmap) (fresh_id : nat -> string)
    (contours : list contour_info) : outcome (list ROI) :=
  img <- Qt._qpixmap_to_cv2 pixmap ;;
  match img with
  | None => Returned []
  | Some _ => Returned (scan_contours (button_roi pixmap fresh_id) 0 contours)
  end.

Definition detect_icons (pixmap : Qt.QPixmap) (fresh_id : nat -> string)
    (contours : list contour_info) : outcome (list ROI) :=
  img <- Qt._qpixmap_to_cv2 pixmap ;;
  match img with
  | None => Returned []
  | Some _ => Returned (scan_contours (icon_roi pixmap fresh_id) 0 contours)
  end.

(** [for i, roi in enumerate(merged): roi.name = f"auto_{i+1:02d}"] *)
Fixpoint rename_auto (i : nat) (merged : list ROI) : list ROI :=
  match merged with
  | [] => []
  | roi :: rest =>
      with_name ("auto_" ++ format_0d 2 (Z.of_nat i + 1)) roi :: rename_auto (S i) rest
  end.

(** [_calculate_iou] as it runs: the quotient [intersection / union] is
    a float, the double nearest to the exact ratio that
    [Merger._calculate_iou] gives. *)
Definition _calculate_iou (roi1 roi2 : ROI) : Q :=
  let x1 := Z.max (Roi.x roi1) (Roi.x roi2) in
  let y1 := Z.max (Roi.y roi1) (Roi.y roi2) in
  let x2 := Z.min (Roi.right roi1) (Roi.right roi2) in
  let y2 := Z.min (Roi.bottom roi1) (Roi.bottom roi2) in
  if (x2 <=? x1) || (y2 <=? y1) then 0%Q
  else
    let intersection := (x2 - x1) * (y2 - y1) in
    let union := Roi.area roi1 + Roi.area roi2 - intersection in
    if 0 <? union then Ieee.int_truediv intersection union else 0%Q.

(** The two loops of [_merge_overlapping_rois] on that float: the inner
    [for existing in merged] with its [break], and the outer
    [for roi in sorted_rois]. *)
Fixpoint should_merge (iou_threshold : Q) (roi : ROI) (merged : list ROI) : bool :=
  match merged with
  | [] => false
  | existing :: rest =>
      if negb (Qle_bool (_calculate_iou roi existing) iou_threshold) then true
      else should_merge iou_threshold roi rest
  end.

Fixpoint merge_loop (iou_threshold : Q) (merged sorted_rois : list ROI) : list ROI :=
  match sorted_rois with
  | [] => merged
  | roi :: rest =>
      if should_merge iou_threshold roi merged
      then merge_loop iou_threshold merged rest
      else merge_loop iou_threshold (merged ++ [roi]) rest
  end.

Definition _merge_overlapping_rois (rois : list ROI) (iou_threshold : Q) : list ROI :=
  match rois with
  | [] => []
  | _ => merge_loop iou_threshold [] (py_sorted_reverse Roi.area rois)
  end.

(** [detect_all], with NumPy 1.x promotion: the fields of the circle ROIs
    are then 64-bit integers, on which [ROI.area] and [_calculate_iou]
    compute as on Python integers; their quotient is taken on the two
    operands converted to double, the same double as long as both are
    below [2^53].  (Under NumPy 2 they are [uint16] and wrap inside the
    merge; that regime is not covered here.)  The four detectors draw
    their ids from disjoint ranges of [fresh_id]. *)
Definition detect_all (pixmap : Qt.QPixmap) (fresh_id : nat -> nat -> string)
    (circles : option (list (Z * Z * Z)))
    (red_contours button_contours icon_contours : list contour_info)
  : outcome (list ROI) :=
  found_circles <- detect_circles Legacy pixmap (fresh_id 0%nat) circles ;;
  red_dots <- detect_red_dots pixmap (fresh_id 1%nat) red_contours ;;
  buttons <- detect_ui_buttons pixmap (fresh_id 2%nat) button_contours ;;
  icons <- detect_icons pixmap (fresh_id 3%nat) icon_contours ;;
  let all_rois := found_circles ++ red_dots ++ buttons ++ icons in
  let merged := _merge_overlapping_rois all_rois float_0_3 in
  Returned (rename_auto 0 merged).

(** The clamped seed of [detect_at_point]. *)
Definition clamp_seed (pixmap : Qt.QPixmap) (x y : Z) : Z * Z :=
  (Z.max 0 (Z.min x (Qt.width pixmap - 1)), Z.max 0 (Z.min y (Qt.height pixmap - 1))).

(** A round red dot of radius 20 in the middle of a 200 x 200 image, and a
    sliver of the same area. *)
Definition round_dot : contour_info :=
  {| contourArea := 1256; arcLength := 126;
     minEnclosingCircle := (100, 100, 20)%Q;
     boundingRect := (80, 80, 41, 41); approx_vertices := 8 |}.

Definition pixmap_200 : Qt.QPixmap :=
  {| Qt.isNull := false; Qt.width := 200; Qt.height := 200 |}.

Definition no_ids2 (k i : nat) : string := EmptyString.

(** The bounding rectangle of a contour has a width and a height that fit
    the C [int]s of [cv::Rect]. *)
Definition int_rect (c : contour_info) : Prop :=
  let '(x, y, w, h) := boundingRect c in
  Collection.fits_int w /\ Collection.fits_int h.

(** A bar ten times as high as wide, in a 200 x 200 image. *)
Definition thin_bar : contour_info :=
  {| contourArea := 1000; arcLength := 220;
     minEnclosingCircle := (105, 150, 51)%Q;
     boundingRect := (100, 100, 10, 100); approx_vertices := 4 |}.

(** An outline that fills 0.3 of a 100 x 100 image. *)
Definition large_outline : contour_info :=
  {| contourArea := 3000; arcLength := 220;
     minEnclosingCircle := (30, 25, 40)%Q;
     boundingRect := (0, 0, 60, 50); approx_vertices := 4 |}.

(** Two outlines in a 200 x 200 image whose rectangles share 6000 of the
    20000 pixels they cover together. *)
Definition left_outline : contour_info :=
  {| contourArea := 10000; arcLength := 400;
     minEnclosingCircle := (65, 50, 82)%Q;
     boundingRect := (0, 0, 130, 100); approx_vertices := 4 |}.

Definition right_outline : contour_info :=
  {| contourArea := 10000; arcLength := 400;
     minEnclosingCircle := (135, 50, 82)%Q;
     boundingRect := (70, 0, 130, 100); approx_vertices := 4 |}.

(** A Hough hit whose square with margin stays clear of the left and top
    edges, with its centre in the image. *)
Definition interior_hit (pixmap : Qt.QPixmap) (hit : Z * Z * Z) : Prop :=
  let '(cx, cy, rad) := hit in
  0 <= rad /\ 2 * rad + 4 < 65536
  /\ rad + 2 <= cx < Qt.width pixmap /\ rad + 2 <= cy < Qt.height pixmap.

(** The square [detect_circles] means to return for a hit. *)
Definition hit_square (pixmap : Qt.QPixmap) (hit : Z * Z * Z) (r : ROI) : Prop :=
  let '(cx, cy, rad) := hit in
  Roi.x r = cx - rad - 2 /\ Roi.y r = cy - rad - 2
  /\ Roi.width r = Z.min (Qt.width pixmap - Roi.x r) (2 * rad + 4)
  /\ Roi.height r = Z.min (Qt.height pixmap - Roi.y r) (2 * rad + 4).

(** A contour whose enclosing circle has its centre in the image. *)
Definition dot_inside (pixmap : Qt.QPixmap) (c : contour_info) : Prop :=
  let '(fx, fy, fradius) := minEnclosingCircle c in
  (0 <= fx)%Q /\ (fx < inject_Z (Qt.width pixmap))%Q
  /\ (0 <= fy)%Q /\ (fy < inject_Z (Qt.height pixmap))%Q
  /\ (0 <= fradius)%Q.

(** The circle recorded on an ROI has its centre in the bbox. *)
Definition circle_in_bbox (r : ROI) : Prop :=
  Roi.is_circle r = true
  /\ exists cx cy rad,
       Roi.circle_center r = Some (cx, cy) /\ Roi.circle_radius r = Some rad
       /\ 0 <= rad /\ Merger.covers r cx cy.

Definition geometry (r : ROI) : Z * Z * Z * Z :=
  (Roi.x r, Roi.y r, Roi.width r, Roi.height r).

End Detector.

(* ------------------------------------------------------------------ *)
(** * Binary masks and the OpenCV calls made on them                    *)
(* ------------------------------------------------------------------ *)

Module Cv.

Definition point : Type := (Z * Z)%type.
Definition contour : Type := list point.

(** A single-channel array: rows of pixel values, [m[y][x]]. *)
Definition raster : Type := list (list Z).

Definition pixel (m : raster) (x y : nat) : option Z :=
  match nth_error m y with
  | Some row => nth_error row x
  | None => None
  end.

Definition has_shape (h w : Z) (m : raster) : Prop :=
  Z.of_nat (List.length m) = h /\ Forall (fun row => Z.of_nat (List.length row) = w) m.

(** Coordinates [(x, y)] of the non-zero pixels, in raster order. *)
Fixpoint row_nonzero (x y : Z) (row : list Z) : list point :=
  match row with
  | [] => []
  | v :: rest =>
      if v =? 0 then row_nonzero (x + 1) y rest
      else (x, y) :: row_nonzero (x + 1) y rest
  end.

Fixpoint nonzero_from (y : Z) (m : raster) : list point :=
  match m with
  | [] => []
  | row :: rest => row_nonzero 0 y row ++ nonzero_from (y + 1) rest
  end.

Definition nonzero (m : raster) : list point := nonzero_from 0 m.

Definition countNonZero (m : raster) : Z := Z.of_nat (List.length (nonzero m)).

Definition adjacent8 (p q : point) : bool :=
  (Z.abs (fst p - fst q) <=? 1) && (Z.abs (snd p - snd q) <=? 1).

(** Growing one 8-connected component: [frontier] holds pixels of the
    component still to be expanded, [rest] the pixels not reached yet.  The
    result is the component and what is left over. *)
Fixpoint flood (fuel : nat) (frontier rest : list point) : list point * list point :=
  match fuel with
  | O => (frontier, rest)
  | S fuel' =>
      match frontier with
      | [] => ([], rest)
      | p :: frontier' =>
          let near := filter (adjacent8 p) rest in
          let far := filter (fun q => negb (adjacent8 p q)) rest in
          let '(component, rest') := flood fuel' (frontier' ++ near) far in
          (p :: component, rest')
      end
  end.

Fixpoint components (fuel : nat) (pts : list point) : list contour :=
  match fuel with
  | O => []
  | S fuel' =>
      match pts with
      | [] => []
      | p :: rest =>
          let '(component, rest') := flood (S (List.length rest)) [p] rest in
          component :: components fuel' rest'
      end
  end.

(** [cv2.findContours(mask, RETR_EXTERNAL, CHAIN_APPROX_SIMPLE)]: one
    contour per 8-connected blob of non-zero pixels.  A contour is kept as
    the pixels of its blob: the outline that OpenCV returns passes through
    the extreme pixels of the blob, so [boundingRect] agrees.  Blobs lying
    in a hole of another blob are not singled out. *)
Definition findContours (m : raster) : list contour :=
  components (List.length (nonzero m)) (nonzero m).

(** [cv2.boundingRect]: [(x, y, w, h)] of the least upright rectangle
    around the points. *)
Definition boundingRect (c : contour) : Z * Z * Z * Z :=
  match c with
  | [] => (0, 0, 0, 0)
  | (x0, y0) :: rest =>
      let x1 := fold_left Z.min (map fst rest) x0 in
      let y1 := fold_left Z.min (map snd rest) y0 in
      let x2 := fold_left Z.max (map fst rest) x0 in
      let y2 := fold_left Z.max (map snd rest) y0 in
      (x1, y1, x2 - x1 + 1, y2 - y1 + 1)
  end.

Definition same_shape (a b : raster) : bool :=
  (List.length a =? List.length b)%nat
  && forallb (fun '(ra, rb) => (List.length ra =? List.length rb)%nat) (combine a b).

(** [cv2.bitwise_or(a, b)] raises on arrays of different sizes. *)
Definition bitwise_or (a b : raster) : outcome raster :=
  if same_shape a b
  then Returned (map (fun '(ra, rb) => map (fun '(u, v) => Z.lor u v) (combine ra rb))
                     (combine a b))
  else Raised "cv2.error".

Definition zeros_like (m : raster) : raster := map (map (fun _ => 0)) m.

(** A point lies in the rectangle [(x, y, w, h)]. *)
Definition rect_has (rect : Z * Z * Z * Z) (p : point) : Prop :=
  let '(x, y, w, h) := rect in
  x <= fst p < x + w /\ y <= snd p < y + h.

(** Rectangle [inner] lies within rectangle [outer]. *)
Definition rect_within (inner outer : Z * Z * Z * Z) : Prop :=
  let '(x, y, w, h) := inner in
  let '(X, Y, W, H) := outer in
  X <= x /\ Y <= y /\ x + w <= X + W /\ y + h <= Y + H.

(** Pixel [p] of mask [m] is non-zero. *)
Definition lit (m : raster) (p : point) : Prop := In p (nonzero m).

End Cv.

(* ------------------------------------------------------------------ *)
(** * Superpixel engine ([core/superpixel_segment.py])                  *)
(* ------------------------------------------------------------------ *)

Module Superpixel.

Record SuperpixelRegion : Type := mkRegion {
  label : Z;
  mask : Cv.raster;
  contour : Cv.contour;
  bbox : Z * Z * Z * Z;
  area : Z;
  center : Z * Z;
  avg_color : Q * Q * Q
}.

Record SuperpixelSegmenter : Type := mkSegmenter {
  region_size : Z;
  ruler : Q;
  labels : option Cv.raster;
  regions : list SuperpixelRegion
}.

(** [np.unique]: the distinct values, ascending. *)
Fixpoint insert_unique (v : Z) (l : list Z) : list Z :=
  match l with
  | [] => [v]
  | u :: rest =>
      if v <? u then v :: u :: rest
      else if v =? u then u :: rest
      else u :: insert_unique v rest
  end.

Definition np_unique (m : Cv.raster) : list Z :=
  fold_right insert_unique [] (List.concat m).

(** [(labels == label).astype(np.uint8) * 255] *)
Definition label_mask (labels : Cv.raster) (label : Z) : Cv.raster :=
  map (map (fun v => if v =? label then 255 else 0)) labels.

(** The loop of [for ... in ...: if ...: continue; ...; append(...)]. *)
Fixpoint collect {A B : Type} (f : A -> option B) (l : list A) : list B :=
  match l with
  | [] => []
  | a :: rest =>
      match f a with
      | Some b => b :: collect f rest
      | None => collect f rest
      end
  end.

Section Engine.

(** Float-valued OpenCV / numpy measurements, taken as given:
    [cv2.contourArea], the moments [(m00, m10, m01)] of a contour, and the
    mean colour of the image under a mask. *)
Variable contourArea : Cv.contour -> Q.
Variable moments : Cv.contour -> Q * Q * Q.
Variable mean_color : Cv.raster -> Q * Q * Q.

(** The two SLIC backends, on an image of a given [(height, width)]. *)
Variable _segment_skimage : Z * Z -> outcome (option Cv.raster).
Variable _segment_opencv : Z * Z -> outcome (option Cv.raster).

(** Body of the loop of [_extract_regions] for one label. *)
Definition extract_region (labels : Cv.raster) (label : Z) : option SuperpixelRegion :=
  if label <? 0 then None
  else
    let mask := label_mask labels label in
    match Cv.findContours mask with
    | [] => None
    | first :: others =>
        let contour := py_max_by contourArea first others in
        let '(x, y, w, h) := Cv.boundingRect contour in
        let area := contourArea contour in
        let '(m00, m10, m01) := moments contour in
        let '(cx, cy) :=
          if Qle_bool m00 0 then (x + w / 2, y + h / 2)
          else (py_int (m10 / m00), py_int (m01 / m00)) in
        Some {| label := label; mask := mask; contour := contour;
                bbox := (x, y, w, h); area := py_int area;
                center := (cx, cy); avg_color := mean_color mask |}
    end.

Definition _extract_regions (labels : Cv.raster) : list SuperpixelRegion :=
  py_sorted_reverse area (collect (extract_region labels) (np_unique labels)).

(** [segment]: the new state of the segmenter and what the call returns. *)
Definition segment (self : SuperpixelSegmenter) (pixmap : Qt.QPixmap)
  : SuperpixelSegmenter * outcome (list SuperpixelRegion) :=
  match Qt._qpixmap_to_cv2 pixmap with
  | Raised e => (self, Raised e)
  | Returned None => (self, Returned [])
  | Returned (Some img) =>
      let served :=
        match _segment_skimage img with
        | Returned l => Returned l
        | Raised _ => _segment_opencv img
        end in
      match served with
      | Raised e => (self, Raised e)
      | Returned None =>
          ({| region_size := region_size self; ruler := ruler self;
              labels := None; regions := regions self |}, Returned [])
      | Returned (Some l) =>
          let rs := _extract_regions l in
          ({| region_size := region_size self; ruler := ruler self;
              labels := Some l; regions := rs |}, Returned rs)
      end
  end.

(** The [for r in regions: merged_mask = cv2.bitwise_or(merged_mask, r.mask)]
    loop. *)
Fixpoint union_masks (merged_mask : Cv.raster) (masks : list Cv.raster)
  : outcome Cv.raster :=
  match masks with
  | [] => Returned merged_mask
  | m :: rest =>
      match Cv.bitwise_or merged_mask m with
      | Returned merged_mask' => union_masks merged_mask' rest
      | Raised e => Raised e
      end
  end.

Definition segmented_roi (fresh_id name : string) (rect : Z * Z * Z * Z)
    (c : Cv.contour) : ROI :=
  let '(rx, ry, rw, rh) := rect in
  {| Roi.x := rx; Roi.y := ry; Roi.width := rw; Roi.height := rh;
     Roi.name := name; Roi.node_name := ""; Roi.image_name := "";
     Roi.roi_type := "image"; Roi.action := "";
     Roi.click_mode := "single"; Roi.click_count := 1; Roi.click_interval := 500;
     Roi.swipe_direction := "top_to_bottom"; Roi.swipe_speed := 400;
     Roi.image_action := "detect";
     Roi.roi_id := fresh_id; Roi.color := "#00FF00"; Roi.tags := [];
     Roi.image_path := "";
     Roi.is_circle := false; Roi.circle_center := None; Roi.circle_radius := None;
     Roi.contour := Some c; Roi.is_segmented := true |}.

Definition merge_regions (fresh_id : string) (regions : list SuperpixelRegion)
  : outcome (option ROI) :=
  match regions with
  | [] => Returned None
  | [r] => Returned (Some (segmented_roi fresh_id "" (bbox r) (contour r)))
  | r0 :: _ =>
      match union_masks (Cv.zeros_like (mask r0)) (map mask regions) with
      | Raised e => Raised e
      | Returned merged_mask =>
          match Cv.findContours merged_mask with
          | [] => Returned None
          | first :: others =>
              let best_contour := py_max_by contourArea first others in
              Returned (Some (segmented_roi fresh_id
                ("superpixel_merge_"
                 ++ NilZero.string_of_uint (Nat.to_uint (List.length regions)))
                (Cv.boundingRect best_contour) best_contour))
          end
      end
  end.

End Engine.

Definition roi_bbox (r : ROI) : Z * Z * Z * Z :=
  (Roi.x r, Roi.y r, Roi.width r, Roi.height r).

(** Two masks share no pixel. *)
Definition masks_disjoint (m1 m2 : Cv.raster) : Prop :=
  forall p, In p (Cv.nonzero m1) -> ~ In p (Cv.nonzero m2).

Definition pairwise_disjoint (rs : list SuperpixelRegion) : Prop :=
  forall i j ri rj, i <> j ->
    nth_error rs i = Some ri -> nth_error rs j = Some rj ->
    masks_disjoint (mask ri) (mask rj).

Definition mask_pixel_total (rs : list SuperpixelRegion) : Z :=
  fold_right Z.add 0 (map (fun r => Cv.countNonZero (mask r)) rs).

(** What a SLIC backend delivers for an image of shape [(h, w)]: it raises,
    or it returns a label raster of that shape whose labels start at 0. *)
Definition backend_contract (img : Z * Z)
    (backend : Z * Z -> outcome (option Cv.raster)) : Prop :=
  match backend img with
  | Raised _ => True
  | Returned None => False
  | Returned (Some l) =>
      Cv.has_shape (fst img) (snd img) l /\ Forall (Forall (fun v => 0 <= v)) l
  end.

(** A pixmap 4 wide and 2 high and a backend that splits it into a left and
    a right cell; a pixmap 3 wide, whose scanlines are padded. *)
Definition pixmap_2x4 : Qt.QPixmap :=
  {| Qt.isNull := false; Qt.width := 4; Qt.height := 2 |}.

Definition two_cells (img : Z * Z) : outcome (option Cv.raster) :=
  Returned (Some [[0; 0; 1; 1]; [0; 1; 1; 1]]).

Definition pixmap_2x3 : Qt.QPixmap :=
  {| Qt.isNull := false; Qt.width := 3; Qt.height := 2 |}.

Definition failing_backend (img : Z * Z) : outcome (option Cv.raster) :=
  Raised "RuntimeError".

Definition pixel_count_area (c : Cv.contour) : Q := inject_Z (Z.of_nat (List.length c)).
Definition no_moments (c : Cv.contour) : Q * Q * Q := (0%Q, 0%Q, 0%Q).
Definition grey (m : Cv.raster) : Q * Q * Q := (128%Q, 128%Q, 128%Q).

Definition new_segmenter : SuperpixelSegmenter :=
  {| region_size := 30; ruler := 10%Q; labels := None; regions := [] |}.

(** A region as [_extract_regions] builds it: its bbox is the bounding
    rectangle of one of the contours of its own mask. *)
Definition region_wf (r : SuperpixelRegion) : Prop :=
  In (contour r) (Cv.findContours (mask r))
  /\ bbox r = Cv.boundingRect (contour r).

(** The union mask that [merge_regions] builds for two or more regions. *)
Definition merged_mask_of (regions : list SuperpixelRegion) : outcome Cv.raster :=
  match regions with
  | [] => Returned []
  | r0 :: _ => union_masks (Cv.zeros_like (mask r0)) (map mask regions)
  end.

(** The regions passed in make up one blob: there is only one of them, or
    their union mask has a single external contour. *)
Definition single_blob (regions : list SuperpixelRegion) : Prop :=
  List.length regions = 1%nat
  \/ exists merged c,
       merged_mask_of regions = Returned merged /\ Cv.findContours merged = [c].

(** A 2 x 6 label raster of three 2 x 2 cells, and the selection of its two
    outer cells (labels 0 and 2), which do not touch. *)
Definition three_cells : Cv.raster :=
  [[0; 0; 1; 1; 2; 2];
   [0; 0; 1; 1; 2; 2]].

Definition outer_cells : list SuperpixelRegion :=
  filter (fun r => negb (label r =? 1))
         (_extract_regions pixel_count_area no_moments grey three_cells).

Definition left_cells : list SuperpixelRegion :=
  filter (fun r => negb (label r =? 2))
         (_extract_regions pixel_count_area no_moments grey three_cells).

(** [labels.shape] of a two-dimensional array kept as its rows.  (An array
    without rows is taken to have no columns either; no pixel is read from
    it.) *)
Definition shape (m : Cv.raster) : Z * Z :=
  (Z.of_nat (List.length m),
   match m with
   | [] => 0
   | row :: _ => Z.of_nat (List.length row)
   end).

(** [get_region_at_point].  The labels are a rectangular array, so the
    pixel read after the bounds test is there. *)
Definition get_region_at_point (self : SuperpixelSegmenter) (x y : Z)
  : option SuperpixelRegion :=
  match labels self with
  | None => None
  | Some l =>
      let '(h, w) := shape l in
      if (x <? 0) || (w <=? x) || (y <? 0) || (h <=? y) then None
      else
        match Cv.pixel l (Z.to_nat x) (Z.to_nat y) with
        | Some lab => find (fun region => label region =? lab) (regions self)
        | None => None
        end
  end.

(** A slice bound of Python, against a sequence of length [n]: a negative
    bound counts from the end. *)
Definition slice_index (n i : Z) : Z :=
  if i <? 0 then Z.max 0 (i + n) else Z.min i n.

(** [l[start:stop]] *)
Definition py_slice {A : Type} (start stop : Z) (l : list A) : list A :=
  let n := Z.of_nat (List.length l) in
  let lo := slice_index n start in
  let hi := slice_index n stop in
  firstn (Z.to_nat (hi - lo)) (skipn (Z.to_nat lo) l).

(** [get_regions_in_rect] *)
Definition get_regions_in_rect (self : SuperpixelSegmenter) (x1 y1 x2 y2 : Z)
  : list SuperpixelRegion :=
  match labels self with
  | None => []
  | Some l =>
      let '(x1, x2) := (Z.min x1 x2, Z.max x1 x2) in
      let '(y1, y2) := (Z.min y1 y2, Z.max y1 y2) in
      let '(h, w) := shape l in
      let x1 := Z.max 0 x1 in
      let y1 := Z.max 0 y1 in
      let x2 := Z.min w x2 in
      let y2 := Z.min h y2 in
      let region_labels := map (py_slice x1 x2) (py_slice y1 y2 l) in
      let unique_labels := np_unique region_labels in
      filter (fun region => existsb (Z.eqb (label region)) unique_labels)
             (regions self)
  end.

(** [filter_regions]; [max_area] is [None] or an integer, and is only
    applied when it is truthy. *)
Definition filter_regions (self : SuperpixelSegmenter) (min_area : Z)
    (max_area : option Z) (min_wh : Z) : list SuperpixelRegion :=
  collect
    (fun r =>
       if area r <? min_area then None
       else if match max_area with
               | Some m => negb (m =? 0) && (m <? area r)
               | None => false
               end then None
       else
         let '(_, _, w, h) := bbox r in
         if (w <? min_wh) || (h <? min_wh) then None
         else Some r)
    (regions self).

(** Label [lab] occurs in the window of columns [x1 <= x < x2] and rows
    [y1 <= y < y2] of the label array. *)
Definition label_in_window (l : Cv.raster) (x1 y1 x2 y2 lab : Z) : Prop :=
  exists nx ny,
    x1 <= Z.of_nat nx < x2 /\ y1 <= Z.of_nat ny < y2
    /\ Cv.pixel l nx ny = Some lab.

(** A [set] of labels, of which the tool only tests membership. *)
Definition set_in (v : Z) (s : list Z) : bool := existsb (Z.eqb v) s.
Definition set_add (v : Z) (s : list Z) : list Z := if set_in v s then s else v :: s.
Definition set_remove (v : Z) (s : list Z) : list Z :=
  filter (fun u => negb (u =? v)) s.

Record SuperpixelMergeTool : Type := mkTool {
  segmenter : SuperpixelSegmenter;
  selected_labels : list Z;
  merged_rois : list ROI
}.

(** [SuperpixelMergeTool.__init__] *)
Definition new_tool (seg : SuperpixelSegmenter) : SuperpixelMergeTool :=
  {| segmenter := seg; selected_labels := []; merged_rois := [] |}.

Definition with_selection (s : list Z) (self : SuperpixelMergeTool)
  : SuperpixelMergeTool :=
  {| segmenter := segmenter self; selected_labels := s;
     merged_rois := merged_rois self |}.

Definition clear_selection (self : SuperpixelMergeTool) : SuperpixelMergeTool :=
  with_selection [] self.

(** [click_select]: the tool afterwards and the value returned. *)
Definition click_select (self : SuperpixelMergeTool) (x y : Z) (additive : bool)
  : SuperpixelMergeTool * option SuperpixelRegion :=
  match get_region_at_point (segmenter self) x y with
  | None =>
      if negb additive then (with_selection [] self, None) else (self, None)
  | Some region =>
      if additive then
        if set_in (label region) (selected_labels self)
        then (with_selection (set_remove (label region) (selected_labels self)) self,
              Some region)
        else (with_selection (set_add (label region) (selected_labels self)) self,
              Some region)
      else (with_selection (set_add (label region) []) self, Some region)
  end.

(** [rect_select] *)
Definition rect_select (self : SuperpixelMergeTool) (x1 y1 x2 y2 : Z)
  : SuperpixelMergeTool * list SuperpixelRegion :=
  let found := get_regions_in_rect (segmenter self) x1 y1 x2 y2 in
  (with_selection (fold_left (fun s r => set_add (label r) s) found
                     (selected_labels self)) self,
   found).

(** [get_selected_regions] *)
Definition get_selected_regions (self : SuperpixelMergeTool) : list SuperpixelRegion :=
  filter (fun r => set_in (label r) (selected_labels self))
         (regions (segmenter self)).

(** [merge_selected].  An [ROI] object is always truthy, so [if roi:]
    tests for [None]. *)
Definition merge_selected (contourArea : Cv.contour -> Q) (fresh_id : string)
    (self : SuperpixelMergeTool) : SuperpixelMergeTool * outcome (option ROI) :=
  let selected := get_selected_regions self in
  if (List.length selected <? 2)%nat then (self, Returned None)
  else
    match merge_regions contourArea fresh_id selected with
    | Returned (Some roi) =>
        ({| segmenter := segmenter self; selected_labels := [];
            merged_rois := merged_rois self ++ [roi] |},
         Returned (Some roi))
    | Returned None => (self, Returned None)
    | Raised e => (self, Raised e)
    end.

(** The segmenter after [segment] on the 4 x 2 pixmap split in two cells,
    and on an 8 x 2 pixmap split in three. *)
Definition segmented_2x4 : SuperpixelSegmenter :=
  fst (segment pixel_count_area no_moments grey failing_backend two_cells
         new_segmenter pixmap_2x4).

Definition pixmap_2x8 : Qt.QPixmap :=
  {| Qt.isNull := false; Qt.width := 8; Qt.height := 2 |}.

Definition three_wide_cells : Cv.raster :=
  [[0; 0; 0; 1; 1; 2; 2; 2];
   [0; 0; 0; 1; 1; 2; 2; 2]].

Definition three_cells_backend (img : Z * Z) : outcome (option Cv.raster) :=
  Returned (Some three_wide_cells).

Definition segmented_2x8 : SuperpixelSegmenter :=
  fst (segment pixel_count_area no_moments grey three_cells_backend failing_backend
         new_segmenter pixmap_2x8).

End Superpixel.

(* ================================================================== *)
(** * Verified properties                                               *)
(* ================================================================== *)

(** ** Conversion of the pixmap *)

Section PixmapFacts.

Lemma bytesPerLine_aligned (w : Z) : w mod 4 = 0 -> Qt.bytesPerLine w = w * 3.
Proof.
  intros Hw. unfold Qt.bytesPerLine.
  pose proof (Z.div_mod w 4 ltac:(lia)) as Hk. rewrite Hw in Hk.
  replace (w * 24 + 31) with (3 * (w / 4) * 32 + 31) by lia.
  rewrite Z.div_add_l by lia. change (31 / 32) with 0. lia.
Qed.

Lemma bytesPerLine_padded (w : Z) : w mod 4 <> 0 -> Qt.bytesPerLine w <> w * 3.
Proof.
  intros Hw Heq. unfold Qt.bytesPerLine in Heq.
  pose proof (Z.div_mod w 4 ltac:(lia)) as Hk.
  pose proof (Z.mod_pos_bound w 4 ltac:(lia)) as Hr.
  lia.
Qed.

Lemma qpixmap_null (pixmap : Qt.QPixmap) :
  Qt.isNull pixmap = true -> Qt._qpixmap_to_cv2 pixmap = Returned None.
Proof. intros Hnull. unfold Qt._qpixmap_to_cv2. rewrite Hnull. reflexivity. Qed.

Lemma qpixmap_aligned (pixmap : Qt.QPixmap) :
  Qt.isNull pixmap = false -> Qt.width pixmap mod 4 = 0 ->
  Qt._qpixmap_to_cv2 pixmap = Returned (Some (Qt.height pixmap, Qt.width pixmap)).
Proof.
  intros Hnull Hw. unfold Qt._qpixmap_to_cv2, Qt.byteCount. rewrite Hnull.
  rewrite (bytesPerLine_aligned _ Hw).
  replace (Qt.width pixmap * 3 * Qt.height pixmap)
    with (Qt.height pixmap * Qt.width pixmap * 3) by ring.
  rewrite Z.eqb_refl. reflexivity.
Qed.

Lemma qpixmap_padded (pixmap : Qt.QPixmap) :
  Qt.isNull pixmap = false -> Qt.height pixmap <> 0 -> Qt.width pixmap mod 4 <> 0 ->
  Qt._qpixmap_to_cv2 pixmap = Raised "ValueError".
Proof.
  intros Hnull Hh Hw. unfold Qt._qpixmap_to_cv2, Qt.byteCount. rewrite Hnull.
  pose proof (bytesPerLine_padded _ Hw) as Hpad.
  destruct (Z.eqb_spec (Qt.bytesPerLine (Qt.width pixmap) * Qt.height pixmap)
              (Qt.height pixmap * Qt.width pixmap * 3)) as [Heq|Hne]; [|reflexivity].
  exfalso. apply Hpad. nia.
Qed.

(** What each outcome of the conversion says about the pixmap. *)
Lemma qpixmap_cases (pixmap : Qt.QPixmap) :
  match Qt._qpixmap_to_cv2 pixmap with
  | Returned None => Qt.isNull pixmap = true
  | Returned (Some img) =>
      Qt.isNull pixmap = false /\ img = (Qt.height pixmap, Qt.width pixmap)
  | Raised e =>
      Qt.isNull pixmap = false /\ e = "ValueError"%string
      /\ Qt.width pixmap mod 4 <> 0
  end.
Proof.
  destruct (Qt.isNull pixmap) eqn:Hnull.
  - rewrite (qpixmap_null _ Hnull). reflexivity.
  - destruct (Z.eq_dec (Qt.width pixmap mod 4) 0) as [Hw|Hw].
    + rewrite (qpixmap_aligned _ Hnull Hw). split; reflexivity.
    + unfold Qt._qpixmap_to_cv2. rewrite Hnull.
      destruct (_ =? _); [split; reflexivity|].
      repeat split. exact Hw.
Qed.

End PixmapFacts.

(** ** Intersection over union *)

Section IouFacts.
Import Merger.

Lemma calculate_iou_sym (a b : ROI) : _calculate_iou a b = _calculate_iou b a.
Proof.
  unfold _calculate_iou.
  rewrite (Z.max_comm (Roi.x a)), (Z.max_comm (Roi.y a)),
          (Z.min_comm (Roi.right a)), (Z.min_comm (Roi.bottom a)),
          (Z.add_comm (Roi.area a)).
  reflexivity.
Qed.

Lemma overlap_iff (a b : ROI) :
  boxes_overlap a b <->
  Z.max (Roi.x a) (Roi.x b) < Z.min (Roi.right a) (Roi.right b) /\
  Z.max (Roi.y a) (Roi.y b) < Z.min (Roi.bottom a) (Roi.bottom b).
Proof.
  unfold boxes_overlap, covers. split.
  - intros (px & py & Ha & Hb). lia.
  - intros [Hx Hy].
    exists (Z.max (Roi.x a) (Roi.x b)), (Z.max (Roi.y a) (Roi.y b)). lia.
Qed.

Lemma calculate_iou_no_overlap (a b : ROI) :
  ~ boxes_overlap a b -> _calculate_iou a b = 0%Q.
Proof.
  intros Hno. unfold _calculate_iou.
  destruct (Z.leb_spec (Z.min (Roi.right a) (Roi.right b)) (Z.max (Roi.x a) (Roi.x b)));
    [reflexivity|].
  destruct (Z.leb_spec (Z.min (Roi.bottom a) (Roi.bottom b)) (Z.max (Roi.y a) (Roi.y b)));
    [reflexivity|].
  exfalso. apply Hno. apply overlap_iff. split; assumption.
Qed.

(** On positive-size boxes the intersection never exceeds either area. *)
Lemma intersection_le_areas (a b : ROI) :
  positive_size a -> positive_size b -> boxes_overlap a b ->
  0 < intersection_area a b /\
  intersection_area a b <= Roi.area a /\
  intersection_area a b <= Roi.area b.
Proof.
  intros [Hwa Hha] [Hwb Hhb] Hov. apply overlap_iff in Hov.
  destruct Hov as [Hx Hy].
  unfold intersection_area, Roi.area, Roi.right, Roi.bottom in *.
  set (dx := Z.min (Roi.x a + Roi.width a) (Roi.x b + Roi.width b)
             - Z.max (Roi.x a) (Roi.x b)) in *.
  set (dy := Z.min (Roi.y a + Roi.height a) (Roi.y b + Roi.height b)
             - Z.max (Roi.y a) (Roi.y b)) in *.
  assert (0 < dx <= Roi.width a /\ dx <= Roi.width b) by (subst dx; lia).
  assert (0 < dy <= Roi.height a /\ dy <= Roi.height b) by (subst dy; lia).
  rewrite !Z.max_r by lia. nia.
Qed.

Lemma calculate_iou_overlap (a b : ROI) :
  positive_size a -> positive_size b -> boxes_overlap a b ->
  _calculate_iou a b =
    (inject_Z (intersection_area a b)
     / inject_Z (Roi.area a + Roi.area b - intersection_area a b))%Q.
Proof.
  intros Ha Hb Hov.
  destruct (intersection_le_areas a b Ha Hb Hov) as (Hpos & Hla & Hlb).
  apply overlap_iff in Hov. destruct Hov as [Hx Hy].
  unfold _calculate_iou.
  destruct (Z.leb_spec (Z.min (Roi.right a) (Roi.right b)) (Z.max (Roi.x a) (Roi.x b)));
    [lia|].
  destruct (Z.leb_spec (Z.min (Roi.bottom a) (Roi.bottom b)) (Z.max (Roi.y a) (Roi.y b)));
    [lia|].
  cbn [orb].
  assert (Hi : (Z.min (Roi.right a) (Roi.right b) - Z.max (Roi.x a) (Roi.x b))
               * (Z.min (Roi.bottom a) (Roi.bottom b) - Z.max (Roi.y a) (Roi.y b))
               = intersection_area a b).
  { unfold intersection_area.
    rewrite (Z.max_r 0 (Z.min (Roi.right a) (Roi.right b) - _)) by lia.
    rewrite (Z.max_r 0 (Z.min (Roi.bottom a) (Roi.bottom b) - _)) by lia.
    reflexivity. }
  rewrite Hi.
  destruct (Z.ltb_spec 0 (Roi.area a + Roi.area b - intersection_area a b));
    [reflexivity | lia].
Qed.

Lemma ratio_bounds (i u : Z) :
  0 <= i -> i <= u -> 0 < u -> (0 <= inject_Z i / inject_Z u <= 1)%Q.
Proof.
  intros Hi Hiu Hu.
  assert (Hu' : (inject_Z 0 < inject_Z u)%Q) by (rewrite <- Zlt_Qlt; exact Hu).
  split.
  - apply Qle_shift_div_l; [exact Hu'|].
    rewrite Qmult_0_l. change 0%Q with (inject_Z 0).
    rewrite <- Zle_Qle. exact Hi.
  - apply Qle_shift_div_r; [exact Hu'|].
    rewrite Qmult_1_l. rewrite <- Zle_Qle. exact Hiu.
Qed.

Lemma calculate_iou_bounds (a b : ROI) :
  positive_size a -> positive_size b -> (0 <= _calculate_iou a b <= 1)%Q.
Proof.
  intros Ha Hb.
  destruct (Z.ltb_spec (Z.max (Roi.x a) (Roi.x b)) (Z.min (Roi.right a) (Roi.right b)))
    as [Hx|Hx];
  [destruct (Z.ltb_spec (Z.max (Roi.y a) (Roi.y b)) (Z.min (Roi.bottom a) (Roi.bottom b)))
    as [Hy|Hy]|].
  - assert (Hov : boxes_overlap a b) by (apply overlap_iff; split; assumption).
    rewrite (calculate_iou_overlap a b Ha Hb Hov).
    destruct (intersection_le_areas a b Ha Hb Hov) as (Hpos & Hla & Hlb).
    apply ratio_bounds; lia.
  - rewrite calculate_iou_no_overlap; [split; discriminate|].
    intros Hov. apply overlap_iff in Hov. lia.
  - rewrite calculate_iou_no_overlap; [split; discriminate|].
    intros Hov. apply overlap_iff in Hov. lia.
Qed.

Lemma calculate_iou_self (a : ROI) :
  positive_size a -> (_calculate_iou a a == 1)%Q.
Proof.
  intros Ha.
  assert (Hov : boxes_overlap a a).
  { apply overlap_iff. destruct Ha. unfold Roi.right, Roi.bottom. lia. }
  rewrite (calculate_iou_overlap a a Ha Ha Hov).
  assert (Hi : intersection_area a a = Roi.area a).
  { destruct Ha. unfold intersection_area, Roi.area, Roi.right, Roi.bottom.
    rewrite !Z.max_id, !Z.min_id, !Z.max_r by lia. f_equal; lia. }
  rewrite Hi.
  replace (Roi.area a + Roi.area a - Roi.area a) with (Roi.area a) by lia.
  apply Qmult_inv_r.
  destruct Ha as [Hw Hh]. unfold Roi.area. intros Hz.
  unfold Qeq in Hz. cbn in Hz. nia.
Qed.

End IouFacts.

(** C3. For boxes of positive width and height the ratio computed by
  [_calculate_iou] is symmetric, lies in [[0,1]], is 1 on identical boxes,
  is 0 when the boxes share no pixel, and otherwise is
  [intersectionArea / (areaA + areaB - intersectionArea)]. *)
Theorem calculate_iou_properties (a b : ROI) :
  Merger.positive_size a -> Merger.positive_size b ->
  Merger._calculate_iou a b = Merger._calculate_iou b a
  /\ (0 <= Merger._calculate_iou a b <= 1)%Q
  /\ (Merger._calculate_iou a a == 1)%Q
  /\ (~ Merger.boxes_overlap a b -> Merger._calculate_iou a b = 0%Q)
  /\ (Merger.boxes_overlap a b ->
      Merger._calculate_iou a b =
        (inject_Z (Merger.intersection_area a b)
         / inject_Z (Roi.area a + Roi.area b - Merger.intersection_area a b))%Q).
Proof.
  intros Ha Hb. repeat split.
  - apply calculate_iou_sym.
  - apply calculate_iou_bounds; assumption.
  - apply calculate_iou_bounds; assumption.
  - apply calculate_iou_self; assumption.
  - apply calculate_iou_no_overlap.
  - apply calculate_iou_overlap; assumption.
Qed.

Lemma calculate_iou_properties_witness :
  Merger.positive_size Merger.sample_a /\ Merger.positive_size Merger.sample_b /\
  (0 <= Merger._calculate_iou Merger.sample_a Merger.sample_b <= 1)%Q.
Proof.
  assert (Ha : Merger.positive_size Merger.sample_a) by (split; reflexivity).
  assert (Hb : Merger.positive_size Merger.sample_b) by (split; reflexivity).
  split; [exact Ha | split; [exact Hb |]].
  exact (proj1 (proj2 (calculate_iou_properties _ _ Ha Hb))).
Defined.

(** ** The stable descending sort *)

Section SortFacts.
Context {A : Type} (key : A -> Z).
Import Merger.

Let desc (a b : A) : Prop := key b <= key a.

Lemma insert_desc_perm (a : A) (l : list A) :
  Permutation (insert_desc key a l) (a :: l).
Proof.
  induction l as [|b l IH]; cbn.
  - apply Permutation_refl.
  - destruct (key b <=? key a).
    + apply Permutation_refl.
    + apply perm_trans with (b :: a :: l).
      * apply perm_skip, IH.
      * apply perm_swap.
Qed.

Lemma py_sorted_reverse_perm (l : list A) :
  Permutation (py_sorted_reverse key l) l.
Proof.
  induction l as [|a l IH]; cbn.
  - apply perm_nil.
  - apply perm_trans with (a :: py_sorted_reverse key l).
    + apply insert_desc_perm.
    + apply perm_skip, IH.
Qed.

Lemma insert_desc_sorted (a : A) (l : list A) :
  StronglySorted desc l -> StronglySorted desc (insert_desc key a l).
Proof.
  induction l as [|b l IH]; intros Hs; cbn.
  - constructor; constructor.
  - inversion Hs as [|? ? Hl Hb]; subst.
    destruct (Z.leb_spec (key b) (key a)) as [Hle|Hlt].
    + constructor; [exact Hs|].
      constructor; [exact Hle|].
      eapply Forall_impl; [|exact Hb].
      intros c Hc. unfold desc in *. lia.
    + constructor; [apply IH; exact Hl|].
      eapply Permutation_Forall.
      * apply Permutation_sym, insert_desc_perm.
      * constructor; [unfold desc; lia | exact Hb].
Qed.

Lemma py_sorted_reverse_sorted (l : list A) :
  StronglySorted desc (py_sorted_reverse key l).
Proof.
  induction l as [|a l IH]; cbn.
  - constructor.
  - apply insert_desc_sorted, IH.
Qed.

(** Stability: among elements of one key the input order survives. *)
Lemma insert_desc_filter (k : Z) (a : A) (l : list A) :
  filter (fun r => key r =? k) (insert_desc key a l)
  = filter (fun r => key r =? k) (a :: l).
Proof.
  induction l as [|b l IH]; [reflexivity|].
  cbn [insert_desc].
  destruct (Z.leb_spec (key b) (key a)) as [Hle|Hlt]; [reflexivity|].
  cbn [filter] in *. rewrite IH.
  destruct (Z.eqb_spec (key a) k), (Z.eqb_spec (key b) k); try reflexivity.
  lia.
Qed.

Lemma py_sorted_reverse_stable (k : Z) (l : list A) :
  filter (fun r => key r =? k) (py_sorted_reverse key l)
  = filter (fun r => key r =? k) l.
Proof.
  induction l as [|a l IH]; [reflexivity|].
  cbn [py_sorted_reverse]. rewrite insert_desc_filter.
  cbn [filter]. rewrite IH. reflexivity.
Qed.

(** A list already in descending order is returned as it is. *)
Lemma py_sorted_reverse_id (l : list A) :
  StronglySorted desc l -> py_sorted_reverse key l = l.
Proof.
  induction 1 as [|a l Hs IH Hall]; [reflexivity|].
  cbn [py_sorted_reverse]. rewrite IH.
  destruct l as [|b l']; [reflexivity|].
  cbn [insert_desc]. inversion Hall as [|? ? Hb _]; subst.
  unfold desc in Hb. destruct (Z.leb_spec (key b) (key a)); [reflexivity | lia].
Qed.

Lemma sorted_drop_middle (l1 : list A) (a : A) (l2 : list A) :
  StronglySorted desc (l1 ++ a :: l2) -> StronglySorted desc (l1 ++ l2).
Proof.
  induction l1 as [|b l1 IH]; cbn; intros Hs.
  - inversion Hs; assumption.
  - inversion Hs as [|? ? Hl Hb]; subst. constructor.
    + apply IH, Hl.
    + apply Forall_app in Hb. destruct Hb as [H1 H2].
      apply Forall_app. split; [exact H1|].
      inversion H2; assumption.
Qed.

End SortFacts.

(** ** The greedy overlap merge *)

Section MergeFacts.
Import Merger.
Variable iou_threshold : Q.

(** The flag left by the inner loop says that some kept region is exceeded. *)
Lemma should_merge_false (roi : ROI) (merged : list ROI) :
  should_merge iou_threshold roi merged = false <->
  within_threshold iou_threshold roi merged.
Proof.
  unfold within_threshold. induction merged as [|e rest IH]; cbn.
  - split; [constructor | reflexivity].
  - destruct (Qle_bool (_calculate_iou roi e) iou_threshold) eqn:Hle; cbn.
    + rewrite IH. split.
      * intros Hrest. constructor; [apply Qle_bool_iff; exact Hle | exact Hrest].
      * intros Hall. inversion Hall; assumption.
    + split; [discriminate|].
      intros Hall. inversion Hall as [|? ? He _]; subst.
      apply Qle_bool_iff in He. congruence.
Qed.

(** One step of the outer loop, read off the kept list. *)
Lemma merge_loop_snoc (merged l : list ROI) (c : ROI) :
  merge_loop iou_threshold merged (l ++ [c]) =
    let kept := merge_loop iou_threshold merged l in
    if should_merge iou_threshold c kept then kept else kept ++ [c].
Proof.
  revert merged. induction l as [|a l IH]; intros merged; cbn.
  - destruct (should_merge iou_threshold c merged); reflexivity.
  - destruct (should_merge iou_threshold a merged); apply IH.
Qed.

Lemma merge_loop_compatible (kept l : list ROI) :
  compatible iou_threshold kept l -> merge_loop iou_threshold kept l = kept ++ l.
Proof.
  revert kept. induction l as [|c l IH]; intros kept; cbn.
  - intros _. rewrite app_nil_r. reflexivity.
  - intros [Hc Hl]. rewrite Hc, (IH _ Hl), <- app_assoc. reflexivity.
Qed.

Lemma merge_loop_extends (kept l : list ROI) :
  exists ext, merge_loop iou_threshold kept l = kept ++ ext /\ compatible iou_threshold kept ext.
Proof.
  revert kept. induction l as [|c l IH]; intros kept; cbn.
  - exists []. rewrite app_nil_r. split; [reflexivity | exact I].
  - destruct (should_merge iou_threshold c kept) eqn:Hc.
    + apply IH.
    + destruct (IH (kept ++ [c])) as (ext & Heq & Hcompat).
      exists (c :: ext). rewrite Heq, <- app_assoc. cbn. auto.
Qed.

Lemma merge_loop_sorted (kept l : list ROI) :
  StronglySorted area_desc (kept ++ l) ->
  StronglySorted area_desc (merge_loop iou_threshold kept l).
Proof.
  revert kept. induction l as [|c l IH]; intros kept; cbn.
  - rewrite app_nil_r. auto.
  - intros Hs. destruct (should_merge iou_threshold c kept).
    + apply IH. exact (sorted_drop_middle Roi.area kept c l Hs).
    + apply IH. rewrite <- app_assoc. exact Hs.
Qed.

Lemma merge_fixed_point (l : list ROI) :
  StronglySorted area_desc l ->
  let out := merge_loop iou_threshold [] l in
  _merge_overlapping_rois out iou_threshold = out.
Proof.
  intros Hs out.
  assert (Hsorted : StronglySorted area_desc out)
    by (apply merge_loop_sorted; exact Hs).
  destruct (merge_loop_extends [] l) as (ext & Heq & Hcompat).
  cbn [app] in Heq. fold out in Heq.
  unfold _merge_overlapping_rois.
  destruct out as [|r out'] eqn:Hout; [reflexivity|].
  rewrite (py_sorted_reverse_id Roi.area _ Hsorted).
  rewrite Heq. apply (merge_loop_compatible [] ext Hcompat).
Qed.

End MergeFacts.

(** C1. [_merge_overlapping_rois] works on the candidates stably sorted by
    bbox area, largest first (a permutation of the input in descending area
    order in which regions of equal area keep their input order), and walks
    them greedily: a candidate is appended to the kept list exactly when its
    IoU with every region kept so far does not exceed the threshold.  Being a
    function of the input list, the result is determined by the input
    order. *)
Theorem merge_overlapping_rois_greedy (rois : list ROI) (iou_threshold : Q) :
  let sorted_rois := py_sorted_reverse Roi.area rois in
  let kept_after := Merger.merge_loop iou_threshold [] in
  Permutation sorted_rois rois
  /\ StronglySorted Merger.area_desc sorted_rois
  /\ Merger.same_area_order sorted_rois rois
  /\ Merger._merge_overlapping_rois rois iou_threshold = kept_after sorted_rois
  /\ kept_after [] = []
  /\ (forall done candidate rest,
        sorted_rois = done ++ candidate :: rest ->
        (Merger.within_threshold iou_threshold candidate (kept_after done) ->
         kept_after (done ++ [candidate]) = kept_after done ++ [candidate])
        /\ (~ Merger.within_threshold iou_threshold candidate (kept_after done) ->
            kept_after (done ++ [candidate]) = kept_after done)).
Proof.
  intros sorted_rois kept_after. repeat split.
  - apply py_sorted_reverse_perm.
  - apply (py_sorted_reverse_sorted Roi.area).
  - intros k. apply (py_sorted_reverse_stable Roi.area).
  - unfold Merger._merge_overlapping_rois. destruct rois; reflexivity.
  - intros Hin. unfold kept_after in *. rewrite merge_loop_snoc. cbv zeta.
    apply should_merge_false in Hin. rewrite Hin. reflexivity.
  - intros Hout. unfold kept_after in *. rewrite merge_loop_snoc. cbv zeta.
    destruct (Merger.should_merge iou_threshold candidate
                (Merger.merge_loop iou_threshold [] done)) eqn:Hm; [reflexivity|].
    exfalso. apply Hout. apply should_merge_false. exact Hm.
Qed.

(** C4. Merging is idempotent: feeding the output of
    [_merge_overlapping_rois] back in at the same threshold returns the very
    same list, element by element and in the same order. *)
Theorem merge_overlapping_rois_idempotent (rois : list ROI) (iou_threshold : Q) :
  Merger._merge_overlapping_rois
    (Merger._merge_overlapping_rois rois iou_threshold) iou_threshold
  = Merger._merge_overlapping_rois rois iou_threshold.
Proof.
  unfold Merger._merge_overlapping_rois at 2 3.
  destruct rois as [|r rois']; [reflexivity|].
  apply merge_fixed_point.
  apply (py_sorted_reverse_sorted Roi.area).
Qed.

(** ** The selection index of a collection *)

Section CollectionFacts.
Import Collection.

Lemma del_at_length (i : Z) (l : list ROI) :
  0 <= i < Z.of_nat (List.length l) ->
  Z.of_nat (List.length (del_at i l)) = Z.of_nat (List.length l) - 1.
Proof.
  intros Hi. unfold del_at.
  rewrite length_app, length_firstn, length_skipn. lia.
Qed.

Lemma del_at_nth_before (i : Z) (l : list ROI) (j : nat) :
  0 <= i -> (j < Z.to_nat i)%nat ->
  nth_error (del_at i l) j = nth_error l j.
Proof.
  intros Hi Hj. unfold del_at.
  destruct (Nat.lt_ge_cases j (List.length l)) as [Hlt|Hge].
  - rewrite nth_error_app1 by (rewrite length_firstn; lia).
    apply nth_error_firstn_lt || (rewrite nth_error_firstn;
      destruct (Nat.ltb_spec j (Z.to_nat i)); [reflexivity | lia]).
  - rewrite (proj2 (nth_error_None l j)) by lia.
    apply nth_error_None. rewrite length_app, length_firstn, length_skipn. lia.
Qed.

Lemma del_at_nth_after (i : Z) (l : list ROI) (j : nat) :
  0 <= i < Z.of_nat (List.length l) -> (Z.to_nat i <= j)%nat ->
  nth_error (del_at i l) j = nth_error l (S j).
Proof.
  intros Hi Hj. unfold del_at.
  rewrite nth_error_app2 by (rewrite length_firstn; lia).
  rewrite length_firstn, nth_error_skipn.
  f_equal. lia.
Qed.

Lemma first_containing_range (point : Z * Z) (l : list ROI) (i j : Z) :
  first_containing point i l = Some j -> i <= j < i + Z.of_nat (List.length l).
Proof.
  revert i. induction l as [|r l IH]; intros i; cbn [first_containing].
  - discriminate.
  - destruct (contains r point).
    + intros [= <-]. cbn [List.length]. lia.
    + intros Hj. apply IH in Hj. cbn [List.length]. lia.
Qed.

Lemma add_valid (roi : ROI) (c : ROICollection) :
  valid_selection c -> valid_selection (fst (add roi c)).
Proof.
  unfold valid_selection, add, len.
  destruct (String.eqb (Roi.name roi) ""); cbn; rewrite length_app; cbn; lia.
Qed.

Lemma remove_valid (index : Z) (c : ROICollection) :
  valid_selection c -> valid_selection (fst (remove index c)).
Proof.
  unfold valid_selection, remove, len. intros Hv.
  destruct (Z.leb_spec 0 index); [|exact Hv].
  destruct (Z.ltb_spec index (Z.of_nat (List.length (rois c)))); [|exact Hv].
  cbn. rewrite del_at_length by lia.
  destruct (Z.eqb_spec (selected_index c) index); [left; reflexivity|].
  destruct (Z.ltb_spec index (selected_index c)); lia.
Qed.

Lemma select_by_point_valid (point : Z * Z) (c : ROICollection) :
  valid_selection (fst (select_by_point point c)).
Proof.
  unfold valid_selection, select_by_point, len. cbn.
  destruct (first_containing point 0 (rois c)) as [j|] eqn:Hj.
  - apply first_containing_range in Hj. lia.
  - left; reflexivity.
Qed.

Lemma copy_selected_valid (fresh_id : string) (c : ROICollection) :
  valid_selection c -> valid_selection (fst (copy_selected fresh_id c)).
Proof.
  intros Hv. unfold copy_selected.
  destruct (get_selected c) as [roi|]; [|exact Hv].
  unfold valid_selection, len, add. cbn.
  destruct (String.eqb _ ""); cbn; rewrite length_app; cbn; lia.
Qed.

Lemma run_valid (k : call) (c : ROICollection) :
  valid_selection c -> valid_selection (run k c).
Proof.
  intros Hv. destruct k; cbn [run].
  - apply add_valid, Hv.
  - apply remove_valid, Hv.
  - unfold remove_selected. destruct (0 <=? selected_index c).
    + apply remove_valid, Hv.
    + exact Hv.
  - unfold valid_selection, select, len. cbn.
    destruct (Z.leb_spec 0 index); cbn; [|left; reflexivity].
    destruct (Z.ltb_spec index (Z.of_nat (List.length (rois c)))); lia.
  - apply select_by_point_valid.
  - apply copy_selected_valid, Hv.
  - left; reflexivity.
Qed.

Lemma run_all_valid (ks : list call) (c : ROICollection) :
  valid_selection c -> valid_selection (run_all ks c).
Proof.
  revert c. induction ks as [|k ks IH]; intros c Hv; cbn.
  - exact Hv.
  - apply IH, run_valid, Hv.
Qed.

Lemma remove_keeps_selected (c : ROICollection) (i : Z) :
  valid_selection c -> 0 <= i < len c -> selected_index c <> i ->
  get_selected (fst (remove i c)) = get_selected c.
Proof.
  unfold valid_selection, get_selected, get, remove, len.
  intros Hv Hi Hne.
  destruct (Z.leb_spec 0 i); [|lia].
  destruct (Z.ltb_spec i (Z.of_nat (List.length (rois c)))); [|lia].
  cbn. rewrite del_at_length by lia.
  destruct (Z.eqb_spec (selected_index c) i); [contradiction|].
  destruct (Z.ltb_spec i (selected_index c)) as [Hgt|Hle].
  - destruct (Z.leb_spec 0 (selected_index c - 1)); [|lia].
    destruct (Z.ltb_spec (selected_index c - 1) (Z.of_nat (List.length (rois c)) - 1)); [|lia].
    destruct (Z.leb_spec 0 (selected_index c)); [|lia].
    destruct (Z.ltb_spec (selected_index c) (Z.of_nat (List.length (rois c)))); [|lia].
    cbn. rewrite del_at_nth_after by lia. f_equal. lia.
  - destruct (Z.leb_spec 0 (selected_index c)); [|reflexivity].
    destruct (Z.ltb_spec (selected_index c) (Z.of_nat (List.length (rois c)) - 1)); [|lia].
    destruct (Z.ltb_spec (selected_index c) (Z.of_nat (List.length (rois c)))); [|lia].
    cbn. apply del_at_nth_before; lia.
Qed.

End CollectionFacts.

(** C10. The selection index of an [ROICollection] is [-1] or a valid index
    into the ROI list: this holds of every collection built from a new one by
    [add], [remove], [remove_selected], [select], [select_by_point],
    [copy_selected] and [clear], and each call preserves it.  [remove(i)]
    keeps the selection on the same ROI: a selected index above [i] moves down
    by one, one below [i] stays, and removing the selected ROI itself resets
    the selection to [-1]. *)
Theorem selected_index_invariant :
  (forall ks, Collection.valid_selection (Collection.run_all ks Collection.init))
  /\ (forall k c, Collection.valid_selection c ->
                 Collection.valid_selection (Collection.run k c))
  /\ (forall c i,
        Collection.valid_selection c -> 0 <= i < Collection.len c ->
        let c' := fst (Collection.remove i c) in
        snd (Collection.remove i c) = true
        /\ (Collection.selected_index c = i -> Collection.selected_index c' = -1)
        /\ (i < Collection.selected_index c ->
            Collection.selected_index c' = Collection.selected_index c - 1
            /\ Collection.get_selected c' = Collection.get_selected c)
        /\ (Collection.selected_index c < i ->
            Collection.selected_index c' = Collection.selected_index c
            /\ Collection.get_selected c' = Collection.get_selected c)).
Proof.
  split; [|split].
  - intros ks. apply run_all_valid. left; reflexivity.
  - intros k c. apply run_valid.
  - intros c i Hv Hi c'.
    assert (Hsel : Collection.selected_index c' =
                   (if Collection.selected_index c =? i then -1
                    else if i <? Collection.selected_index c
                         then Collection.selected_index c - 1
                         else Collection.selected_index c)
                   /\ snd (Collection.remove i c) = true).
    { subst c'. unfold Collection.remove.
      destruct (Z.leb_spec 0 i); [|lia].
      destruct (Z.ltb_spec i (Collection.len c)); [|lia].
      split; reflexivity. }
    destruct Hsel as [Hsel Hret]. split; [exact Hret|].
    split; [|split].
    + intros Heq. rewrite Hsel.
      destruct (Z.eqb_spec (Collection.selected_index c) i); [reflexivity | contradiction].
    + intros Hgt. split.
      * rewrite Hsel.
        destruct (Z.eqb_spec (Collection.selected_index c) i); [lia|].
        destruct (Z.ltb_spec i (Collection.selected_index c)); [reflexivity | lia].
      * apply remove_keeps_selected; [exact Hv | exact Hi | lia].
    + intros Hlt. split.
      * rewrite Hsel.
        destruct (Z.eqb_spec (Collection.selected_index c) i); [lia|].
        destruct (Z.ltb_spec i (Collection.selected_index c)); [lia | reflexivity].
      * apply remove_keeps_selected; [exact Hv | exact Hi | lia].
Qed.

(** ** The export dictionary *)

(** C8 (as stated) fails: for a region configured for clicking, the
    dictionary has no [click_interval_ms] field, which the listed schema
    requires. *)
Lemma to_dict_schema_counterexample :
  ~ Roi.same_fields (dict_keys (Roi.to_dict Roi.click_region))
                    (Roi.spec_schema Roi.click_region).
Proof.
  intros Hsame.
  assert (Hin : In "click_interval_ms"%string (dict_keys (Roi.to_dict Roi.click_region))).
  { apply Hsame. vm_compute. do 12 right. left. reflexivity. }
  vm_compute in Hin.
  repeat (destruct Hin as [Hin|Hin]; [discriminate Hin|]).
  exact Hin.
Qed.

(** C8 (amended). [to_dict] writes exactly the base fields [id], [name],
    [node_name], [roi_type], [x], [y], [width], [height], [center]; for
    [roi_type = "image"] also [image_name] and [image_action]; for any other
    [roi_type] also [action], followed for [action = "click"] by
    [click_mode], [click_count], [click_interval] and for [action = "swipe"]
    by [swipe_direction], [swipe_speed].  The fields are distinct, appear in
    this order, and carry the values of the attributes of the same name. *)
Theorem to_dict_written_fields (r : ROI) :
  dict_keys (Roi.to_dict r) = Roi.written_fields r
  /\ NoDup (dict_keys (Roi.to_dict r))
  /\ dict_get "id" (Roi.to_dict r) = Some (VStr (Roi.roi_id r))
  /\ dict_get "x" (Roi.to_dict r) = Some (VInt (Roi.x r))
  /\ dict_get "y" (Roi.to_dict r) = Some (VInt (Roi.y r))
  /\ dict_get "width" (Roi.to_dict r) = Some (VInt (Roi.width r))
  /\ dict_get "height" (Roi.to_dict r) = Some (VInt (Roi.height r))
  /\ dict_get "center" (Roi.to_dict r)
     = Some (VTuple (Roi.x r + Roi.width r / 2) (Roi.y r + Roi.height r / 2))
  /\ (Roi.roi_type r <> "image"%string -> Roi.action r = "click"%string ->
      dict_get "click_interval" (Roi.to_dict r) = Some (VInt (Roi.click_interval r))
      /\ dict_get "click_interval_ms" (Roi.to_dict r) = None)
  /\ (Roi.roi_type r <> "image"%string -> Roi.action r = "swipe"%string ->
      dict_get "swipe_speed" (Roi.to_dict r) = Some (VInt (Roi.swipe_speed r))
      /\ dict_get "swipe_speed_px_s" (Roi.to_dict r) = None).
Proof.
  unfold Roi.to_dict, Roi.written_fields.
  destruct (String.eqb_spec (Roi.roi_type r) "image") as [Ht|Ht].
  - repeat split; try reflexivity; try congruence.
    cbn. repeat constructor; cbn; intuition discriminate.
  - destruct (String.eqb_spec (Roi.action r) "click") as [Ha|Ha];
      [|destruct (String.eqb_spec (Roi.action r) "swipe") as [Hs|Hs]].
    + repeat split; try reflexivity; try congruence.
      cbn. repeat constructor; cbn; intuition discriminate.
    + repeat split; try reflexivity; try congruence.
      cbn. repeat constructor; cbn; intuition discriminate.
    + repeat split; try reflexivity; try congruence.
      cbn. repeat constructor; cbn; intuition discriminate.
Qed.

Lemma to_dict_written_fields_witness :
  dict_get "click_interval" (Roi.to_dict Roi.click_region) = Some (VInt 500)
  /\ dict_get "click_interval_ms" (Roi.to_dict Roi.click_region) = None.
Proof.
  refine (proj1 (proj2 (proj2 (proj2 (proj2 (proj2 (proj2 (proj2 (proj2
            (to_dict_written_fields Roi.click_region))))))))) _ _).
  - discriminate.
  - reflexivity.
Defined.

(** ** Circle detection *)

(** C5 (evaluation at the failing input).  A Hough hit centred 3 pixels from
    the left edge with radius 10, on a 100 x 100 pixmap: [center_x - radius]
    is computed on [uint16] scalars and wraps to 65529, so the clamp
    [max(0, ...)] keeps a left edge of 65527 under either promotion rule and
    the bbox violates the image bounds. *)
Theorem detect_circles_edge_hit_escapes (p : Numpy.promotion) :
  exists roi,
    Detector.detect_circles p Detector.pixmap_100 Detector.no_ids (Some [(3, 50, 10)])
      = Returned [roi]
    /\ Roi.x roi = 65527
    /\ ~ Detector.bbox_in_image Detector.pixmap_100 roi.
Proof.
  destruct p; eexists; (split; [vm_compute; reflexivity|]);
    (split; [reflexivity|]);
    unfold Detector.bbox_in_image; cbn; lia.
Qed.

(** ** Colour flood, [merge_all] branch *)

Section FloodFacts.
Import Detector.

Lemma fold_min_spec (l : list Z) (a : Z) :
  fold_left Z.min l a <= a
  /\ Forall (fun v => fold_left Z.min l a <= v) l
  /\ (fold_left Z.min l a = a \/ In (fold_left Z.min l a) l).
Proof.
  revert a. induction l as [|v l IH]; intros a; cbn.
  - repeat split; [lia | constructor | left; reflexivity].
  - destruct (IH (Z.min a v)) as (Hle & Hall & Hat).
    repeat split.
    + lia.
    + constructor; [lia | exact Hall].
    + destruct Hat as [Heq|Hin]; [|right; right; exact Hin].
      destruct (Z.min_spec a v) as [[_ Hm]|[_ Hm]].
      * left; congruence.
      * right; left; congruence.
Qed.

Lemma fold_max_spec (l : list Z) (a : Z) :
  a <= fold_left Z.max l a
  /\ Forall (fun v => v <= fold_left Z.max l a) l
  /\ (fold_left Z.max l a = a \/ In (fold_left Z.max l a) l).
Proof.
  revert a. induction l as [|v l IH]; intros a; cbn.
  - repeat split; [lia | constructor | left; reflexivity].
  - destruct (IH (Z.max a v)) as (Hle & Hall & Hat).
    repeat split.
    + lia.
    + constructor; [lia | exact Hall].
    + destruct Hat as [Heq|Hin]; [|right; right; exact Hin].
      destruct (Z.max_spec a v) as [[_ Hm]|[_ Hm]].
      * right; left; congruence.
      * left; congruence.
Qed.



End FloodFacts.

Section FloodMerge.
Import Detector.




End FloodMerge.




(** ** Blobs of a binary mask *)

Section CvFacts.
Import Cv.

Lemma filter_split_perm {A : Type} (f : A -> bool) (l : list A) :
  Permutation (filter f l ++ filter (fun a => negb (f a)) l) l.
Proof.
  induction l as [|a l IH]; cbn.
  - apply perm_nil.
  - destruct (f a); cbn.
    + apply perm_skip, IH.
    + apply Permutation_sym, Permutation_cons_app, Permutation_sym, IH.
Qed.

(** Flooding loses no pixel and invents none, whatever the fuel. *)
Lemma flood_perm (fuel : nat) (frontier rest : list point) :
  Permutation (fst (flood fuel frontier rest) ++ snd (flood fuel frontier rest))
              (frontier ++ rest).
Proof.
  revert frontier rest. induction fuel as [|fuel IH]; intros frontier rest; cbn.
  - apply Permutation_refl.
  - destruct frontier as [|p frontier']; [apply Permutation_refl|].
    specialize (IH (frontier' ++ filter (adjacent8 p) rest)
                   (filter (fun q => negb (adjacent8 p q)) rest)).
    destruct (flood fuel (frontier' ++ filter (adjacent8 p) rest)
                (filter (fun q => negb (adjacent8 p q)) rest)) as [component rest'].
    cbn in *. apply perm_skip.
    eapply perm_trans; [exact IH|].
    rewrite <- app_assoc. apply Permutation_app_head, filter_split_perm.
Qed.

Lemma flood_seed (fuel : nat) (p : point) (frontier rest : list point) :
  exists component,
    fst (flood (S fuel) (p :: frontier) rest) = p :: component.
Proof.
  cbn. destruct (flood fuel _ _) as [component rest']. exists component. reflexivity.
Qed.

Lemma components_perm (fuel : nat) (pts : list point) :
  (List.length pts <= fuel)%nat ->
  Permutation (List.concat (components fuel pts)) pts.
Proof.
  revert pts. induction fuel as [|fuel IH]; intros pts Hlen.
  - destruct pts; [apply perm_nil | cbn in Hlen; lia].
  - destruct pts as [|p rest]; [apply perm_nil|].
    cbn [components].
    pose proof (flood_perm (S (List.length rest)) [p] rest) as Hperm.
    destruct (flood_seed (List.length rest) p [] rest) as (component & Hseed).
    destruct (flood (S (List.length rest)) [p] rest) as [comp rest'].
    cbn [fst snd] in *. subst comp. cbn [List.concat].
    assert (Hshorter : (List.length rest' <= fuel)%nat).
    { apply Permutation_length in Hperm.
      cbn in Hperm, Hlen. rewrite length_app in Hperm. lia. }
    eapply perm_trans; [|exact Hperm].
    apply Permutation_app_head, IH, Hshorter.
Qed.

Lemma components_nonempty (fuel : nat) (pts : list point) (c : contour) :
  In c (components fuel pts) -> c <> [].
Proof.
  revert pts. induction fuel as [|fuel IH]; intros pts; cbn [components].
  - intros [].
  - destruct pts as [|p rest]; [intros []|].
    destruct (flood_seed (List.length rest) p [] rest) as (component & Hseed).
    destruct (flood (S (List.length rest)) [p] rest) as [comp rest'].
    cbn [fst] in Hseed. subst comp.
    intros [<-|Hin]; [discriminate | exact (IH _ Hin)].
Qed.

(** Every non-zero pixel lies on exactly the contours found, and only
    non-zero pixels do. *)
Lemma findContours_covers (m : raster) (p : point) :
  In p (nonzero m) <-> exists c, In c (findContours m) /\ In p c.
Proof.
  unfold findContours.
  pose proof (components_perm (List.length (nonzero m)) (nonzero m) (le_n _)) as Hperm.
  split.
  - intros Hin. apply (Permutation_in _ (Permutation_sym Hperm)) in Hin.
    apply in_concat in Hin. exact Hin.
  - intros Hex. apply (Permutation_in _ Hperm). apply in_concat. exact Hex.
Qed.

Lemma findContours_nonempty (m : raster) :
  nonzero m <> [] -> findContours m <> [].
Proof.
  unfold findContours. destruct (nonzero m) as [|p rest]; [congruence|].
  intros _. cbn. destruct (flood _ _ _). discriminate.
Qed.

Lemma findContours_contour_nonempty (m : raster) (c : contour) :
  In c (findContours m) -> c <> [].
Proof. apply components_nonempty. Qed.

(** The bounding rectangle holds every point of the contour and touches
    it on all four sides. *)
Lemma boundingRect_has (c : contour) (p : point) :
  In p c -> rect_has (boundingRect c) p.
Proof.
  destruct c as [|[x0 y0] rest]; [contradiction|].
  intros Hin. unfold boundingRect, rect_has.
  destruct (fold_min_spec (map fst rest) x0) as (Hx1 & Hx1all & _).
  destruct (fold_min_spec (map snd rest) y0) as (Hy1 & Hy1all & _).
  destruct (fold_max_spec (map fst rest) x0) as (Hx2 & Hx2all & _).
  destruct (fold_max_spec (map snd rest) y0) as (Hy2 & Hy2all & _).
  rewrite Forall_forall in Hx1all, Hy1all, Hx2all, Hy2all.
  destruct Hin as [<-|Hin]; cbn [fst snd].
  - lia.
  - pose proof (Hx1all _ (in_map fst _ _ Hin)).
    pose proof (Hy1all _ (in_map snd _ _ Hin)).
    pose proof (Hx2all _ (in_map fst _ _ Hin)).
    pose proof (Hy2all _ (in_map snd _ _ Hin)).
    lia.
Qed.

Lemma boundingRect_tight (c : contour) (rect : Z * Z * Z * Z) :
  c <> [] -> (forall p, In p c -> rect_has rect p) ->
  rect_within (boundingRect c) rect.
Proof.
  destruct c as [|[x0 y0] rest]; [congruence|]. intros _ Hall.
  destruct rect as [[[X Y] W] H].
  unfold boundingRect, rect_within.
  assert (Hpt : forall v, (v = x0 \/ In v (map fst rest)) -> X <= v < X + W).
  { intros v [->|Hv].
    - exact (proj1 (Hall (x0, y0) (or_introl eq_refl))).
    - apply in_map_iff in Hv. destruct Hv as (q & <- & Hq).
      exact (proj1 (Hall q (or_intror Hq))). }
  assert (Hpy : forall v, (v = y0 \/ In v (map snd rest)) -> Y <= v < Y + H).
  { intros v [->|Hv].
    - exact (proj2 (Hall (x0, y0) (or_introl eq_refl))).
    - apply in_map_iff in Hv. destruct Hv as (q & <- & Hq).
      exact (proj2 (Hall q (or_intror Hq))). }
  destruct (fold_min_spec (map fst rest) x0) as (_ & _ & Hx1).
  destruct (fold_min_spec (map snd rest) y0) as (_ & _ & Hy1).
  destruct (fold_max_spec (map fst rest) x0) as (_ & _ & Hx2).
  destruct (fold_max_spec (map snd rest) y0) as (_ & _ & Hy2).
  pose proof (Hpt _ Hx1). pose proof (Hpt _ Hx2).
  pose proof (Hpy _ Hy1). pose proof (Hpy _ Hy2).
  lia.
Qed.

End CvFacts.

(** ** Label rasters and their masks *)

Section LabelFacts.
Import Cv Superpixel.

Lemma row_nonzero_In (x0 y0 : Z) (row : list Z) (p : point) :
  In p (row_nonzero x0 y0 row) <->
  snd p = y0 /\ exists n v, fst p = x0 + Z.of_nat n
                            /\ nth_error row n = Some v /\ v <> 0.
Proof.
  revert x0. induction row as [|u row IH]; intros x0; cbn [row_nonzero].
  - split; [intros [] | intros (_ & n & v & _ & Hn & _); destruct n; discriminate].
  - assert (Hrest : In p (row_nonzero (x0 + 1) y0 row) <->
                    snd p = y0 /\ exists n v, fst p = x0 + Z.of_nat (S n)
                                              /\ nth_error row n = Some v /\ v <> 0).
    { rewrite IH. split; intros (Hy & n & v & Hx & Hn & Hv);
        (split; [exact Hy|]); exists n, v; repeat split; try assumption; lia. }
    destruct (Z.eqb_spec u 0) as [Hz|Hnz].
    + rewrite Hrest. split.
      * intros (Hy & n & v & Hx & Hn & Hv). split; [exact Hy|].
        exists (S n), v. repeat split; assumption.
      * intros (Hy & n & v & Hx & Hn & Hv). split; [exact Hy|].
        destruct n as [|n]; [cbn in Hn; congruence|].
        exists n, v. repeat split; assumption.
    + cbn [In]. rewrite Hrest. split.
      * intros [<-|(Hy & n & v & Hx & Hn & Hv)].
        -- split; [reflexivity|]. exists O, u. cbn. repeat split; [lia | exact Hnz].
        -- split; [exact Hy|]. exists (S n), v. repeat split; assumption.
      * intros (Hy & n & v & Hx & Hn & Hv).
        destruct n as [|n].
        -- left. destruct p as [px py]. cbn in *. f_equal; lia.
        -- right. split; [exact Hy|]. exists n, v. repeat split; assumption.
Qed.

Lemma nonzero_from_In (y0 : Z) (m : raster) (p : point) :
  In p (nonzero_from y0 m) <->
  exists nx ny v, fst p = Z.of_nat nx /\ snd p = y0 + Z.of_nat ny
                  /\ pixel m nx ny = Some v /\ v <> 0.
Proof.
  revert y0. induction m as [|row m IH]; intros y0; cbn [nonzero_from].
  - split; [intros [] |].
    intros (nx & ny & v & _ & _ & Hp & _). unfold pixel in Hp.
    destruct ny; discriminate.
  - rewrite in_app_iff, row_nonzero_In, IH. split.
    + intros [(Hy & n & v & Hx & Hn & Hv)|(nx & ny & v & Hx & Hy & Hp & Hv)].
      * exists n, O, v. unfold pixel. cbn. repeat split; try assumption; lia.
      * exists nx, (S ny), v. unfold pixel in *. cbn.
        repeat split; try assumption; lia.
    + intros (nx & ny & v & Hx & Hy & Hp & Hv). destruct ny as [|ny].
      * left. split; [lia|]. exists nx, v. unfold pixel in Hp. cbn in Hp.
        repeat split; try assumption; lia.
      * right. exists nx, ny, v. unfold pixel in *. cbn in Hp.
        repeat split; try assumption; lia.
Qed.

Lemma nonzero_In (m : raster) (p : point) :
  In p (nonzero m) <->
  exists nx ny v, fst p = Z.of_nat nx /\ snd p = Z.of_nat ny
                  /\ pixel m nx ny = Some v /\ v <> 0.
Proof. unfold nonzero. rewrite nonzero_from_In. reflexivity. Qed.

Lemma label_mask_pixel (labels : raster) (l : Z) (nx ny : nat) (v : Z) :
  pixel (label_mask labels l) nx ny = Some v /\ v <> 0 <->
  pixel labels nx ny = Some l /\ v = 255.
Proof.
  unfold pixel, label_mask. rewrite nth_error_map.
  destruct (nth_error labels ny) as [row|]; cbn; [|split; intros [? ?]; discriminate].
  rewrite nth_error_map.
  destruct (nth_error row nx) as [u|]; cbn; [|split; intros [? ?]; discriminate].
  destruct (Z.eqb_spec u l) as [->|Hne]; split.
  - intros [[= <-] _]. split; reflexivity.
  - intros [_ ->]. split; [reflexivity | discriminate].
  - intros [[= <-] Hv]. contradiction.
  - intros [[= Hul] _]. contradiction.
Qed.

(** Masks cut from one raster for different labels share no pixel. *)
Lemma label_masks_disjoint (labels : raster) (l1 l2 : Z) :
  l1 <> l2 -> masks_disjoint (label_mask labels l1) (label_mask labels l2).
Proof.
  intros Hne p H1 H2.
  apply nonzero_In in H1. destruct H1 as (nx & ny & v & Hx & Hy & Hp).
  apply nonzero_In in H2. destruct H2 as (nx' & ny' & v' & Hx' & Hy' & Hp').
  assert (nx' = nx) by lia. assert (ny' = ny) by lia. subst nx' ny'.
  apply label_mask_pixel in Hp. apply label_mask_pixel in Hp'.
  destruct Hp as [Hp _]. destruct Hp' as [Hp' _]. congruence.
Qed.

(** The mask of a label has as many pixels as the raster has that label. *)
Lemma row_nonzero_count (x0 y0 l : Z) (row : list Z) :
  List.length (row_nonzero x0 y0 (map (fun v => if v =? l then 255 else 0) row))
  = count_occ Z.eq_dec row l.
Proof.
  revert x0. induction row as [|u row IH]; intros x0; cbn; [reflexivity|].
  destruct (Z.eqb_spec u l) as [->|Hne]; cbn.
  - destruct (Z.eq_dec l l); [|contradiction]. rewrite IH. reflexivity.
  - destruct (Z.eq_dec u l); [contradiction|]. apply IH.
Qed.

Lemma label_mask_count (labels : raster) (l : Z) :
  countNonZero (label_mask labels l)
  = Z.of_nat (count_occ Z.eq_dec (List.concat labels) l).
Proof.
  unfold countNonZero, nonzero. f_equal. generalize 0 as y0.
  induction labels as [|row labels IH]; intros y0; cbn; [reflexivity|].
  rewrite length_app, count_occ_app, row_nonzero_count, IH. reflexivity.
Qed.

Lemma label_mask_nonzero (labels : raster) (l : Z) :
  In l (List.concat labels) -> nonzero (label_mask labels l) <> [].
Proof.
  intros Hin Hnil.
  apply (count_occ_In Z.eq_dec) in Hin.
  pose proof (label_mask_count labels l) as Hc.
  unfold countNonZero in Hc. rewrite Hnil in Hc. cbn in Hc. lia.
Qed.

Lemma has_shape_size (h w : Z) (m : raster) :
  has_shape h w m -> Z.of_nat (List.length (List.concat m)) = h * w.
Proof.
  intros [Hh Hw]. subst h. induction m as [|row m IH]; cbn -[Z.of_nat]; [reflexivity|].
  inversion Hw as [|? ? Hrow Hrest]; subst.
  rewrite length_app, Nat2Z.inj_add, (IH Hrest). lia.
Qed.

(** [np.unique] *)
Lemma insert_unique_In (v x : Z) (l : list Z) :
  In x (insert_unique v l) <-> x = v \/ In x l.
Proof.
  induction l as [|u l IH]; cbn.
  - intuition.
  - destruct (Z.ltb_spec v u); [cbn; intuition|].
    destruct (Z.eqb_spec v u) as [->|Hne]; cbn; [intuition|].
    rewrite IH. intuition.
Qed.

Lemma insert_unique_sorted (v : Z) (l : list Z) :
  StronglySorted Z.lt l -> StronglySorted Z.lt (insert_unique v l).
Proof.
  induction l as [|u l IH]; intros Hs; cbn.
  - constructor; constructor.
  - inversion Hs as [|? ? Hl Hu]; subst.
    destruct (Z.ltb_spec v u) as [Hlt|Hge].
    + constructor; [exact Hs|]. constructor; [exact Hlt|].
      eapply Forall_impl; [|exact Hu]. intros c Hc. lia.
    + destruct (Z.eqb_spec v u) as [->|Hne]; [exact Hs|].
      constructor; [apply IH, Hl|].
      apply Forall_forall. intros c Hc. apply insert_unique_In in Hc.
      destruct Hc as [->|Hc]; [lia|].
      rewrite Forall_forall in Hu. apply Hu, Hc.
Qed.

Lemma sorted_lt_NoDup (l : list Z) : StronglySorted Z.lt l -> NoDup l.
Proof.
  induction 1 as [|a l Hs IH Hall]; constructor; [|exact IH].
  intros Hin. rewrite Forall_forall in Hall. specialize (Hall a Hin). lia.
Qed.

Lemma np_unique_spec (m : raster) :
  NoDup (np_unique m) /\ forall x, In x (np_unique m) <-> In x (List.concat m).
Proof.
  unfold np_unique. split.
  - apply sorted_lt_NoDup.
    induction (List.concat m) as [|v l IH]; cbn; [constructor|].
    apply insert_unique_sorted, IH.
  - intros x. induction (List.concat m) as [|v l IH]; cbn; [reflexivity|].
    rewrite insert_unique_In, IH. intuition.
Qed.

(** Counting a list value by value over a duplicate-free cover counts every
    element once. *)
Lemma count_by_value (us l : list Z) :
  NoDup us -> (forall x, In x l -> In x us) ->
  fold_right Z.add 0 (map (fun u => Z.of_nat (count_occ Z.eq_dec l u)) us)
  = Z.of_nat (List.length l).
Proof.
  intros Hnd. induction l as [|a l IH]; intros Hcover.
  - cbn. clear Hnd Hcover. induction us as [|u us IHus]; cbn; [reflexivity|].
    exact IHus.
  - assert (Hone : forall vs, NoDup vs ->
              fold_right Z.add 0 (map (fun u => Z.of_nat (count_occ Z.eq_dec (a :: l) u)) vs)
              = fold_right Z.add 0 (map (fun u => Z.of_nat (count_occ Z.eq_dec l u)) vs)
                + (if in_dec Z.eq_dec a vs then 1 else 0)).
    { induction vs as [|u vs IHvs]; intros Hvs; [reflexivity|].
      inversion Hvs as [|? ? Hnotin Hvs']; subst.
      cbn [map fold_right]. rewrite (IHvs Hvs').
      cbn [count_occ].
      destruct (Z.eq_dec a u) as [->|Hne].
      - destruct (in_dec Z.eq_dec u vs) as [Hin|_]; [contradiction|].
        destruct (in_dec Z.eq_dec u (u :: vs)) as [_|Hout];
          [|exfalso; apply Hout; left; reflexivity].
        lia.
      - destruct (in_dec Z.eq_dec a vs) as [Hin|Hout];
          destruct (in_dec Z.eq_dec a (u :: vs)) as [Hin'|Hout']; try lia.
        + exfalso. apply Hout'. right. exact Hin.
        + exfalso. destruct Hin' as [Heq|Hin']; [congruence | contradiction]. }
    rewrite (Hone us Hnd), IH by (intros x Hx; apply Hcover; right; exact Hx).
    destruct (in_dec Z.eq_dec a us) as [_|Hout].
    + cbn [List.length]. lia.
    + exfalso. apply Hout, Hcover. left. reflexivity.
Qed.

End LabelFacts.

(** ** Regions of a segmentation run *)

Section EngineFacts.
Import Cv Superpixel.
Variable contourArea : Cv.contour -> Q.
Variable moments : Cv.contour -> Q * Q * Q.
Variable mean_color : Cv.raster -> Q * Q * Q.

Lemma py_max_by_In {A : Type} (key : A -> Q) (best : A) (l : list A) :
  In (py_max_by key best l) (best :: l).
Proof.
  revert best. induction l as [|a l IH]; intros best; cbn [py_max_by].
  - left; reflexivity.
  - destruct (Qle_bool (key a) (key best)).
    + destruct (IH best) as [Heq|Hin]; [left; exact Heq | right; right; exact Hin].
    + right. exact (IH a).
Qed.

Lemma extract_region_some (labels : raster) (l : Z) :
  In l (List.concat labels) -> 0 <= l ->
  exists r,
    extract_region contourArea moments mean_color labels l = Some r
    /\ label r = l /\ mask r = label_mask labels l /\ region_wf r.
Proof.
  intros Hin Hpos. unfold extract_region.
  destruct (Z.ltb_spec l 0); [lia|].
  pose proof (findContours_nonempty _ (label_mask_nonzero labels l Hin)) as Hne.
  destruct (findContours (label_mask labels l)) as [|first others] eqn:Hfc;
    [congruence|].
  pose proof (py_max_by_In contourArea first others) as Hbest.
  set (best := py_max_by contourArea first others) in *.
  destruct (boundingRect best) as [[[x y] w] h] eqn:Hrect.
  destruct (moments best) as [[m00 m10] m01].
  destruct (if Qle_bool m00 0 then (x + w / 2, y + h / 2)
            else (py_int (m10 / m00), py_int (m01 / m00))) as [cx cy].
  eexists. split; [reflexivity|].
  unfold region_wf. cbn [label mask Superpixel.contour bbox].
  rewrite Hfc. repeat split; [exact Hbest | congruence].
Qed.

Lemma collect_labels (labels : raster) (us : list Z) :
  Forall (fun u => In u (List.concat labels) /\ 0 <= u) us ->
  let rs := collect (extract_region contourArea moments mean_color labels) us in
  map label rs = us
  /\ Forall (fun r => mask r = label_mask labels (label r) /\ region_wf r) rs.
Proof.
  induction 1 as [|u us [Hin Hpos] _ IH]; cbn [collect].
  - split; [reflexivity | constructor].
  - destruct (extract_region_some labels u Hin Hpos) as (r & -> & Hl & Hm & Hwf).
    cbv zeta in IH. destruct IH as [IHl IHm]. cbn [map]. split.
    + rewrite Hl, IHl. reflexivity.
    + constructor; [|exact IHm]. rewrite Hl. split; assumption.
Qed.

Lemma sum_perm (l l' : list Z) :
  Permutation l l' -> fold_right Z.add 0 l = fold_right Z.add 0 l'.
Proof.
  induction 1; cbn; lia.
Qed.

Lemma distinct_labels_disjoint (labels : raster) (rs : list SuperpixelRegion) :
  NoDup (map label rs) ->
  Forall (fun r => mask r = label_mask labels (label r)) rs ->
  pairwise_disjoint rs.
Proof.
  intros Hnd Hmask i j ri rj Hij Hi Hj.
  rewrite Forall_forall in Hmask.
  rewrite (Hmask ri (nth_error_In _ _ Hi)), (Hmask rj (nth_error_In _ _ Hj)).
  apply label_masks_disjoint. intros Heq. apply Hij.
  rewrite NoDup_nth_error in Hnd. apply Hnd.
  - rewrite length_map. apply nth_error_Some. congruence.
  - rewrite !nth_error_map, Hi, Hj. cbn. congruence.
Qed.

(** The regions cut from a raster of non-negative labels tile it. *)
Lemma extract_regions_partition (h w : Z) (labels : raster) :
  has_shape h w labels -> Forall (Forall (fun v => 0 <= v)) labels ->
  let rs := _extract_regions contourArea moments mean_color labels in
  pairwise_disjoint rs
  /\ mask_pixel_total rs = h * w
  /\ Forall region_wf rs.
Proof.
  intros Hshape Hpos rs.
  destruct (np_unique_spec labels) as [Hnd Hin].
  assert (Hus : Forall (fun u => In u (List.concat labels) /\ 0 <= u) (np_unique labels)).
  { apply Forall_forall. intros u Hu. apply Hin in Hu. split; [exact Hu|].
    apply in_concat in Hu. destruct Hu as (row & Hrow & Hu).
    rewrite Forall_forall in Hpos. specialize (Hpos row Hrow).
    rewrite Forall_forall in Hpos. exact (Hpos u Hu). }
  destruct (collect_labels labels (np_unique labels) Hus) as [Hlab Hmask].
  set (cs := collect (extract_region contourArea moments mean_color labels)
               (np_unique labels)) in *.
  assert (Hperm : Permutation rs cs) by apply py_sorted_reverse_perm.
  assert (Hall : Forall (fun r => mask r = label_mask labels (label r) /\ region_wf r) rs).
  { eapply Permutation_Forall; [apply Permutation_sym, Hperm | exact Hmask]. }
  split; [|split].
  - apply (distinct_labels_disjoint labels).
    + eapply Permutation_NoDup.
      * apply Permutation_map, Permutation_sym, Hperm.
      * rewrite Hlab. exact Hnd.
    + eapply Forall_impl; [|exact Hall]. intros r [Hr _]. exact Hr.
  - unfold mask_pixel_total.
    rewrite (sum_perm _ _ (Permutation_map (fun r => countNonZero (mask r)) Hperm)).
    rewrite <- (has_shape_size h w labels Hshape).
    rewrite <- (count_by_value (np_unique labels) (List.concat labels) Hnd)
      by (intros x Hx; apply Hin; exact Hx).
    rewrite <- Hlab, map_map. f_equal.
    apply map_ext_in. intros r Hr.
    rewrite Forall_forall in Hmask. destruct (Hmask r Hr) as [-> _].
    apply label_mask_count.
  - eapply Forall_impl; [|exact Hall]. intros r [_ Hr]. exact Hr.
Qed.

End EngineFacts.

(** C2. On a non-null pixmap of width [w] and height [h], with the SLIC
    backends delivering what they document (a label raster of the image's
    shape with labels from 0, or an exception), whenever [segment] returns a
    region list the masks of the returned regions are pairwise disjoint and
    their pixel counts add up to [w * h].  It returns exactly when [w] is a
    multiple of 4 and one of the backends returns: for any other width the
    conversion of the pixmap raises [ValueError], and when both backends
    raise the exception of the second one leaves [segment]. *)
Theorem segment_partition
    (contourArea : Cv.contour -> Q) (moments : Cv.contour -> Q * Q * Q)
    (mean_color : Cv.raster -> Q * Q * Q)
    (_segment_skimage _segment_opencv : Z * Z -> outcome (option Cv.raster))
    (self : Superpixel.SuperpixelSegmenter) (pixmap : Qt.QPixmap) :
  Qt.isNull pixmap = false -> Qt.height pixmap <> 0 ->
  Superpixel.backend_contract (Qt.height pixmap, Qt.width pixmap) _segment_skimage ->
  Superpixel.backend_contract (Qt.height pixmap, Qt.width pixmap) _segment_opencv ->
  match snd (Superpixel.segment contourArea moments mean_color
               _segment_skimage _segment_opencv self pixmap) with
  | Returned regions =>
      Qt.width pixmap mod 4 = 0
      /\ Superpixel.pairwise_disjoint regions
      /\ Superpixel.mask_pixel_total regions = Qt.width pixmap * Qt.height pixmap
  | Raised e =>
      (Qt.width pixmap mod 4 <> 0 /\ e = "ValueError"%string)
      \/ (Qt.width pixmap mod 4 = 0
          /\ raises (_segment_skimage (Qt.height pixmap, Qt.width pixmap))
          /\ _segment_opencv (Qt.height pixmap, Qt.width pixmap) = Raised e)
  end.
Proof.
  intros Hnull Hheight Hsk Hcv.
  unfold Superpixel.segment.
  destruct (Z.eq_dec (Qt.width pixmap mod 4) 0) as [Hw|Hw].
  2:{ rewrite (qpixmap_padded pixmap Hnull Hheight Hw). cbn [snd].
      left. split; [exact Hw | reflexivity]. }
  rewrite (qpixmap_aligned pixmap Hnull Hw).
  unfold Superpixel.backend_contract in *. cbn [fst snd] in *.
  destruct (_segment_skimage (Qt.height pixmap, Qt.width pixmap)) as [[l|]|e] eqn:Esk.
  - cbn [snd]. destruct Hsk as [Hshape Hpos].
    destruct (extract_regions_partition contourArea moments mean_color _ _ l Hshape Hpos)
      as (Hd & Ht & _).
    split; [exact Hw|]. split; [exact Hd | rewrite Ht; apply Z.mul_comm].
  - contradiction.
  - destruct (_segment_opencv (Qt.height pixmap, Qt.width pixmap)) as [[l|]|e'] eqn:Ecv.
    + cbn [snd]. destruct Hcv as [Hshape Hpos].
      destruct (extract_regions_partition contourArea moments mean_color _ _ l Hshape Hpos)
        as (Hd & Ht & _).
      split; [exact Hw|]. split; [exact Hd | rewrite Ht; apply Z.mul_comm].
    + contradiction.
    + cbn [snd]. right. split; [exact Hw|]. split; [exact I | reflexivity].
Qed.

Lemma segment_partition_witness :
  match snd (Superpixel.segment Superpixel.pixel_count_area Superpixel.no_moments
               Superpixel.grey Superpixel.failing_backend Superpixel.two_cells
               Superpixel.new_segmenter Superpixel.pixmap_2x4) with
  | Returned regions =>
      4 mod 4 = 0
      /\ Superpixel.pairwise_disjoint regions
      /\ Superpixel.mask_pixel_total regions = 4 * 2
  | Raised e =>
      (4 mod 4 <> 0 /\ e = "ValueError"%string)
      \/ (4 mod 4 = 0
          /\ raises (Superpixel.failing_backend (2, 4))
          /\ Superpixel.two_cells (2, 4) = Raised e)
  end.
Proof.
  assert (Hnull : Qt.isNull Superpixel.pixmap_2x4 = false) by reflexivity.
  assert (Hheight : Qt.height Superpixel.pixmap_2x4 <> 0) by discriminate.
  assert (Hsk : Superpixel.backend_contract (2, 4) Superpixel.failing_backend)
    by exact I.
  assert (Hcv : Superpixel.backend_contract (2, 4) Superpixel.two_cells)
    by (unfold Superpixel.backend_contract, Cv.has_shape; cbn;
        repeat match goal with
               | |- Forall _ [] => apply Forall_nil
               | |- Forall _ (_ :: _) => apply Forall_cons
               | |- _ /\ _ => split
               | |- _ = _ => reflexivity
               | |- _ <= _ => lia
               end).
  exact (segment_partition Superpixel.pixel_count_area Superpixel.no_moments
           Superpixel.grey Superpixel.failing_backend Superpixel.two_cells
           Superpixel.new_segmenter Superpixel.pixmap_2x4 Hnull Hheight Hsk Hcv).
Defined.

(** ** Merging regions *)

Section MergeRegionFacts.
Import Cv Superpixel.
Variable contourArea : Cv.contour -> Q.

Lemma py_max_by_max {A : Type} (key : A -> Q) (best : A) (l : list A) :
  Forall (fun a => (key a <= key (py_max_by key best l))%Q) (best :: l).
Proof.
  revert best. induction l as [|a l IH]; intros best; cbn [py_max_by].
  - constructor; [apply Qle_refl | constructor].
  - destruct (Qle_bool (key a) (key best)) eqn:Hle.
    + specialize (IH best). inversion IH as [|? ? Hb Hl]; subst.
      constructor; [exact Hb|]. constructor; [|exact Hl].
      apply Qle_bool_iff in Hle. eapply Qle_trans; [exact Hle | exact Hb].
    + specialize (IH a). inversion IH as [|? ? Ha Hl]; subst.
      constructor; [|constructor; [exact Ha | exact Hl]].
      eapply Qle_trans; [|exact Ha].
      apply Qlt_le_weak, Qnot_le_lt. intros Hc.
      apply Qle_bool_iff in Hc. congruence.
Qed.

Lemma same_shape_rows (a b : raster) (ny : nat) (rb : list Z) :
  same_shape a b = true -> nth_error b ny = Some rb ->
  exists ra, nth_error a ny = Some ra /\ List.length ra = List.length rb.
Proof.
  unfold same_shape. intros Hs Hb.
  apply andb_prop in Hs. destruct Hs as [Hlen Hrows].
  apply Nat.eqb_eq in Hlen.
  assert (Hlt : (ny < List.length a)%nat).
  { rewrite Hlen. apply nth_error_Some. congruence. }
  destruct (nth_error a ny) as [ra|] eqn:Ha;
    [|apply nth_error_None in Ha; lia].
  exists ra. split; [reflexivity|].
  rewrite forallb_forall in Hrows.
  assert (Hin : In (ra, rb) (combine a b)).
  { clear Hrows Hlen Hlt. revert b ny Ha Hb.
    induction a as [|r a IH]; intros b ny Ha Hb; [destruct ny; discriminate|].
    destruct b as [|r' b]; [destruct ny; discriminate|].
    destruct ny as [|ny]; cbn in *.
    - left. congruence.
    - right. exact (IH b ny Ha Hb). }
  specialize (Hrows _ Hin). cbn in Hrows. apply Nat.eqb_eq. exact Hrows.
Qed.

Lemma same_shape_pixel (a b : raster) (nx ny : nat) (v : Z) :
  same_shape a b = true -> pixel b nx ny = Some v ->
  exists u, pixel a nx ny = Some u.
Proof.
  unfold pixel. intros Hs Hb.
  destruct (nth_error b ny) as [rb|] eqn:Hrb; [|discriminate].
  destruct (same_shape_rows a b ny rb Hs Hrb) as (ra & -> & Hlen).
  destruct (nth_error ra nx) as [u|] eqn:Hu; [exists u; reflexivity|].
  apply nth_error_None in Hu.
  assert (nx < List.length rb)%nat by (apply nth_error_Some; congruence).
  lia.
Qed.

Lemma same_shape_sym (a b : raster) :
  same_shape a b = true -> same_shape b a = true.
Proof.
  unfold same_shape. revert b. induction a as [|ra a IH]; intros [|rb b]; cbn;
    try discriminate; [reflexivity|].
  intros Hs. apply andb_prop in Hs. destruct Hs as [Hlen Hrows].
  apply andb_prop in Hrows. destruct Hrows as [Hrow Hrows].
  specialize (IH b). cbn in IH.
  rewrite Hlen, Hrows in IH. cbn in IH. specialize (IH eq_refl).
  apply andb_prop in IH. destruct IH as [Hlen' Hrows'].
  rewrite Hlen', Hrows'. rewrite Nat.eqb_sym, Hrow. reflexivity.
Qed.

Lemma combine_nth {A B : Type} (l : list A) (l' : list B) (n : nat) (a : A) (b : B) :
  nth_error l n = Some a -> nth_error l' n = Some b ->
  nth_error (combine l l') n = Some (a, b).
Proof.
  revert l' n. induction l as [|x l IH]; intros l' n Ha Hb; [destruct n; discriminate|].
  destruct l' as [|y l']; [destruct n; discriminate|].
  destruct n as [|n]; cbn in *; [congruence | exact (IH l' n Ha Hb)].
Qed.

Lemma bitwise_or_pixel (a b c : raster) (nx ny : nat) (u v : Z) :
  bitwise_or a b = Returned c ->
  pixel a nx ny = Some u -> pixel b nx ny = Some v ->
  pixel c nx ny = Some (Z.lor u v).
Proof.
  unfold bitwise_or. destruct (same_shape a b); [|discriminate].
  intros [= <-]. unfold pixel.
  destruct (nth_error a ny) as [ra|] eqn:Hra; [|discriminate].
  destruct (nth_error b ny) as [rb|] eqn:Hrb; [|discriminate].
  intros Hu Hv.
  rewrite nth_error_map, (combine_nth _ _ _ _ _ Hra Hrb). cbn.
  rewrite nth_error_map, (combine_nth _ _ _ _ _ Hu Hv). reflexivity.
Qed.

Lemma bitwise_or_shape (a b c : raster) :
  bitwise_or a b = Returned c -> same_shape a b = true.
Proof.
  unfold bitwise_or. destruct (same_shape a b); [reflexivity | discriminate].
Qed.

Lemma bitwise_or_lit (a b c : raster) (p : point) :
  bitwise_or a b = Returned c -> lit a p \/ lit b p -> lit c p.
Proof.
  intros Hor Hlit. pose proof (bitwise_or_shape a b c Hor) as Hs.
  unfold lit in *. rewrite !nonzero_In in *.
  destruct Hlit as [(nx & ny & u & Hx & Hy & Hp & Hu)|(nx & ny & v & Hx & Hy & Hp & Hv)].
  - destruct (same_shape_pixel b a nx ny u (same_shape_sym _ _ Hs) Hp) as (v & Hv).
    exists nx, ny, (Z.lor u v). repeat split; try assumption.
    + exact (bitwise_or_pixel a b c nx ny u v Hor Hp Hv).
    + intros Hz. apply Z.lor_eq_0_iff in Hz. destruct Hz; contradiction.
  - destruct (same_shape_pixel a b nx ny v Hs Hp) as (u & Hu).
    exists nx, ny, (Z.lor u v). repeat split; try assumption.
    + exact (bitwise_or_pixel a b c nx ny u v Hor Hu Hp).
    + intros Hz. apply Z.lor_eq_0_iff in Hz. destruct Hz; contradiction.
Qed.

(** The union mask is lit wherever the running mask or one of the masks
    or-ed in is lit. *)
Lemma union_masks_lit (masks : list raster) (acc merged : raster) (p : point) :
  union_masks acc masks = Returned merged ->
  lit acc p \/ Exists (fun m => lit m p) masks -> lit merged p.
Proof.
  revert acc. induction masks as [|m masks IH]; intros acc; cbn [union_masks].
  - intros [= <-] [Hacc|Hex]; [exact Hacc | inversion Hex].
  - destruct (bitwise_or acc m) as [acc'|e] eqn:Hor; [|discriminate].
    intros Hrest Hlit. apply (IH acc' Hrest).
    destruct Hlit as [Hacc|Hex].
    + left. apply (bitwise_or_lit acc m acc' p Hor). left; exact Hacc.
    + inversion Hex as [? ? Hm|? ? Hlater]; subst.
      * left. apply (bitwise_or_lit acc m acc' p Hor). right; exact Hm.
      * right. exact Hlater.
Qed.

Lemma roi_bbox_segmented (fresh_id name : string) (rect : Z * Z * Z * Z) (c : Cv.contour) :
  roi_bbox (segmented_roi fresh_id name rect c) = rect.
Proof. destruct rect as [[[x y] w] h]. reflexivity. Qed.

Lemma rect_within_refl (rect : Z * Z * Z * Z) : rect_within rect rect.
Proof. destruct rect as [[[x y] w] h]. cbn. lia. Qed.

(** When one contour is all there is, its bounding rectangle holds the bbox
    of every well-formed region whose mask went into the union. *)
Lemma single_contour_holds (merged : raster) (c : Cv.contour) (r : SuperpixelRegion) :
  findContours merged = [c] ->
  (forall p, lit (mask r) p -> lit merged p) ->
  region_wf r ->
  rect_within (bbox r) (boundingRect c).
Proof.
  intros Hone Hsub [Hin Hbbox]. rewrite Hbbox.
  apply boundingRect_tight.
  - exact (findContours_contour_nonempty _ _ Hin).
  - intros p Hp. apply boundingRect_has.
    assert (Hlit : lit merged p).
    { apply Hsub. unfold lit. apply findContours_covers.
      exists (Superpixel.contour r). split; assumption. }
    unfold lit in Hlit. apply findContours_covers in Hlit.
    destruct Hlit as (c' & Hc' & Hpc'). rewrite Hone in Hc'.
    destruct Hc' as [<-|[]]. exact Hpc'.
Qed.

End MergeRegionFacts.

(** C6 (as stated) fails: merging the two outer cells of a three-cell
    raster, which do not touch, returns the bounding rectangle of one of
    them only. *)
Lemma merge_regions_bbox_counterexample :
  exists roi,
    Superpixel.merge_regions Superpixel.pixel_count_area EmptyString
      Superpixel.outer_cells = Returned (Some roi)
    /\ Superpixel.outer_cells <> []
    /\ ~ Forall (fun r => Cv.rect_within (Superpixel.bbox r) (Superpixel.roi_bbox roi))
               Superpixel.outer_cells.
Proof.
  eexists. split; [vm_compute; reflexivity|].
  split; [vm_compute; discriminate|].
  intros Hall.
  destruct Superpixel.outer_cells as [|a [|b l]] eqn:Hcells;
    vm_compute in Hcells; try discriminate.
  injection Hcells as <- <- <-.
  inversion Hall as [|? ? _ Hrest]; subst.
  inversion Hrest as [|? ? Hright _]; subst.
  unfold Cv.rect_within in Hright. cbn in Hright. lia.
Qed.

(** C6 (amended).  For regions as a segmentation run builds them,
    [merge_regions] returns for a single region that region's own bbox, and
    for two or more the bounding rectangle of the largest external contour
    of the union of their masks.  The returned bbox contains the bbox of
    every input region when there is only one region or the union has a
    single external contour. *)
Theorem merge_regions_bbox
    (contourArea : Cv.contour -> Q) (fresh_id : string)
    (regions : list Superpixel.SuperpixelRegion) (roi : ROI) :
  Forall Superpixel.region_wf regions ->
  Superpixel.merge_regions contourArea fresh_id regions = Returned (Some roi) ->
  (forall r, regions = [r] -> Superpixel.roi_bbox roi = Superpixel.bbox r)
  /\ ((2 <= List.length regions)%nat ->
      exists merged best,
        Superpixel.merged_mask_of regions = Returned merged
        /\ In best (Cv.findContours merged)
        /\ Forall (fun c => (contourArea c <= contourArea best)%Q)
                  (Cv.findContours merged)
        /\ Superpixel.roi_bbox roi = Cv.boundingRect best)
  /\ (Superpixel.single_blob regions ->
      Forall (fun r => Cv.rect_within (Superpixel.bbox r) (Superpixel.roi_bbox roi))
             regions).
Proof.
  intros Hwf Hret.
  destruct regions as [|r0 [|r1 rest]].
  - discriminate.
  - cbn in Hret. injection Hret as <-.
    rewrite roi_bbox_segmented.
    split; [|split].
    + intros r [= <-]. reflexivity.
    + cbn. lia.
    + intros _. constructor; [|constructor]. apply rect_within_refl.
  - unfold Superpixel.merge_regions in Hret.
    fold (Superpixel.merged_mask_of (r0 :: r1 :: rest)) in Hret.
    destruct (Superpixel.merged_mask_of (r0 :: r1 :: rest)) as [merged|e] eqn:Hunion;
      [|discriminate].
    destruct (Cv.findContours merged) as [|first others] eqn:Hfc; [discriminate|].
    injection Hret as <-. rewrite roi_bbox_segmented.
    split; [|split].
    + intros r [=].
    + intros _. exists merged, (py_max_by contourArea first others).
      rewrite Hfc. repeat split.
      * apply py_max_by_In.
      * apply py_max_by_max.
    + intros [Hlen|(merged' & c & Hm' & Hone)]; [cbn in Hlen; lia|].
      rewrite Hm' in Hunion. injection Hunion as ->.
      rewrite Hfc in Hone. injection Hone as -> ->.
      cbn [py_max_by].
      apply Forall_forall. intros r Hr.
      apply (single_contour_holds merged c r).
      * exact Hfc.
      * intros p Hp. unfold Superpixel.merged_mask_of in Hm'.
        apply (union_masks_lit _ _ _ p Hm'). right.
        apply Exists_exists. exists (Superpixel.mask r). split; [|exact Hp].
        apply in_map, Hr.
      * rewrite Forall_forall in Hwf. apply Hwf, Hr.
Qed.

Lemma merge_regions_bbox_witness :
  exists roi,
    Superpixel.merge_regions Superpixel.pixel_count_area EmptyString
      Superpixel.left_cells = Returned (Some roi)
    /\ Forall (fun r => Cv.rect_within (Superpixel.bbox r) (Superpixel.roi_bbox roi))
              Superpixel.left_cells.
Proof.
  eexists. split; [vm_compute; reflexivity|].
  refine (proj2 (proj2 (merge_regions_bbox Superpixel.pixel_count_area EmptyString
                          Superpixel.left_cells _ _ _)) _).
  - apply Forall_forall. intros r Hr.
    assert (Hshape : Cv.has_shape 2 6 Superpixel.three_cells).
    { split; [reflexivity|]. repeat constructor. }
    assert (Hpos : Forall (Forall (fun v => 0 <= v)) Superpixel.three_cells).
    { repeat (constructor; [repeat (constructor; [lia|]); constructor|]). constructor. }
    apply (proj1 (Forall_forall _ _)
             (proj2 (proj2 (extract_regions_partition Superpixel.pixel_count_area
                              Superpixel.no_moments Superpixel.grey 2 6
                              Superpixel.three_cells Hshape Hpos)))).
    unfold Superpixel.left_cells in Hr. apply filter_In in Hr. exact (proj1 Hr).
  - vm_compute. reflexivity.
  - right. eexists. eexists. split; vm_compute; reflexivity.
Defined.

(** ** Null pixmaps and empty results *)

Section EmptyFacts.
Import Detector.


End EmptyFacts.



(** ** Circle hits away from the left and top edges *)

Section CircleFacts.
Import Numpy Detector.

Lemma wrap16_small (n : Z) : 0 <= n < 65536 -> wrap16 n = n.
Proof. intros Hn. unfold wrap16. apply Z.mod_small. exact Hn. Qed.

Lemma wrap64_small (n : Z) : - 2 ^ 63 <= n < 2 ^ 63 -> wrap64 n = n.
Proof.
  intros Hn. unfold wrap64.
  rewrite Z.mod_small by lia. lia.
Qed.

(** Where neither [center - radius - 2] nor the sizes leave the [uint16]
    range (a centre at least [radius + 2] from the left and top edges), the square is the circle's bounding square with its margin, cut
    at the right and bottom edges, and lies in the image. *)
Lemma circle_roi_inside (p : promotion) (pixmap : Qt.QPixmap)
    (fresh_id : nat -> string) (i : nat) (cx cy rad : Z) :
  0 <= rad -> 2 * rad + 4 < 65536 ->
  rad + 2 <= cx < Qt.width pixmap -> rad + 2 <= cy < Qt.height pixmap ->
  Qt.width pixmap < 65536 -> Qt.height pixmap < 65536 ->
  exists roi,
    circle_roi p pixmap fresh_id i (cx, cy, rad) = Returned roi
    /\ Roi.x roi = cx - rad - 2 /\ Roi.y roi = cy - rad - 2
    /\ Roi.width roi = Z.min (Qt.width pixmap - Roi.x roi) (2 * rad + 4)
    /\ Roi.height roi = Z.min (Qt.height pixmap - Roi.y roi) (2 * rad + 4)
    /\ bbox_in_image pixmap roi.
Proof.
  intros Hrad Hside Hcx Hcy Hw Hh.
  assert (H63 : 2 ^ 63 = 9223372036854775808) by reflexivity.
  unfold circle_roi.
  rewrite (wrap16_small cx), (wrap16_small cy), (wrap16_small rad) by lia.
  destruct p; cbn [binop bind].
  - rewrite (wrap16_small (cx - rad)), (wrap16_small (cy - rad)) by lia.
    rewrite (wrap64_small (cx - rad - 2)), (wrap64_small (cy - rad - 2)) by lia.
    unfold py_max. cbn [value].
    destruct (Z.ltb_spec 0 (cx - rad - 2)) as [Hx|Hx];
      destruct (Z.ltb_spec 0 (cy - rad - 2)) as [Hy|Hy];
      cbn [binop bind value];
      rewrite ?(wrap64_small (rad * 2)) by lia;
      rewrite ?(wrap64_small (rad * 2 + 4)) by lia;
      rewrite ?(wrap64_small (Qt.width pixmap - _)) by lia;
      rewrite ?(wrap64_small (Qt.height pixmap - _)) by lia;
      unfold py_min; cbn [value];
      eexists; (split; [reflexivity|]);
      unfold bbox_in_image; cbn [Roi.x Roi.y Roi.width Roi.height Roi.make];
      repeat match goal with |- context [?a <? ?b] => destruct (Z.ltb_spec a b) end;
      cbn [value]; lia.
  - assert (Hf2 : fits16 2 = true) by reflexivity.
    assert (Hf4 : fits16 4 = true) by reflexivity.
    assert (Hfw : fits16 (Qt.width pixmap) = true).
    { unfold fits16. apply andb_true_intro. split; [apply Z.leb_le | apply Z.ltb_lt]; lia. }
    assert (Hfh : fits16 (Qt.height pixmap) = true).
    { unfold fits16. apply andb_true_intro. split; [apply Z.leb_le | apply Z.ltb_lt]; lia. }
    assert (E1 : wrap16 (rad * 2) = rad * 2) by (apply wrap16_small; lia).
    assert (E2 : wrap16 (rad * 2 + 4) = rad * 2 + 4) by (apply wrap16_small; lia).
    repeat (progress (cbn [binop bind value];
                      rewrite ?Hf2, ?Hf4, ?Hfw, ?Hfh;
                      rewrite ?(wrap16_small (cx - rad)), ?(wrap16_small (cy - rad)),
                              ?(wrap16_small (cx - rad - 2)),
                              ?(wrap16_small (cy - rad - 2)) by lia)).
    unfold py_max. cbn [value].
    destruct (Z.ltb_spec 0 (cx - rad - 2)) as [Hx|Hx];
      destruct (Z.ltb_spec 0 (cy - rad - 2)) as [Hy|Hy];
      repeat (progress (cbn [binop bind value]; rewrite ?Hf2, ?Hf4, ?Hfw, ?Hfh));
      rewrite ?E1, ?E2;
      rewrite ?(wrap16_small (Qt.width pixmap - _)) by lia;
      rewrite ?(wrap16_small (Qt.height pixmap - _)) by lia;
      unfold py_min; cbn [value];
      eexists; (split; [reflexivity|]);
      unfold bbox_in_image; cbn [Roi.x Roi.y Roi.width Roi.height Roi.make];
      repeat match goal with |- context [?a <? ?b] => destruct (Z.ltb_spec a b) end;
      cbn [value];
      repeat match goal with
             | H : context [wrap16 (rad * 2)] |- _ => rewrite E1 in H
             | H : context [wrap16 (rad * 2 + 4)] |- _ => rewrite E2 in H
             end;
      rewrite ?E1, ?E2; lia.
Qed.

End CircleFacts.

(** ** Worked instances *)

Lemma merge_overlapping_rois_greedy_witness :
  Merger.merge_loop (3 # 10) [] ([Merger.sample_a] ++ [Merger.sample_b])
  = Merger.merge_loop (3 # 10) [] [Merger.sample_a] ++ [Merger.sample_b].
Proof.
  refine (proj1 (proj2 (proj2 (proj2 (proj2 (proj2
            (merge_overlapping_rois_greedy [Merger.sample_a; Merger.sample_b] (3 # 10))))))
            [Merger.sample_a] Merger.sample_b [] _) _).
  - reflexivity.
  - unfold Merger.within_threshold.
    change (Merger.merge_loop (3 # 10) [] [Merger.sample_a]) with [Merger.sample_a].
    apply Forall_cons; [|apply Forall_nil].
    unfold Qle. vm_compute. discriminate.
Defined.

Lemma selected_index_invariant_witness :
  Collection.selected_index (fst (Collection.remove 0 Collection.sample)) = 1
  /\ Collection.get_selected (fst (Collection.remove 0 Collection.sample))
     = Collection.get_selected Collection.sample.
Proof.
  assert (Hv : Collection.valid_selection Collection.sample)
    by (right; vm_compute; split; [discriminate | reflexivity]).
  assert (Hi : 0 <= 0 < Collection.len Collection.sample)
    by (vm_compute; split; [discriminate | reflexivity]).
  assert (Hlt : 0 < Collection.selected_index Collection.sample) by reflexivity.
  exact (proj1 (proj2 (proj2 (proj2 (proj2 selected_index_invariant)
                                 Collection.sample 0 Hv Hi))) Hlt).
Defined.


(** ** The flood reaches everything it can *)

Section FloodClosure.
Import Cv.

Lemma flood_rest_subset (fuel : nat) (frontier rest : list point) (q : point) :
  In q (snd (flood fuel frontier rest)) -> In q rest.
Proof.
  revert frontier rest. induction fuel as [|fuel IH]; intros frontier rest; cbn.
  - auto.
  - destruct frontier as [|p frontier']; [auto|].
    specialize (IH (frontier' ++ filter (adjacent8 p) rest)
                   (filter (fun q => negb (adjacent8 p q)) rest)).
    destruct (flood fuel (frontier' ++ filter (adjacent8 p) rest)
                (filter (fun q => negb (adjacent8 p q)) rest)) as [component rest'].
    cbn in *. intros Hq. apply IH in Hq. apply filter_In in Hq. exact (proj1 Hq).
Qed.

(** With one unit of fuel per pixel the flood stops because the frontier is
    empty: no pixel left over touches the component. *)
Lemma flood_closed (fuel : nat) (frontier rest : list point) (p q : point) :
  (List.length frontier + List.length rest <= fuel)%nat ->
  In p (fst (flood fuel frontier rest)) ->
  In q (snd (flood fuel frontier rest)) ->
  adjacent8 p q = false.
Proof.
  revert frontier rest. induction fuel as [|fuel IH]; intros frontier rest Hfuel; cbn.
  - destruct frontier; [intros [] | cbn in Hfuel; lia].
  - destruct frontier as [|p0 frontier']; [intros []|].
    pose proof (flood_rest_subset fuel (frontier' ++ filter (adjacent8 p0) rest)
                  (filter (fun q => negb (adjacent8 p0 q)) rest) q) as Hsub.
    specialize (IH (frontier' ++ filter (adjacent8 p0) rest)
                   (filter (fun q => negb (adjacent8 p0 q)) rest)).
    assert (Hlen : (List.length (frontier' ++ filter (adjacent8 p0) rest)
                    + List.length (filter (fun q => negb (adjacent8 p0 q)) rest)
                    <= fuel)%nat).
    { pose proof (Permutation_length (filter_split_perm (adjacent8 p0) rest)) as Hsplit.
      rewrite length_app in *. cbn in Hfuel. lia. }
    specialize (IH Hlen).
    destruct (flood fuel (frontier' ++ filter (adjacent8 p0) rest)
                (filter (fun q => negb (adjacent8 p0 q)) rest)) as [component rest'].
    cbn in *. intros [<-|Hp] Hq.
    + apply Hsub in Hq. apply filter_In in Hq.
      destruct Hq as [_ Hq]. apply negb_true_iff in Hq. exact Hq.
    + exact (IH Hp Hq).
Qed.

End FloodClosure.

(* ================================================================== *)
(** * Further properties of the modelled code                           *)
(* ================================================================== *)

(** ** Dictionaries written and read back *)

(** X1. Reading back a dictionary written by [to_dict] always succeeds and
    gives an ROI that serialises to the same dictionary: position, size, id,
    name, node name and type survive.  Colour, tags and image path are not
    written, so the ROI read back carries their defaults. *)
Theorem from_dict_to_dict_round_trip (fresh_id : string) (r : ROI) :
  exists r',
    Roi.from_dict fresh_id (Roi.to_dict r) = Some r'
    /\ Roi.to_dict r' = Roi.to_dict r
    /\ (Roi.x r', Roi.y r', Roi.width r', Roi.height r')
       = (Roi.x r, Roi.y r, Roi.width r, Roi.height r)
    /\ Roi.roi_id r' = Roi.roi_id r /\ Roi.name r' = Roi.name r
    /\ Roi.node_name r' = Roi.node_name r /\ Roi.roi_type r' = Roi.roi_type r
    /\ Roi.color r' = "#00FF00"%string /\ Roi.tags r' = []
    /\ Roi.image_path r' = EmptyString.
Proof.
  unfold Roi.from_dict, Roi.to_dict, Roi.get_str, Roi.get_int.
  destruct (String.eqb (Roi.roi_type r) "image") eqn:Ht.
  - cbn. eexists. split; [reflexivity|].
    unfold Roi.to_dict. cbn. rewrite Ht. cbn. repeat split; reflexivity.
  - destruct (String.eqb (Roi.action r) "click") eqn:Hc;
      [|destruct (String.eqb (Roi.action r) "swipe") eqn:Hs];
      cbn; eexists; (split; [reflexivity|]);
      unfold Roi.to_dict; cbn; rewrite Ht, ?Hc, ?Hs; cbn; repeat split; reflexivity.
Qed.

(** ** The list kept by a collection *)

Section CollectionListFacts.
Import Collection.

Lemma len_nonneg (c : ROICollection) : 0 <= len c.
Proof. unfold len. lia. Qed.

Lemma get_in_range (j : Z) (c : ROICollection) :
  0 <= j < len c -> get j c = nth_error (rois c) (Z.to_nat j).
Proof.
  intros Hj. unfold get.
  destruct (Z.leb_spec 0 j); [|lia].
  destruct (Z.ltb_spec j (len c)); [reflexivity | lia].
Qed.

Lemma get_out_of_range (j : Z) (c : ROICollection) :
  ~ 0 <= j < len c -> get j c = None.
Proof.
  intros Hj. unfold get.
  destruct (Z.leb_spec 0 j); [|reflexivity].
  destruct (Z.ltb_spec j (len c)); [lia | reflexivity].
Qed.

Lemma add_rois (roi : ROI) (c : ROICollection) :
  exists roi',
    rois (fst (add roi c)) = rois c ++ [roi']
    /\ selected_index (fst (add roi c)) = selected_index c
    /\ snd (add roi c) = len c
    /\ (Roi.name roi <> EmptyString ->
        roi' = roi /\ _name_counter (fst (add roi c)) = _name_counter c)
    /\ (Roi.name roi = EmptyString ->
        roi' = Roi.set_name ("ROI_" ++ format_0d 3 (_name_counter c + 1)) roi
        /\ _name_counter (fst (add roi c)) = _name_counter c + 1).
Proof.
  unfold add, len.
  destruct (String.eqb_spec (Roi.name roi) "") as [He|Hne]; cbn -[format_0d];
    eexists; (split; [reflexivity|]); (split; [reflexivity|]);
    (split; [rewrite length_app; cbn; lia|]); split; intros Hn;
    try contradiction; try (split; reflexivity).
Qed.

Lemma append_nonempty (s : string) : (s ++ "_copy")%string <> EmptyString.
Proof. destruct s; discriminate. Qed.

Lemma update_at_length (n : nat) (f : ROI -> ROI) (l : list ROI) :
  List.length (update_at n f l) = List.length l.
Proof.
  revert n. induction l as [|r l IH]; intros [|n]; cbn; try reflexivity.
  rewrite IH. reflexivity.
Qed.

Lemma update_at_nth (n m : nat) (f : ROI -> ROI) (l : list ROI) :
  nth_error (update_at n f l) m
  = if (m =? n)%nat then option_map f (nth_error l m) else nth_error l m.
Proof.
  revert n m. induction l as [|r l IH]; intros n m.
  - destruct n, m; cbn; try destruct (Nat.eqb _ _); reflexivity.
  - destruct n, m; cbn; try reflexivity. apply IH.
Qed.

Lemma update_at_twice (n : nat) (f g h : ROI -> ROI) (l : list ROI) :
  (forall r, f (g r) = h r) ->
  update_at n f (update_at n g l) = update_at n h l.
Proof.
  intros Hfg. revert n. induction l as [|r l IH]; intros [|n]; cbn; try reflexivity.
  - rewrite Hfg. reflexivity.
  - rewrite IH. reflexivity.
Qed.

Lemma translate_twice (dx1 dy1 dx2 dy2 : Z) (r : ROI) :
  Roi.translate dx2 dy2 (Roi.translate dx1 dy1 r)
  = Roi.translate (dx1 + dx2) (dy1 + dy2) r.
Proof.
  unfold Roi.translate. cbn. f_equal; lia.
Qed.

End CollectionListFacts.

(** X2. [add] appends: it returns the old length as the index, the ROI
    stored there is the one passed in when it has a name and otherwise the
    same ROI named [ROI_NNN] from the incremented counter, and every ROI
    already in the collection stays where it was. *)
Theorem add_then_get (roi : ROI) (c : Collection.ROICollection) :
  let c' := fst (Collection.add roi c) in
  let index := snd (Collection.add roi c) in
  index = Collection.len c
  /\ Collection.len c' = Collection.len c + 1
  /\ (forall j, 0 <= j < Collection.len c -> Collection.get j c' = Collection.get j c)
  /\ (Roi.name roi <> EmptyString ->
      Collection.get index c' = Some roi
      /\ Collection._name_counter c' = Collection._name_counter c)
  /\ (Roi.name roi = EmptyString ->
      Collection.get index c'
      = Some (Roi.set_name ("ROI_" ++ format_0d 3 (Collection._name_counter c + 1)) roi)
      /\ Collection._name_counter c' = Collection._name_counter c + 1).
Proof.
  intros c' index.
  destruct (add_rois roi c) as (roi' & Hrois & _ & Hidx & Hnamed & Hunnamed).
  fold c' in Hrois, Hnamed, Hunnamed. fold index in Hidx.
  assert (Hlen : Collection.len c' = Collection.len c + 1).
  { unfold Collection.len. rewrite Hrois, length_app. cbn. lia. }
  pose proof (len_nonneg c) as Hnn.
  assert (Hlast : Collection.get index c' = Some roi').
  { rewrite get_in_range by lia. rewrite Hrois, Hidx.
    unfold Collection.len. rewrite Nat2Z.id, nth_error_app2 by lia.
    rewrite Nat.sub_diag. reflexivity. }
  split; [exact Hidx|]. split; [exact Hlen|]. split; [|split].
  - intros j Hj. rewrite !get_in_range by lia. rewrite Hrois.
    apply nth_error_app1. unfold Collection.len in Hj. lia.
  - intros Hn. destruct (Hnamed Hn) as [-> Hc]. split; [exact Hlast | exact Hc].
  - intros Hn. destruct (Hunnamed Hn) as [<- Hc]. split; [exact Hlast | exact Hc].
Qed.

(** X3. [remove] with an index outside [0 .. len-1] (a negative one
    included) returns [False] and changes nothing; with an index inside it
    returns [True], the collection is one shorter, the ROIs before the index
    keep their places and those after it move down by one. *)
Theorem remove_list_content (c : Collection.ROICollection) (i : Z) :
  (~ 0 <= i < Collection.len c -> Collection.remove i c = (c, false))
  /\ (0 <= i < Collection.len c ->
      let c' := fst (Collection.remove i c) in
      snd (Collection.remove i c) = true
      /\ Collection.len c' = Collection.len c - 1
      /\ (forall j, 0 <= j < i -> Collection.get j c' = Collection.get j c)
      /\ (forall j, i <= j < Collection.len c - 1 ->
            Collection.get j c' = Collection.get (j + 1) c)).
Proof.
  unfold Collection.remove. split.
  - intros Hout. destruct (Z.leb_spec 0 i); [|reflexivity].
    destruct (Z.ltb_spec i (Collection.len c)); [lia | reflexivity].
  - intros Hin. destruct (Z.leb_spec 0 i); [|lia].
    destruct (Z.ltb_spec i (Collection.len c)); [|lia].
    cbn [fst snd andb]. cbv zeta.
    set (c' := {| Collection.rois := Collection.del_at i (Collection.rois c);
                  Collection.selected_index := _;
                  Collection._name_counter := _ |}).
    assert (Hlen : Collection.len c' = Collection.len c - 1).
    { unfold Collection.len in *. cbn. apply del_at_length. lia. }
    split; [reflexivity|]. split; [exact Hlen|]. split.
    + intros j Hj. rewrite !get_in_range by lia. cbn.
      apply del_at_nth_before; lia.
    + intros j Hj. rewrite !get_in_range by lia. cbn.
      unfold Collection.len in *.
      rewrite del_at_nth_after by lia. f_equal. lia.
Qed.

(** X4. [copy_selected] without a selection returns [None] and changes
    nothing.  With an ROI selected it appends a copy and selects it: the copy
    has the same size, lies 20 pixels to the right and below, is named after
    the original with the suffix [_copy], keeps colour and tags, and is a
    plain image ROI again (node name, action and image settings are not
    copied); the original list is untouched. *)
Theorem copy_selected_appends (fresh_id : string) (c : Collection.ROICollection) :
  (Collection.get_selected c = None ->
   Collection.copy_selected fresh_id c = (c, None))
  /\ (forall roi, Collection.get_selected c = Some roi ->
      exists new_roi,
        let c' := fst (Collection.copy_selected fresh_id c) in
        snd (Collection.copy_selected fresh_id c) = Some new_roi
        /\ Collection.rois c' = Collection.rois c ++ [new_roi]
        /\ Collection.selected_index c' = Collection.len c
        /\ Collection.get_selected c' = Some new_roi
        /\ Roi.x new_roi = Roi.x roi + 20 /\ Roi.y new_roi = Roi.y roi + 20
        /\ Roi.width new_roi = Roi.width roi /\ Roi.height new_roi = Roi.height roi
        /\ Roi.name new_roi = (Roi.name roi ++ "_copy")%string
        /\ Roi.color new_roi = Roi.color roi /\ Roi.tags new_roi = Roi.tags roi
        /\ Roi.roi_id new_roi = fresh_id
        /\ Roi.roi_type new_roi = "image"%string
        /\ Roi.action new_roi = EmptyString
        /\ Roi.node_name new_roi = EmptyString).
Proof.
  unfold Collection.copy_selected. split.
  - intros ->. reflexivity.
  - intros roi ->.
    set (new_roi := Roi.translate 20 20 (Roi.copy fresh_id roi)).
    destruct (add_rois new_roi c) as (roi' & Hrois & _ & _ & Hnamed & _).
    destruct (Hnamed (append_nonempty (Roi.name roi))) as [-> _].
    exists new_roi. cbn [fst snd]. cbv zeta.
    set (c1 := fst (Collection.add new_roi c)) in *.
    pose proof (len_nonneg c) as Hnn.
    assert (Hlen : Collection.len c1 = Collection.len c + 1).
    { unfold Collection.len. rewrite Hrois, length_app. cbn. lia. }
    assert (Hlast : nth_error (Collection.rois c1) (Z.to_nat (Collection.len c1 - 1))
                    = Some new_roi).
    { rewrite Hlen, Hrois. replace (Collection.len c + 1 - 1) with (Collection.len c) by lia.
      unfold Collection.len. rewrite Nat2Z.id, nth_error_app2 by lia.
      rewrite Nat.sub_diag. reflexivity. }
    split; [exact Hlast|]. split; [exact Hrois|].
    split; [cbn; lia|]. split.
    + unfold Collection.get_selected. rewrite get_in_range.
      * cbn. exact Hlast.
      * unfold Collection.len in *.
        cbn [Collection.selected_index Collection.rois]. lia.
    + repeat split; reflexivity.
Qed.

(** X5. [move_roi] with an index outside the list changes nothing.  With
    an index inside it shifts that ROI by the delta, keeping its size, and
    leaves every other ROI, the length and the selection as they were; two
    moves of the same ROI amount to one move by the sum of the deltas. *)
Theorem move_roi_shifts_one (c : Collection.ROICollection) (i : Z) (d1 d2 : Z * Z) :
  (~ 0 <= i < Collection.len c -> Collection.move_roi i d1 c = c)
  /\ Collection.len (Collection.move_roi i d1 c) = Collection.len c
  /\ Collection.selected_index (Collection.move_roi i d1 c)
     = Collection.selected_index c
  /\ (forall j, j <> i ->
        Collection.get j (Collection.move_roi i d1 c) = Collection.get j c)
  /\ (forall roi, Collection.get i c = Some roi ->
        Collection.get i (Collection.move_roi i d1 c)
        = Some (Roi.translate (fst d1) (snd d1) roi)
        /\ Roi.width (Roi.translate (fst d1) (snd d1) roi) = Roi.width roi
        /\ Roi.height (Roi.translate (fst d1) (snd d1) roi) = Roi.height roi)
  /\ Collection.move_roi i d2 (Collection.move_roi i d1 c)
     = Collection.move_roi i (fst d1 + fst d2, snd d1 + snd d2) c.
Proof.
  pose proof (len_nonneg c) as Hnn.
  assert (Hlen : Collection.len (Collection.move_roi i d1 c) = Collection.len c).
  { unfold Collection.move_roi.
    destruct ((i <? 0) || (Collection.len c <=? i)); [reflexivity|].
    unfold Collection.len. cbn. rewrite update_at_length. reflexivity. }
  split; [|split; [exact Hlen|split; [|split; [|split]]]].
  - intros Hout. unfold Collection.move_roi.
    destruct (Z.ltb_spec i 0); [reflexivity|].
    destruct (Z.leb_spec (Collection.len c) i); [reflexivity | lia].
  - unfold Collection.move_roi.
    destruct ((i <? 0) || (Collection.len c <=? i)); reflexivity.
  - intros j Hj.
    destruct (Z.ltb_spec j 0) as [Hneg|Hpos];
      [rewrite !get_out_of_range by lia; reflexivity|].
    destruct (Z.ltb_spec j (Collection.len c)) as [Hin|Hout];
      [|rewrite !get_out_of_range by lia; reflexivity].
    rewrite !get_in_range by lia.
    unfold Collection.move_roi.
    destruct (Z.ltb_spec i 0); [reflexivity|].
    destruct (Z.leb_spec (Collection.len c) i); [reflexivity|].
    cbn. rewrite update_at_nth.
    destruct (Nat.eqb_spec (Z.to_nat j) (Z.to_nat i)); [lia | reflexivity].
  - intros roi Hget.
    assert (Hi : 0 <= i < Collection.len c).
    { destruct (Z.ltb_spec i 0); [rewrite get_out_of_range in Hget by lia; discriminate|].
      destruct (Z.ltb_spec i (Collection.len c)); [lia|].
      rewrite get_out_of_range in Hget by lia. discriminate. }
    rewrite get_in_range in * by lia.
    split; [|split; reflexivity].
    unfold Collection.move_roi.
    destruct (Z.ltb_spec i 0); [lia|].
    destruct (Z.leb_spec (Collection.len c) i); [lia|].
    cbn. rewrite update_at_nth, Nat.eqb_refl, Hget. reflexivity.
  - unfold Collection.move_roi at 1 3.
    rewrite Hlen.
    destruct (Z.ltb_spec i 0); [cbn; unfold Collection.move_roi;
      destruct (Z.ltb_spec i 0); [reflexivity | lia]|].
    destruct (Z.leb_spec (Collection.len c) i); [cbn; unfold Collection.move_roi;
      destruct (Z.ltb_spec i 0); [reflexivity|];
      destruct (Z.leb_spec (Collection.len c) i); [reflexivity | lia]|].
    cbn [orb]. unfold Collection.move_roi.
    destruct (Z.ltb_spec i 0); [lia|].
    destruct (Z.leb_spec (Collection.len c) i); [lia|].
    cbn. f_equal. apply update_at_twice. intros r. apply translate_twice.
Qed.

(** X6. [select_by_point] selects the first ROI, in list order, that
    contains the point and returns its index; when no ROI contains the point
    it clears the selection and returns [-1].  The list itself is not
    changed. *)
Theorem select_by_point_first_hit (point : Z * Z) (c : Collection.ROICollection) :
  let c' := fst (Collection.select_by_point point c) in
  let i := snd (Collection.select_by_point point c) in
  Collection.selected_index c' = i
  /\ Collection.rois c' = Collection.rois c
  /\ (i = -1 <-> Forall (fun roi => Collection.contains roi point = false)
                        (Collection.rois c))
  /\ (i <> -1 ->
      0 <= i < Collection.len c
      /\ (exists roi, Collection.get i c = Some roi
                      /\ Collection.contains roi point = true)
      /\ (forall j roi, 0 <= j < i -> Collection.get j c = Some roi ->
                        Collection.contains roi point = false)).
Proof.
  assert (Hscan : forall l start,
            match Collection.first_containing point start l with
            | None => Forall (fun roi => Collection.contains roi point = false) l
            | Some i =>
                start <= i < start + Z.of_nat (List.length l)
                /\ (exists roi, nth_error l (Z.to_nat (i - start)) = Some roi
                                /\ Collection.contains roi point = true)
                /\ (forall j roi, (j < Z.to_nat (i - start))%nat ->
                      nth_error l j = Some roi ->
                      Collection.contains roi point = false)
            end).
  { induction l as [|r l IH]; intros start; cbn [Collection.first_containing].
    - constructor.
    - destruct (Collection.contains r point) eqn:Hr.
      + split; [cbn [List.length]; lia|]. rewrite Z.sub_diag. split.
        * exists r. split; [reflexivity | exact Hr].
        * intros j roi Hj. cbn in Hj. lia.
      + specialize (IH (start + 1)).
        destruct (Collection.first_containing point (start + 1) l) as [i|].
        * destruct IH as (Hrange & (roi & Hnth & Hroi) & Hbefore).
          assert (Hidx : Z.to_nat (i - start) = S (Z.to_nat (i - (start + 1)))) by lia.
          split; [cbn [List.length]; lia|]. split.
          -- exists roi. rewrite Hidx. split; assumption.
          -- intros j roi' Hj Hnth'. rewrite Hidx in Hj.
             destruct j as [|j]; [cbn in Hnth'; congruence|].
             apply (Hbefore j roi'); [lia | exact Hnth'].
        * constructor; assumption. }
  intros c' i. subst c' i. unfold Collection.select_by_point. cbn [fst snd].
  specialize (Hscan (Collection.rois c) 0).
  pose proof (len_nonneg c) as Hnn.
  destruct (Collection.first_containing point 0 (Collection.rois c)) as [i|].
  - destruct Hscan as (Hrange & (roi & Hnth & Hroi) & Hbefore).
    rewrite Z.sub_0_r in *. cbn [Collection.selected_index Collection.rois].
    split; [reflexivity|]. split; [reflexivity|]. split; [|split; [|split]].
    + split; [lia|]. intros Hall. exfalso.
      rewrite Forall_forall in Hall.
      specialize (Hall roi (nth_error_In _ _ Hnth)). congruence.
    + unfold Collection.len. lia.
    + exists roi. rewrite get_in_range by (unfold Collection.len; lia).
      split; assumption.
    + intros j roi' Hj Hget.
      rewrite get_in_range in Hget by (unfold Collection.len; lia).
      apply (Hbefore (Z.to_nat j) roi'); [lia | exact Hget].
  - cbn [Collection.selected_index Collection.rois].
    split; [reflexivity|]. split; [reflexivity|]. split.
    + split; [intros _; exact Hscan | reflexivity].
    + intros Hne. contradiction.
Qed.

Lemma int32_small (n : Z) : Collection.fits_int n -> Collection.int32 n = n.
Proof.
  unfold Collection.fits_int, Collection.int32. intros Hn.
  assert (H31 : 2 ^ 31 = 2147483648) by reflexivity.
  assert (H32 : 2 ^ 32 = 4294967296) by reflexivity.
  rewrite H31, H32 in *. rewrite Z.mod_small by lia. lia.
Qed.

(** X7. The centre reported for an ROI of positive width and height lies
    within its bbox; and when the fields fit the C [int]s of a [QRect]
    without wrapping, the centre fits them too and [contains] accepts it. *)
Theorem center_inside (r : ROI) :
  0 < Roi.width r -> 0 < Roi.height r ->
  Roi.x r <= fst (Roi.center r) < Roi.right r
  /\ Roi.y r <= snd (Roi.center r) < Roi.bottom r
  /\ (Collection.qrect_exact r ->
      Collection.fits_int (fst (Roi.center r))
      /\ Collection.fits_int (snd (Roi.center r))
      /\ Collection.contains r (Roi.center r) = true).
Proof.
  intros Hw Hh.
  unfold Roi.center, Roi.right, Roi.bottom. cbn [fst snd].
  assert (Hx : 0 <= Roi.width r / 2 < Roi.width r)
    by (split; [apply Z.div_pos; lia | apply Z.div_lt; lia]).
  assert (Hy : 0 <= Roi.height r / 2 < Roi.height r)
    by (split; [apply Z.div_pos; lia | apply Z.div_lt; lia]).
  split; [lia|]. split; [lia|].
  intros (Hx1 & Hy1 & Hfx & Hfy & Hfw & Hfh & Hx2 & Hy2).
  split; [unfold Collection.fits_int in *; lia|].
  split; [unfold Collection.fits_int in *; lia|].
  unfold Collection.contains, Collection.span_contains. cbn [fst snd].
  rewrite !int32_small by assumption.
  apply andb_true_intro. split.
  - destruct (Z.ltb_spec (Roi.x r + Roi.width r - 1) (Roi.x r - 1)); [lia|].
    apply negb_true_iff, orb_false_intro; apply Z.ltb_ge; lia.
  - destruct (Z.ltb_spec (Roi.y r + Roi.height r - 1) (Roi.y r - 1)); [lia|].
    apply negb_true_iff, orb_false_intro; apply Z.ltb_ge; lia.
Qed.

Lemma center_inside_witness :
  Collection.contains Roi.click_region (Roi.center Roi.click_region) = true.
Proof.
  assert (Hw : 0 < Roi.width Roi.click_region) by reflexivity.
  assert (Hh : 0 < Roi.height Roi.click_region) by reflexivity.
  assert (Hq : Collection.qrect_exact Roi.click_region)
    by (unfold Collection.qrect_exact, Collection.fits_int; cbn; lia).
  exact (proj2 (proj2 (proj2 (proj2 (center_inside Roi.click_region Hw Hh)) Hq))).
Defined.

(** ** Resize handles *)

Section HandleFacts.
Import Collection.

Lemma first_handle_range (point : Z * Z) (hs : list (Z * Z)) (i : Z) :
  first_handle point i hs = -1
  \/ i <= first_handle point i hs < i + Z.of_nat (List.length hs).
Proof.
  revert i. induction hs as [|h hs IH]; intros i; cbn [first_handle].
  - left; reflexivity.
  - destruct (on_handle point h).
    + right. cbn [List.length]. lia.
    + destruct (IH (i + 1)) as [Hnone|Hsome]; [left; exact Hnone|].
      right. cbn [List.length]. lia.
Qed.

Lemma first_handle_none (point : Z * Z) (hs : list (Z * Z)) (i : Z) :
  0 <= i ->
  (first_handle point i hs = -1 <-> Forall (fun h => on_handle point h = false) hs).
Proof.
  revert i. induction hs as [|h hs IH]; intros i Hi; cbn [first_handle].
  - split; [constructor | reflexivity].
  - destruct (on_handle point h) eqn:Hh.
    + split; [lia|]. intros Hall. inversion Hall; congruence.
    + rewrite IH by lia. split.
      * intros Hall. constructor; assumption.
      * intros Hall. inversion Hall; assumption.
Qed.

(** On an ROI at least 11 pixels wide and high the eight handles are more
    than 4 pixels apart, so each handle position answers to itself. *)
Lemma handle_hits_itself (roi : ROI) (k : nat) (h : Z * Z) :
  0 <= Roi.x roi -> 0 <= Roi.y roi ->
  11 <= Roi.width roi -> 11 <= Roi.height roi ->
  fits_int (Roi.x roi + Roi.width roi - 1) ->
  fits_int (Roi.y roi + Roi.height roi - 1) ->
  nth_error (handles roi) k = Some h ->
  first_handle h 0 (handles roi) = Z.of_nat k.
Proof.
  intros Hx Hy Hw Hh Hfx Hfy Hk.
  unfold handles, rect_center, rect_left, rect_right, rect_top, rect_bottom in *.
  rewrite !(int32_small _ Hfx), !(int32_small _ Hfy) in *.
  cbn [fst snd] in *.
  rewrite !Z.quot_div_nonneg in * by lia.
  assert (Hcx : Roi.x roi + 5 <= (Roi.x roi + (Roi.x roi + Roi.width roi - 1)) / 2
                <= Roi.x roi + Roi.width roi - 6).
  { split; [apply Z.div_le_lower_bound | apply Z.div_le_upper_bound]; lia. }
  assert (Hcy : Roi.y roi + 5 <= (Roi.y roi + (Roi.y roi + Roi.height roi - 1)) / 2
                <= Roi.y roi + Roi.height roi - 6).
  { split; [apply Z.div_le_lower_bound | apply Z.div_le_upper_bound]; lia. }
  set (cx := (Roi.x roi + (Roi.x roi + Roi.width roi - 1)) / 2) in *.
  set (cy := (Roi.y roi + (Roi.y roi + Roi.height roi - 1)) / 2) in *.
  do 8 (destruct k as [|k]; [injection Hk as <-; unfold first_handle, on_handle;
        change (8 / 2) with 4; cbn [fst snd];
        repeat match goal with
               | |- context [Z.leb ?a ?b] => destruct (Z.leb_spec a b)
               end; cbn [andb]; try reflexivity; lia|]).
  destruct k; discriminate.
Qed.

End HandleFacts.

(** X8. [get_resize_handle] answers [-1] for an index outside the list and
    otherwise a handle number from 0 to 7, or [-1] exactly when the point is
    more than 4 pixels from all eight handles.  On an ROI with non-negative
    position that is at least 11 pixels wide and high and whose right and
    bottom edges fit a C [int] (as [QRect] keeps them), the position of
    each handle is answered with that handle's own number. *)
Theorem get_resize_handle_hits (point : Z * Z) (i : Z) (c : Collection.ROICollection) :
  (~ 0 <= i < Collection.len c -> Collection.get_resize_handle point i c = -1)
  /\ -1 <= Collection.get_resize_handle point i c <= 7
  /\ (forall roi, Collection.get i c = Some roi ->
        (Collection.get_resize_handle point i c = -1 <->
         Forall (fun h => Collection.on_handle point h = false)
                (Collection.handles roi)))
  /\ (forall roi k h, Collection.get i c = Some roi ->
        0 <= Roi.x roi -> 0 <= Roi.y roi ->
        11 <= Roi.width roi -> 11 <= Roi.height roi ->
        Collection.fits_int (Roi.x roi + Roi.width roi - 1) ->
        Collection.fits_int (Roi.y roi + Roi.height roi - 1) ->
        nth_error (Collection.handles roi) k = Some h ->
        Collection.get_resize_handle h i c = Z.of_nat k).
Proof.
  assert (Hin : forall p roi, Collection.get i c = Some roi ->
            Collection.get_resize_handle p i c
            = Collection.first_handle p 0 (Collection.handles roi)).
  { intros p roi Hget. unfold Collection.get, Collection.get_resize_handle in *.
    destruct (Z.leb_spec 0 i); [|discriminate].
    destruct (Z.ltb_spec i (Collection.len c)); [|discriminate].
    destruct (Z.ltb_spec i 0); [lia|].
    destruct (Z.leb_spec (Collection.len c) i); [lia|].
    cbn [orb andb] in *. rewrite Hget. reflexivity. }
  split; [|split; [|split]].
  - intros Hout. unfold Collection.get_resize_handle.
    destruct (Z.ltb_spec i 0); [reflexivity|].
    destruct (Z.leb_spec (Collection.len c) i); [reflexivity | lia].
  - unfold Collection.get_resize_handle.
    destruct ((i <? 0) || (Collection.len c <=? i)); [lia|].
    destruct (nth_error (Collection.rois c) (Z.to_nat i)) as [roi|]; [|lia].
    destruct (first_handle_range point (Collection.handles roi) 0) as [->|Hr]; [lia|].
    change (Z.of_nat (List.length (Collection.handles roi))) with 8 in Hr. lia.
  - intros roi Hget. rewrite (Hin point roi Hget).
    apply first_handle_none. lia.
  - intros roi k h Hget Hx Hy Hw Hh Hfx Hfy Hk. rewrite (Hin h roi Hget).
    apply handle_hits_itself; assumption.
Qed.

Lemma get_resize_handle_hits_witness :
  Collection.get_resize_handle (139, 139) 2 Collection.named_sample = 7.
Proof.
  refine (proj2 (proj2 (proj2 (get_resize_handle_hits (0, 0) 2 Collection.named_sample)))
            (Roi.set_name "logo" (Roi.make "c0ffee00" 100 100 40 40)) 7%nat (139, 139)
            _ _ _ _ _ _ _ _).
  - reflexivity.
  - cbn; lia.
  - cbn; lia.
  - cbn; lia.
  - cbn; lia.
  - unfold Collection.fits_int; cbn; lia.
  - unfold Collection.fits_int; cbn; lia.
  - reflexivity.
Defined.

(** ** Saving and loading a collection *)

Section LoadFacts.
Import Collection.

Lemma from_dict_reads_back (fresh_id : string) (r : ROI) :
  exists r',
    Roi.from_dict fresh_id (Roi.to_dict r) = Some r'
    /\ Roi.to_dict r' = Roi.to_dict r /\ Roi.name r' = Roi.name r.
Proof.
  unfold Roi.from_dict, Roi.to_dict, Roi.get_str, Roi.get_int.
  destruct (String.eqb (Roi.roi_type r) "image") eqn:Ht.
  - cbn. eexists. split; [reflexivity|].
    unfold Roi.to_dict. cbn. rewrite Ht. cbn. split; reflexivity.
  - destruct (String.eqb (Roi.action r) "click") eqn:Hc;
      [|destruct (String.eqb (Roi.action r) "swipe") eqn:Hs];
      cbn; eexists; (split; [reflexivity|]);
      unfold Roi.to_dict; cbn; rewrite Ht, ?Hc, ?Hs; cbn; split; reflexivity.
Qed.

Lemma load_all_written (fresh_id : nat -> string) (rs : list ROI) (i : nat)
    (acc : ROICollection) :
  Forall (fun r => Roi.name r <> EmptyString) rs ->
  exists acc',
    load_all fresh_id i (map Roi.to_dict rs) acc = Some acc'
    /\ to_list acc' = to_list acc ++ map Roi.to_dict rs
    /\ selected_index acc' = selected_index acc
    /\ _name_counter acc' = _name_counter acc.
Proof.
  intros Hnames. revert i acc.
  induction Hnames as [|r rs Hr _ IH]; intros i acc; cbn [map load_all].
  - exists acc. rewrite app_nil_r. repeat split; reflexivity.
  - destruct (from_dict_reads_back (fresh_id i) r) as (r' & -> & Hdict & Hname).
    destruct (add_rois r' acc) as (r'' & Hrois & Hsel & _ & Hnamed & _).
    rewrite Hname in Hnamed. destruct (Hnamed Hr) as [-> Hcounter].
    destruct (IH (S i) (fst (add r' acc))) as (acc' & Hload & Hlist & Hsel' & Hcnt').
    exists acc'. split; [exact Hload|]. split; [|split; congruence].
    rewrite Hlist. unfold to_list. rewrite Hrois, map_app. cbn [map].
    rewrite Hdict, <- app_assoc. reflexivity.
Qed.

End LoadFacts.

(** X9. Loading with [from_list] what [to_list] wrote, when every ROI has a
    name, succeeds and rebuilds a collection that writes the same list
    again, with as many ROIs; whatever the target held before is replaced,
    nothing is selected and the name counter is back at 0. *)
Theorem from_list_to_list_round_trip
    (fresh_id : nat -> string) (c target : Collection.ROICollection) :
  Forall (fun r => Roi.name r <> EmptyString) (Collection.rois c) ->
  exists c',
    Collection.from_list fresh_id (Collection.to_list c) target = Some c'
    /\ Collection.to_list c' = Collection.to_list c
    /\ Collection.len c' = Collection.len c
    /\ Collection.selected_index c' = -1
    /\ Collection._name_counter c' = 0.
Proof.
  intros Hnames. unfold Collection.from_list, Collection.to_list at 1.
  destruct (load_all_written fresh_id (Collection.rois c) 0 (Collection.clear target) Hnames)
    as (c' & Hload & Hlist & Hsel & Hcnt).
  exists c'. split; [exact Hload|]. cbn in Hlist.
  split; [exact Hlist|]. split; [|split; [exact Hsel | exact Hcnt]].
  unfold Collection.len. apply (f_equal (@List.length _)) in Hlist.
  unfold Collection.to_list in Hlist. rewrite !length_map in Hlist. lia.
Qed.

Lemma from_list_to_list_round_trip_witness :
  exists c',
    Collection.from_list Detector.no_ids (Collection.to_list Collection.named_sample)
      Collection.sample = Some c'
    /\ Collection.to_list c' = Collection.to_list Collection.named_sample
    /\ Collection.len c' = Collection.len Collection.named_sample
    /\ Collection.selected_index c' = -1
    /\ Collection._name_counter c' = 0.
Proof.
  apply (from_list_to_list_round_trip Detector.no_ids Collection.named_sample
           Collection.sample).
  repeat constructor; discriminate.
Defined.

(** ** What the overlap merge keeps and drops *)

Section MergeOutcome.
Import Merger.
Variable iou_threshold : Q.

Let fits (kept candidate : ROI) : Prop :=
  (_calculate_iou candidate kept <= iou_threshold)%Q.

Lemma compatible_pairs (kept ext : list ROI) :
  compatible iou_threshold kept ext ->
  ForallOrdPairs fits ext
  /\ Forall (fun c => Forall (fun k => fits k c) kept) ext.
Proof.
  revert kept. induction ext as [|c ext IH]; intros kept; cbn [compatible].
  - intros _. split; constructor.
  - intros [Hc Hrest]. apply should_merge_false in Hc.
    destruct (IH _ Hrest) as [Hpairs Hall]. split.
    + constructor; [|exact Hpairs].
      eapply Forall_impl; [|exact Hall]. intros c' Hc'.
      apply Forall_app in Hc'. destruct Hc' as [_ Hlast].
      inversion Hlast; assumption.
    + constructor; [exact Hc|].
      eapply Forall_impl; [|exact Hall]. intros c' Hc'.
      apply Forall_app in Hc'. exact (proj1 Hc').
Qed.

Lemma ordered_pairs_nth {A : Type} (R : A -> A -> Prop) (l : list A) :
  ForallOrdPairs R l ->
  forall i j a b, (i < j)%nat ->
    nth_error l i = Some a -> nth_error l j = Some b -> R a b.
Proof.
  induction 1 as [|x l Hx _ IH]; intros i j a b Hij Hi Hj.
  - destruct i; discriminate.
  - destruct j as [|j]; [lia|]. cbn in Hj. destruct i as [|i]; cbn in Hi.
    + injection Hi as <-. rewrite Forall_forall in Hx.
      exact (Hx b (nth_error_In _ _ Hj)).
    + apply (IH i j); [lia | assumption | assumption].
Qed.

Lemma merge_loop_prefix (merged l : list ROI) (k : ROI) :
  In k merged -> In k (merge_loop iou_threshold merged l).
Proof.
  intros Hk. destruct (merge_loop_extends iou_threshold merged l) as (ext & -> & _).
  apply in_or_app. left. exact Hk.
Qed.

Lemma merge_loop_from_input (merged l : list ROI) (r : ROI) :
  In r (merge_loop iou_threshold merged l) -> In r merged \/ In r l.
Proof.
  revert merged. induction l as [|c l IH]; intros merged; cbn [merge_loop].
  - auto.
  - destruct (should_merge iou_threshold c merged); intros Hin.
    + destruct (IH _ Hin); [left | right; right]; assumption.
    + destruct (IH _ Hin) as [Hm|Hl]; [|right; right; exact Hl].
      apply in_app_or in Hm. destruct Hm as [Hm|[<-|[]]];
        [left; exact Hm | right; left; reflexivity].
Qed.

Lemma merge_loop_length (merged l : list ROI) :
  (List.length (merge_loop iou_threshold merged l)
   <= List.length merged + List.length l)%nat.
Proof.
  revert merged. induction l as [|c l IH]; intros merged; cbn [merge_loop List.length].
  - lia.
  - destruct (should_merge iou_threshold c merged).
    + specialize (IH merged). lia.
    + specialize (IH (merged ++ [c])). rewrite length_app in IH. cbn in IH. lia.
Qed.

Lemma should_merge_true (roi : ROI) (merged : list ROI) :
  should_merge iou_threshold roi merged = true ->
  exists k, In k merged /\ ~ (_calculate_iou roi k <= iou_threshold)%Q.
Proof.
  induction merged as [|e rest IH]; cbn [should_merge]; [discriminate|].
  destruct (Qle_bool (_calculate_iou roi e) iou_threshold) eqn:Hle; cbn [negb].
  - intros Hrest. destruct (IH Hrest) as (k & Hk & Hover).
    exists k. split; [right; exact Hk | exact Hover].
  - intros _. exists e. split; [left; reflexivity|].
    intros Hc. apply Qle_bool_iff in Hc. congruence.
Qed.

Lemma dropped_or_kept (l merged : list ROI) (r : ROI) :
  StronglySorted area_desc l ->
  Forall (fun k => Forall (fun c => Roi.area c <= Roi.area k) l) merged ->
  In r l ->
  In r (merge_loop iou_threshold merged l)
  \/ exists k, In k (merge_loop iou_threshold merged l)
               /\ Roi.area r <= Roi.area k
               /\ ~ (_calculate_iou r k <= iou_threshold)%Q.
Proof.
  intros Hsorted. revert merged.
  induction Hsorted as [|c l Hl IH Hc]; intros merged Hbig Hin; [contradiction|].
  assert (Hbig' : Forall (fun k => Forall (fun c' => Roi.area c' <= Roi.area k) l) merged).
  { eapply Forall_impl; [|exact Hbig]. intros k Hk. inversion Hk; assumption. }
  cbn [merge_loop].
  destruct (should_merge iou_threshold c merged) eqn:Hdrop.
  - destruct Hin as [<-|Hin]; [|exact (IH merged Hbig' Hin)].
    right. destruct (should_merge_true c merged Hdrop) as (k & Hk & Hover).
    exists k. split; [apply merge_loop_prefix; exact Hk|]. split; [|exact Hover].
    rewrite Forall_forall in Hbig. specialize (Hbig k Hk).
    inversion Hbig; assumption.
  - destruct Hin as [<-|Hin].
    + left. apply merge_loop_prefix, in_or_app. right. left. reflexivity.
    + apply IH; [|exact Hin].
      apply Forall_app. split; [exact Hbig'|].
      constructor; [|constructor]. exact Hc.
Qed.

Lemma merge_loop_keeps (l merged : list ROI) (r : ROI) :
  (forall kept, should_merge iou_threshold r kept = false) ->
  In r l -> In r (merge_loop iou_threshold merged l).
Proof.
  intros Hfree. revert merged. induction l as [|c l IH]; intros merged Hin;
    [contradiction|].
  cbn [merge_loop]. destruct Hin as [<-|Hin].
  - rewrite Hfree. apply merge_loop_prefix, in_or_app. right. left. reflexivity.
  - destruct (should_merge iou_threshold c merged); apply IH; exact Hin.
Qed.

End MergeOutcome.

Section IouEdges.
Import Merger.

Lemma calculate_iou_nonneg (a b : ROI) : (0 <= _calculate_iou a b)%Q.
Proof.
  unfold _calculate_iou.
  destruct (Z.leb_spec (Z.min (Roi.right a) (Roi.right b)) (Z.max (Roi.x a) (Roi.x b)));
    [apply Qle_refl|].
  destruct (Z.leb_spec (Z.min (Roi.bottom a) (Roi.bottom b)) (Z.max (Roi.y a) (Roi.y b)));
    [apply Qle_refl|].
  cbn [orb].
  match goal with |- context [0 <? ?u] => destruct (Z.ltb_spec 0 u) as [Hu|Hu] end;
    [|apply Qle_refl].
  apply Qle_shift_div_l.
  - change 0%Q with (inject_Z 0). rewrite <- Zlt_Qlt. exact Hu.
  - rewrite Qmult_0_l. change 0%Q with (inject_Z 0). rewrite <- Zle_Qle. nia.
Qed.

Lemma calculate_iou_degenerate (a b : ROI) :
  Roi.width a <= 0 \/ Roi.height a <= 0 ->
  _calculate_iou a b = 0%Q /\ _calculate_iou b a = 0%Q.
Proof.
  intros Hdeg.
  assert (Hab : _calculate_iou a b = 0%Q).
  { apply calculate_iou_no_overlap. intros Hov. apply overlap_iff in Hov.
    unfold Roi.right, Roi.bottom in Hov. lia. }
  split; [exact Hab | rewrite calculate_iou_sym; exact Hab].
Qed.

End IouEdges.

Section SortHead.
Context {A : Type} (key : A -> Z).

(** The sort puts first the earliest element of largest key. *)
Lemma py_sorted_reverse_head (l : list A) :
  l <> [] ->
  exists h rest l1 l2,
    py_sorted_reverse key l = h :: rest
    /\ l = l1 ++ h :: l2
    /\ Forall (fun a => key a < key h) l1
    /\ Forall (fun a => key a <= key h) l2.
Proof.
  induction l as [|a l IH]; [congruence|]. intros _.
  destruct l as [|b l'].
  - exists a, [], [], []. repeat split; constructor.
  - destruct IH as (h & rest & l1 & l2 & Hsort & Hsplit & Hl1 & Hl2); [discriminate|].
    cbn [py_sorted_reverse] in *. rewrite Hsort. cbn [insert_desc].
    destruct (Z.leb_spec (key h) (key a)) as [Hle|Hlt].
    + exists a, (h :: rest), [], (b :: l'). repeat split; [constructor|].
      rewrite Hsplit. apply Forall_app. split.
      * eapply Forall_impl; [|exact Hl1]. cbn. intros c Hc. lia.
      * constructor; [exact Hle|].
        eapply Forall_impl; [|exact Hl2]. cbn. intros c Hc. lia.
    + exists h, (insert_desc key a rest), (a :: l1), l2. repeat split.
      * rewrite Hsplit. reflexivity.
      * constructor; assumption.
      * exact Hl2.
Qed.

End SortHead.

(** X10. No two ROIs that [_merge_overlapping_rois] returns overlap by
    more than the threshold, in whichever order their IoU is taken.  Every
    returned ROI is one of the inputs, there are no more of them than
    inputs, and they come in descending order of area. *)
Theorem merge_result_pairwise_within (rois : list ROI) (iou_threshold : Q) :
  let merged := Merger._merge_overlapping_rois rois iou_threshold in
  ForallOrdPairs
    (fun a b => (Merger._calculate_iou a b <= iou_threshold)%Q
                /\ (Merger._calculate_iou b a <= iou_threshold)%Q) merged
  /\ (forall r, In r merged -> In r rois)
  /\ (List.length merged <= List.length rois)%nat
  /\ StronglySorted Merger.area_desc merged.
Proof.
  intros merged. subst merged. unfold Merger._merge_overlapping_rois.
  destruct rois as [|r0 rois']; [repeat split; try constructor; intros r []|].
  set (sorted := py_sorted_reverse Roi.area (r0 :: rois')).
  assert (Hperm : Permutation sorted (r0 :: rois')) by apply py_sorted_reverse_perm.
  split; [|split; [|split]].
  - destruct (merge_loop_extends iou_threshold [] sorted) as (ext & -> & Hcompat).
    cbn [app]. destruct (compatible_pairs iou_threshold [] ext Hcompat) as [Hpairs _].
    clear Hcompat. induction Hpairs as [|x l Hx _ IH]; constructor; [|exact IH].
    eapply Forall_impl; [|exact Hx]. cbn. intros b Hb.
    split; [rewrite calculate_iou_sym; exact Hb | exact Hb].
  - intros r Hr. apply merge_loop_from_input in Hr. destruct Hr as [[]|Hr].
    exact (Permutation_in _ Hperm Hr).
  - pose proof (merge_loop_length iou_threshold [] sorted) as Hlen.
    rewrite (Permutation_length Hperm) in Hlen. exact Hlen.
  - apply merge_loop_sorted. apply (py_sorted_reverse_sorted Roi.area).
Qed.

(** X11. Nothing is dropped without cause: every input ROI is either
    returned by [_merge_overlapping_rois], or its IoU with some returned ROI
    of at least its own area exceeds the threshold. *)
Theorem merge_dropped_overlap_kept (rois : list ROI) (iou_threshold : Q) :
  let merged := Merger._merge_overlapping_rois rois iou_threshold in
  Forall (fun r =>
            In r merged
            \/ exists k, In k merged /\ Roi.area r <= Roi.area k
                         /\ ~ (Merger._calculate_iou r k <= iou_threshold)%Q) rois.
Proof.
  intros merged. subst merged. apply Forall_forall. intros r Hr.
  unfold Merger._merge_overlapping_rois.
  destruct rois as [|r0 rois']; [contradiction|].
  apply dropped_or_kept.
  - apply (py_sorted_reverse_sorted Roi.area).
  - constructor.
  - apply (Permutation_in _ (Permutation_sym (py_sorted_reverse_perm Roi.area _)) Hr).
Qed.

(** X12. An empty input gives an empty result.  Otherwise the result
    starts with the largest input ROI, the earliest one in the input when
    several share the largest area; that ROI is never dropped. *)
Theorem merge_keeps_largest_first (rois : list ROI) (iou_threshold : Q) :
  match rois with
  | [] => Merger._merge_overlapping_rois rois iou_threshold = []
  | _ :: _ =>
      exists largest rest before after,
        Merger._merge_overlapping_rois rois iou_threshold = largest :: rest
        /\ rois = before ++ largest :: after
        /\ Forall (fun r => Roi.area r < Roi.area largest) before
        /\ Forall (fun r => Roi.area r <= Roi.area largest) after
  end.
Proof.
  destruct rois as [|r0 rois']; [reflexivity|].
  destruct (py_sorted_reverse_head Roi.area (r0 :: rois'))
    as (h & rest & l1 & l2 & Hsort & Hsplit & Hl1 & Hl2); [discriminate|].
  unfold Merger._merge_overlapping_rois. rewrite Hsort.
  cbn [Merger.merge_loop Merger.should_merge app].
  destruct (merge_loop_extends iou_threshold [h] rest) as (ext & Hext & _).
  exists h, ext, l1, l2. repeat split; assumption.
Qed.

(** X13. The extremes of the threshold.  With a negative threshold only
    the largest ROI survives.  With a threshold of 1 or more and boxes of
    positive width and height nothing is dropped: the result is the input
    sorted by area. *)
Theorem merge_threshold_extremes (rois : list ROI) (iou_threshold : Q) :
  ((iou_threshold < 0)%Q ->
   Merger._merge_overlapping_rois rois iou_threshold
   = firstn 1 (py_sorted_reverse Roi.area rois))
  /\ ((1 <= iou_threshold)%Q -> Forall Merger.positive_size rois ->
      Merger._merge_overlapping_rois rois iou_threshold
      = py_sorted_reverse Roi.area rois
      /\ Permutation (Merger._merge_overlapping_rois rois iou_threshold) rois).
Proof.
  split.
  - intros Hneg. unfold Merger._merge_overlapping_rois.
    destruct rois as [|r0 rois']; [reflexivity|].
    destruct (py_sorted_reverse Roi.area (r0 :: rois')) as [|h rest]; [reflexivity|].
    cbn [Merger.merge_loop Merger.should_merge app firstn].
    assert (Hall : forall l, Merger.merge_loop iou_threshold [h] l = [h]).
    { induction l as [|c l IH]; [reflexivity|].
      cbn [Merger.merge_loop Merger.should_merge].
      destruct (Qle_bool (Merger._calculate_iou c h) iou_threshold) eqn:Hle;
        [|exact IH].
      exfalso. apply Qle_bool_iff in Hle.
      pose proof (calculate_iou_nonneg c h) as Hpos.
      apply (Qlt_irrefl 0).
      eapply Qle_lt_trans; [exact Hpos|]. eapply Qle_lt_trans; [exact Hle | exact Hneg]. }
    apply Hall.
  - intros Hone Hpos.
    assert (Heq : Merger._merge_overlapping_rois rois iou_threshold
                  = py_sorted_reverse Roi.area rois).
    { unfold Merger._merge_overlapping_rois.
      destruct rois as [|r0 rois']; [reflexivity|].
      set (sorted := py_sorted_reverse Roi.area (r0 :: rois')).
      assert (Hsp : Forall Merger.positive_size sorted).
      { eapply Permutation_Forall; [|exact Hpos].
        apply Permutation_sym, py_sorted_reverse_perm. }
      apply (merge_loop_compatible iou_threshold [] sorted).
      generalize (@nil ROI) as kept.
      induction Hsp as [|c l Hc _ IH]; intros kept; cbn [Merger.compatible];
        [exact I|].
      split; [|apply IH].
      apply should_merge_false. unfold Merger.within_threshold.
      apply Forall_forall. intros k _.
      destruct (Z.ltb_spec 0 (Roi.width k)) as [Hw|Hw];
        [destruct (Z.ltb_spec 0 (Roi.height k)) as [Hh|Hh]|].
      + eapply Qle_trans; [|exact Hone].
        apply (calculate_iou_bounds c k Hc). split; assumption.
      + rewrite (proj2 (calculate_iou_degenerate k c (or_intror Hh))).
        eapply Qle_trans; [|exact Hone]. discriminate.
      + rewrite (proj2 (calculate_iou_degenerate k c (or_introl Hw))).
        eapply Qle_trans; [|exact Hone]. discriminate. }
    split; [exact Heq|]. rewrite Heq. apply py_sorted_reverse_perm.
Qed.

Lemma merge_threshold_extremes_witness :
  Merger._merge_overlapping_rois [Merger.sample_b; Merger.sample_a] (-1 # 2)
  = [Merger.sample_b]
  /\ Merger._merge_overlapping_rois [Merger.sample_b; Merger.sample_a] 1
     = [Merger.sample_b; Merger.sample_a].
Proof.
  split.
  - refine (proj1 (merge_threshold_extremes [Merger.sample_b; Merger.sample_a] (-1 # 2)) _).
    reflexivity.
  - refine (proj1 (proj2 (merge_threshold_extremes [Merger.sample_b; Merger.sample_a] 1)
                     _ _)).
    + discriminate.
    + repeat constructor.
Defined.

(** X14. The IoU is never negative, and it is 0 against every box, itself
    included, for an ROI of zero or negative width or height.  Such an ROI
    is therefore never dropped by [_merge_overlapping_rois] at a
    non-negative threshold. *)
Theorem degenerate_roi_never_merged (a b : ROI) :
  (0 <= Merger._calculate_iou a b)%Q
  /\ (Roi.width a <= 0 \/ Roi.height a <= 0 ->
      Merger._calculate_iou a b = 0%Q /\ Merger._calculate_iou b a = 0%Q
      /\ Merger._calculate_iou a a = 0%Q
      /\ forall rois iou_threshold,
           (0 <= iou_threshold)%Q -> In a rois ->
           In a (Merger._merge_overlapping_rois rois iou_threshold)).
Proof.
  split; [apply calculate_iou_nonneg|].
  intros Hdeg.
  destruct (calculate_iou_degenerate a b Hdeg) as [Hab Hba].
  split; [exact Hab|]. split; [exact Hba|].
  split; [exact (proj1 (calculate_iou_degenerate a a Hdeg))|].
  intros rois iou_threshold Hthr Hin.
  unfold Merger._merge_overlapping_rois.
  destruct rois as [|r0 rois']; [contradiction|].
  apply merge_loop_keeps.
  - intros kept. apply should_merge_false. unfold Merger.within_threshold.
    apply Forall_forall. intros k _.
    rewrite (proj1 (calculate_iou_degenerate a k Hdeg)). exact Hthr.
  - apply (Permutation_in _ (Permutation_sym (py_sorted_reverse_perm Roi.area _)) Hin).
Qed.

(** ** Detectors on contours and circles *)

Section DetectorFacts.
Import Numpy Detector.

Lemma circle_roi_fields (p : promotion) (pixmap : Qt.QPixmap)
    (fresh_id : nat -> string) (i : nat) (cx cy rad : Z) (roi : ROI) :
  circle_roi p pixmap fresh_id i (cx, cy, rad) = Returned roi ->
  Roi.is_circle roi = true
  /\ Roi.circle_center roi = Some (wrap16 cx, wrap16 cy)
  /\ Roi.circle_radius roi = Some (wrap16 rad)
  /\ Roi.name roi = ("circle_" ++ format_0d 2 (Z.of_nat i + 1))%string.
Proof.
  unfold circle_roi.
  repeat match goal with
         | |- context [bind ?m _] => destruct m; cbn [bind]; [|discriminate]
         end.
  intros [= <-]. cbn [Roi.is_circle Roi.circle_center Roi.circle_radius Roi.name value].
  repeat split.
Qed.

Lemma circle_rois_inside (p : promotion) (pixmap : Qt.QPixmap)
    (fresh_id : nat -> string) (hits : list (Z * Z * Z)) (i : nat) :
  Qt.width pixmap < 65536 -> Qt.height pixmap < 65536 ->
  Forall (interior_hit pixmap) hits ->
  exists rois,
    circle_rois p pixmap fresh_id i hits = Returned rois
    /\ Forall2 (hit_square pixmap) hits rois
    /\ Forall (fun r => bbox_in_image pixmap r /\ circle_in_bbox r) rois
    /\ map Roi.name rois
       = map (fun k => ("circle_" ++ format_0d 2 (Z.of_nat k + 1))%string)
           (seq i (List.length hits)).
Proof.
  intros Hw Hh Hall. revert i.
  induction Hall as [|[[cx cy] rad] hits Hhit _ IH]; intros i; cbn [circle_rois].
  - exists []. repeat split; constructor.
  - destruct Hhit as (Hrad & Hside & Hcx & Hcy).
    destruct (circle_roi_inside p pixmap fresh_id i cx cy rad Hrad Hside Hcx Hcy Hw Hh)
      as (roi & Hroi & Hx & Hy & Hwd & Hht & Hbox).
    destruct (circle_roi_fields _ _ _ _ _ _ _ _ Hroi) as (Hc & Hcc & Hcr & Hname).
    rewrite Hroi.
    destruct (IH (S i)) as (rois & -> & Hsq & Hboxes & Hnames).
    exists (roi :: rois). cbn [bind]. split; [reflexivity|]. split; [|split].
    + constructor; [|exact Hsq]. repeat split; assumption.
    + constructor; [|exact Hboxes]. split; [exact Hbox|].
      split; [exact Hc|]. exists cx, cy, rad.
      rewrite Hcc, Hcr, !wrap16_small by lia.
      repeat split; try lia; unfold Roi.right, Roi.bottom; lia.
    + cbn [map seq List.length]. rewrite Hname, Hnames. reflexivity.
Qed.

Lemma scan_contours_all (body : nat -> contour_info -> option ROI)
    (P : ROI -> Prop) (contours : list contour_info) (i : nat) :
  (forall j c r, In c contours -> body j c = Some r -> P r) ->
  Forall P (scan_contours body i contours).
Proof.
  revert i. induction contours as [|c rest IH]; intros i Hbody; cbn [scan_contours].
  - constructor.
  - assert (Hrest : Forall P (scan_contours body (S i) rest)).
    { apply IH. intros j c' r Hin. apply Hbody. right. exact Hin. }
    destruct (body i c) as [r|] eqn:Hc; [|exact Hrest].
    constructor; [|exact Hrest]. apply (Hbody i c r); [left; reflexivity | exact Hc].
Qed.

Lemma scan_contours_length (body : nat -> contour_info -> option ROI)
    (contours : list contour_info) (i : nat) :
  (List.length (scan_contours body i contours) <= List.length contours)%nat.
Proof.
  revert i. induction contours as [|c rest IH]; intros i; cbn [scan_contours List.length].
  - lia.
  - specialize (IH (S i)). destruct (body i c); cbn [List.length]; lia.
Qed.

Lemma py_int_bounds (q : Q) (n : Z) :
  (0 <= q)%Q -> (q < inject_Z n)%Q -> 0 <= py_int q < n.
Proof.
  destruct q as [num den]. unfold Qle, Qlt, py_int. cbn. intros Hpos Hlt.
  rewrite Z.quot_div_nonneg by lia.
  split; [apply Z.div_pos; lia|].
  apply Z.div_lt_upper_bound; lia.
Qed.

Lemma py_int_nonneg (q : Q) : (0 <= q)%Q -> 0 <= py_int q.
Proof.
  destruct q as [num den]. unfold Qle, py_int. cbn. intros Hpos.
  rewrite Z.quot_div_nonneg by lia. apply Z.div_pos; lia.
Qed.

Lemma red_dot_roi_inside (pixmap : Qt.QPixmap) (fresh_id : nat -> string)
    (i : nat) (c : contour_info) (r : ROI) :
  dot_inside pixmap c -> red_dot_roi pixmap fresh_id i c = Some r ->
  bbox_in_image pixmap r /\ circle_in_bbox r.
Proof.
  unfold dot_inside, red_dot_roi.
  destruct (minEnclosingCircle c) as [[fx fy] fr].
  intros (Hx0 & Hx1 & Hy0 & Hy1 & Hr).
  destruct (negb _ || negb _); [discriminate|].
  destruct (Qle_bool (arcLength c) 0); [discriminate|].
  destruct (Qle_bool _ float_0_6); [discriminate|].
  intros [= <-].
  pose proof (py_int_bounds fx _ Hx0 Hx1) as Hcx.
  pose proof (py_int_bounds fy _ Hy0 Hy1) as Hcy.
  pose proof (py_int_nonneg fr Hr) as Hrad.
  set (cx := py_int fx) in *. set (cy := py_int fy) in *. set (rad := py_int fr) in *.
  unfold bbox_in_image, circle_in_bbox, Merger.covers, Roi.right, Roi.bottom.
  cbn [as_circle with_name Roi.set_name Roi.make Roi.x Roi.y Roi.width Roi.height
       Roi.is_circle Roi.circle_center Roi.circle_radius fst snd].
  split; [lia|]. split; [reflexivity|].
  exists cx, cy, rad. repeat split; try reflexivity; lia.
Qed.

Lemma circle_rois_legacy_returns (pixmap : Qt.QPixmap)
    (fresh_id : nat -> string) (hits : list (Z * Z * Z)) (i : nat) :
  exists rois, circle_rois Legacy pixmap fresh_id i hits = Returned rois.
Proof.
  revert i. induction hits as [|[[cx cy] rad] hits IH]; intros i; cbn [circle_rois].
  - exists []. reflexivity.
  - destruct (IH (S i)) as (rois & ->).
    unfold circle_roi. cbn [binop bind]. unfold py_max.
    destruct (_ <? _); destruct (_ <? _); cbn [binop bind]; eexists; reflexivity.
Qed.

Lemma rename_auto_names (merged : list ROI) (i : nat) :
  map Roi.name (rename_auto i merged)
  = map (fun k => ("auto_" ++ format_0d 2 (Z.of_nat k + 1))%string)
      (seq i (List.length merged)).
Proof.
  revert i. induction merged as [|r rest IH]; intros i; [reflexivity|].
  cbn [rename_auto map seq List.length]. rewrite IH. reflexivity.
Qed.

Lemma rename_auto_in (merged : list ROI) (i : nat) (r : ROI) :
  In r (rename_auto i merged) ->
  exists m, In m merged /\ r = with_name (Roi.name r) m.
Proof.
  revert i. induction merged as [|m rest IH]; intros i; cbn [rename_auto]; [intros []|].
  intros [<-|Hin].
  - exists m. split; [left; reflexivity | reflexivity].
  - destruct (IH _ Hin) as (m' & Hm' & Heq). exists m'. split; [right; exact Hm' | exact Heq].
Qed.

Lemma rename_auto_length (merged : list ROI) (i : nat) :
  List.length (rename_auto i merged) = List.length merged.
Proof.
  revert i. induction merged as [|m rest IH]; intros i; cbn [rename_auto List.length];
    [reflexivity | rewrite IH; reflexivity].
Qed.

(** A relation that does not look at the names holds of the renamed ROIs as
    it held before. *)
Lemma rename_auto_pairs (R : ROI -> ROI -> Prop) (merged : list ROI) (i : nat) :
  (forall a b s t, R a b -> R (with_name s a) (with_name t b)) ->
  ForallOrdPairs R merged -> ForallOrdPairs R (rename_auto i merged).
Proof.
  intros Hname Hpairs. revert i.
  induction Hpairs as [|a l Ha _ IH]; intros i; cbn [rename_auto]; constructor.
  - apply Forall_forall. intros b Hb.
    destruct (rename_auto_in _ _ _ Hb) as (m & Hm & ->).
    apply Hname. exact (proj1 (Forall_forall _ _) Ha m Hm).
  - apply IH.
Qed.

End DetectorFacts.

(** ** Rounding to the nearest double *)

Section RoundingFacts.
Import Ieee.

Lemma round_half_even_near (n d : Z) :
  0 < d -> - d <= 2 * (round_half_even n d * d - n) <= d.
Proof.
  intros Hd. unfold round_half_even.
  pose proof (Z.div_mod n d ltac:(lia)) as Hdiv.
  pose proof (Z.mod_pos_bound n d Hd) as Hr.
  set (q := n / d) in *. set (r := n mod d) in *.
  destruct (Z.ltb_spec (2 * r) d); [nia|].
  destruct (Z.ltb_spec d (2 * r)); [nia|].
  destruct (Z.even q); nia.
Qed.

Lemma scaled_exponent_lower (n d : Z) :
  0 < n -> 0 < d ->
  0 < fst (scaled n d (exponent n d)) /\ 0 < snd (scaled n d (exponent n d))
  /\ 2 ^ 52 * snd (scaled n d (exponent n d)) <= fst (scaled n d (exponent n d)).
Proof.
  intros Hn Hd.
  pose proof (Z.log2_spec n Hn) as Ha. pose proof (Z.log2_spec d Hd) as Hb.
  pose proof (Z.log2_nonneg n) as Ha0. pose proof (Z.log2_nonneg d) as Hb0.
  rewrite Z.pow_succ_r in Ha, Hb by assumption.
  unfold exponent.
  set (a := Z.log2 n) in *. set (b := Z.log2 d) in *.
  set (e0 := a - b - 52).
  assert (H52 : 0 < 2 ^ 52) by (apply Z.pow_pos_nonneg; lia).
  assert (HB : 0 < 2 ^ b) by (apply Z.pow_pos_nonneg; lia).
  assert (HA : 0 < 2 ^ a) by (apply Z.pow_pos_nonneg; lia).
  destruct (Z.leb_spec 0 e0) as [He0|He0].
  - assert (Hs0 : scaled n d e0 = (n, d * 2 ^ e0)).
    { unfold scaled. destruct (Z.leb_spec 0 e0); [reflexivity | lia]. }
    rewrite Hs0.
    assert (HE : 0 < 2 ^ e0) by (apply Z.pow_pos_nonneg; lia).
    assert (Hrel : 2 ^ a = 2 ^ b * 2 ^ 52 * 2 ^ e0).
    { rewrite <- !Z.pow_add_r by lia. f_equal. unfold e0. lia. }
    destruct (Z.ltb_spec n (2 ^ 52 * (d * 2 ^ e0))) as [Hlt|Hge].
    + unfold scaled. destruct (Z.leb_spec 0 (e0 - 1)) as [He1|He1]; cbn [fst snd].
      * assert (HF : 0 < 2 ^ (e0 - 1)) by (apply Z.pow_pos_nonneg; lia).
        assert (HEF : 2 ^ e0 = 2 * 2 ^ (e0 - 1)).
        { rewrite <- Z.pow_succ_r by lia. f_equal. lia. }
        split; [lia|]. split; [nia|]. nia.
      * assert (Hz : e0 = 0) by lia.
        replace (- (e0 - 1)) with 1 by lia. change (2 ^ 1) with 2.
        assert (HE1 : 2 ^ e0 = 1) by (rewrite Hz; reflexivity).
        split; [lia|]. split; [lia|]. nia.
    + rewrite Hs0. cbn [fst snd].
      split; [lia|]. split; [nia|]. lia.
  - assert (Hs0 : scaled n d e0 = (n * 2 ^ (- e0), d)).
    { unfold scaled. destruct (Z.leb_spec 0 e0); [lia | reflexivity]. }
    rewrite Hs0.
    assert (HE : 0 < 2 ^ (- e0)) by (apply Z.pow_pos_nonneg; lia).
    assert (Hrel : 2 ^ a * 2 ^ (- e0) = 2 ^ b * 2 ^ 52).
    { rewrite <- !Z.pow_add_r by lia. f_equal. unfold e0. lia. }
    destruct (Z.ltb_spec (n * 2 ^ (- e0)) (2 ^ 52 * d)) as [Hlt|Hge].
    + unfold scaled. destruct (Z.leb_spec 0 (e0 - 1)); [lia|]. cbn [fst snd].
      assert (HEF : 2 ^ (- (e0 - 1)) = 2 * 2 ^ (- e0)).
      { rewrite <- Z.pow_succ_r by lia. f_equal. lia. }
      rewrite HEF. split; [nia|]. split; [lia|]. nia.
    + rewrite Hs0. cbn [fst snd].
      split; [nia|]. split; [lia|]. lia.
Qed.

Lemma scaled_exponent_upper (n d : Z) :
  0 < n -> 0 < d ->
  fst (scaled n d (exponent n d)) < 2 ^ 53 * snd (scaled n d (exponent n d)).
Proof.
  intros Hn Hd.
  pose proof (Z.log2_spec n Hn) as Ha. pose proof (Z.log2_spec d Hd) as Hb.
  pose proof (Z.log2_nonneg n) as Ha0. pose proof (Z.log2_nonneg d) as Hb0.
  rewrite Z.pow_succ_r in Ha, Hb by assumption.
  unfold exponent.
  set (a := Z.log2 n) in *. set (b := Z.log2 d) in *.
  set (e0 := a - b - 52).
  assert (H52 : 0 < 2 ^ 52) by (apply Z.pow_pos_nonneg; lia).
  assert (H53 : 2 ^ 53 = 2 * 2 ^ 52) by reflexivity.
  assert (HB : 0 < 2 ^ b) by (apply Z.pow_pos_nonneg; lia).
  assert (HA : 0 < 2 ^ a) by (apply Z.pow_pos_nonneg; lia).
  destruct (Z.leb_spec 0 e0) as [He0|He0].
  - assert (Hs0 : scaled n d e0 = (n, d * 2 ^ e0)).
    { unfold scaled. destruct (Z.leb_spec 0 e0); [reflexivity | lia]. }
    rewrite Hs0.
    assert (HE : 0 < 2 ^ e0) by (apply Z.pow_pos_nonneg; lia).
    assert (Hrel : 2 ^ a = 2 ^ b * 2 ^ 52 * 2 ^ e0).
    { rewrite <- !Z.pow_add_r by lia. f_equal. unfold e0. lia. }
    destruct (Z.ltb_spec n (2 ^ 52 * (d * 2 ^ e0))) as [Hlt|Hge].
    + unfold scaled. destruct (Z.leb_spec 0 (e0 - 1)) as [He1|He1]; cbn [fst snd].
      * assert (HF : 0 < 2 ^ (e0 - 1)) by (apply Z.pow_pos_nonneg; lia).
        assert (HEF : 2 ^ e0 = 2 * 2 ^ (e0 - 1)).
        { rewrite <- Z.pow_succ_r by lia. f_equal. lia. }
        nia.
      * assert (Hz : e0 = 0) by lia.
        replace (- (e0 - 1)) with 1 by lia. change (2 ^ 1) with 2.
        assert (HE1 : 2 ^ e0 = 1) by (rewrite Hz; reflexivity).
        nia.
    + rewrite Hs0. cbn [fst snd]. nia.
  - assert (Hs0 : scaled n d e0 = (n * 2 ^ (- e0), d)).
    { unfold scaled. destruct (Z.leb_spec 0 e0); [lia | reflexivity]. }
    rewrite Hs0.
    assert (HE : 0 < 2 ^ (- e0)) by (apply Z.pow_pos_nonneg; lia).
    assert (Hrel : 2 ^ a * 2 ^ (- e0) = 2 ^ b * 2 ^ 52).
    { rewrite <- !Z.pow_add_r by lia. f_equal. unfold e0. lia. }
    destruct (Z.ltb_spec (n * 2 ^ (- e0)) (2 ^ 52 * d)) as [Hlt|Hge].
    + unfold scaled. destruct (Z.leb_spec 0 (e0 - 1)); [lia|]. cbn [fst snd].
      assert (HEF : 2 ^ (- (e0 - 1)) = 2 * 2 ^ (- e0)).
      { rewrite <- Z.pow_succ_r by lia. f_equal. lia. }
      rewrite HEF. nia.
    + rewrite Hs0. cbn [fst snd]. nia.
Qed.

(** The mantissa chosen is within half a unit of the scaled value, which is
    at least [2^52]: one rounding changes a positive value by at most one
    part in [2^53]. *)
Lemma mantissa_bounds (n d : Z) :
  0 < n -> 0 < d ->
  let e := exponent n d in
  let N := fst (scaled n d e) in
  let D := snd (scaled n d e) in
  let m := round_half_even N D in
  0 < N /\ 0 < D
  /\ (2 ^ 53 - 1) * N <= 2 ^ 53 * (m * D) <= (2 ^ 53 + 1) * N.
Proof.
  intros Hn Hd e N D m.
  destruct (scaled_exponent_lower n d Hn Hd) as (HN & HD & Hlow).
  fold e in HN, HD, Hlow. fold N in HN, Hlow. fold D in HD, Hlow.
  pose proof (round_half_even_near N D HD) as Hnear. fold m in Hnear.
  assert (H52 : 2 ^ 52 = 4503599627370496) by reflexivity.
  assert (H53 : 2 ^ 53 = 9007199254740992) by reflexivity.
  rewrite H52 in Hlow. rewrite H53.
  split; [exact HN|]. split; [exact HD|]. lia.
Qed.

Lemma fl_pos_bounds (n d : positive) :
  ((Z.pos n # d) * (9007199254740991 # 9007199254740992)
   <= fl_pos (Z.pos n) (Z.pos d))%Q
  /\ (fl_pos (Z.pos n) (Z.pos d)
      <= (Z.pos n # d) * (9007199254740993 # 9007199254740992))%Q.
Proof.
  pose proof (mantissa_bounds (Z.pos n) (Z.pos d) ltac:(lia) ltac:(lia)) as Hm.
  cbv zeta in Hm. unfold fl_pos.
  assert (Hzn : 0 < Z.pos n) by lia. assert (Hzd : 0 < Z.pos d) by lia.
  unfold Qle, Qmult. cbn [Qnum Qden]. rewrite !Pos2Z.inj_mul.
  remember (Z.pos n) as zn eqn:Ezn. remember (Z.pos d) as zd eqn:Ezd.
  clear Ezn Ezd n d.
  set (e := exponent zn zd) in *.
  destruct (scaled zn zd e) as [N D] eqn:Hs. cbn [fst snd] in Hm.
  set (m := round_half_even N D) in *.
  destruct Hm as (HN & HD & Hlo & Hhi).
  assert (H53 : 2 ^ 53 = 9007199254740992) by reflexivity.
  rewrite H53 in Hlo, Hhi.
  unfold scaled in Hs.
  destruct (Z.leb_spec 0 e) as [He|He]; injection Hs as HeqN HeqD.
  - assert (HE : 0 < 2 ^ e) by (apply Z.pow_pos_nonneg; lia).
    unfold inject_Z. cbn [Qnum Qden]. subst N D. split; nia.
  - assert (HE : 0 < 2 ^ (- e)) by (apply Z.pow_pos_nonneg; lia).
    cbn [Qnum Qden]. rewrite Z2Pos.id by exact HE. subst N D. split; nia.
Qed.

Lemma fl_zero (q : Q) : Qnum q = 0 -> fl q = 0%Q.
Proof. intros Hq. unfold fl. rewrite Hq. reflexivity. Qed.

(** One rounding of a positive value. *)
Lemma fl_bounds (q : Q) :
  (0 < q)%Q ->
  (q * (9007199254740991 # 9007199254740992) <= fl q)%Q
  /\ (fl q <= q * (9007199254740993 # 9007199254740992))%Q.
Proof.
  destruct q as [num den]. unfold Qlt. cbn [Qnum Qden]. intros Hpos.
  unfold fl. cbn [Qnum Qden].
  destruct num as [|n|n]; try lia.
  apply fl_pos_bounds.
Qed.

Lemma fl_nonpos (q : Q) : (q <= 0)%Q -> (fl q <= 0)%Q.
Proof.
  destruct q as [num den]. unfold Qle at 1. cbn [Qnum Qden]. intros Hneg.
  unfold fl. cbn [Qnum Qden].
  destruct num as [|n|n]; try lia.
  - apply Qle_refl.
  - destruct (fl_pos_bounds n den) as [Hlo _].
    apply (Qopp_le_compat 0). eapply Qle_trans; [|exact Hlo].
    unfold Qle, Qmult. cbn. lia.
Qed.



Lemma round_half_even_multiple (k d : Z) : 0 < d -> round_half_even (k * d) d = k.
Proof.
  intros Hd. unfold round_half_even.
  rewrite Z.div_mul, Z.mod_mul by lia.
  destruct (Z.ltb_spec (2 * 0) d); [reflexivity | lia].
Qed.

(** A power of two below another one. *)
Lemma pow2_le_inv (a b : Z) : 0 <= a -> 0 <= b -> 2 ^ a < 2 * 2 ^ b -> a <= b.
Proof.
  intros Ha Hb Hlt. destruct (Z.le_gt_cases a b) as [|Hgt]; [assumption|].
  exfalso. assert (Hle : 2 ^ (b + 1) <= 2 ^ a) by (apply Z.pow_le_mono_r; lia).
  rewrite Z.pow_add_r in Hle by lia. change (2 ^ 1) with 2 in Hle. lia.
Qed.

(** A fraction that is a 53-bit integer times a power of two is its own
    rounding. *)
Lemma fl_pos_exact (n d M a b : Z) :
  0 < n -> 0 < d -> 0 < M < 2 ^ 53 -> 0 <= a -> 0 <= b ->
  n * 2 ^ a = M * d * 2 ^ b ->
  (fl_pos n d == Qmake n (Z.to_pos d))%Q.
Proof.
  intros Hn Hd HM Ha Hb Heq.
  destruct (scaled_exponent_lower n d Hn Hd) as (HN & HD & Hlow).
  unfold fl_pos. set (e := exponent n d) in *.
  assert (HA : 0 < 2 ^ a) by (apply Z.pow_pos_nonneg; lia).
  assert (HB : 0 < 2 ^ b) by (apply Z.pow_pos_nonneg; lia).
  assert (H53 : 2 ^ 53 = 2 * 2 ^ 52) by reflexivity.
  assert (H52 : 0 < 2 ^ 52) by reflexivity.
  (* the scaled pair is a multiple: N * 2^a' = M * D * 2^b' *)
  assert (Hmult : exists k, 0 < k /\ fst (scaled n d e) = k * snd (scaled n d e)).
  { unfold scaled in *. destruct (Z.leb_spec 0 e) as [He|He]; cbn [fst snd] in *.
    - assert (HE : 0 < 2 ^ e) by (apply Z.pow_pos_nonneg; lia).
      (* n * 2^(a+e) = M * (d * 2^e) * 2^b,  2^52 * d * 2^e <= n *)
      assert (Hab : a + e <= b).
      { apply pow2_le_inv; try lia. rewrite Z.pow_add_r by lia.
        apply (Z.mul_lt_mono_pos_l (2 ^ 52 * d)); [nia|]. nia. }
      exists (M * 2 ^ (b - (a + e))).
      assert (HC : 0 < 2 ^ (b - (a + e))) by (apply Z.pow_pos_nonneg; lia).
      split; [nia|].
      apply (Z.mul_cancel_r _ _ (2 ^ a)); [lia|].
      rewrite Heq.
      replace b with ((b - (a + e)) + e + a) at 1 by lia.
      rewrite !Z.pow_add_r by lia. ring.
    - assert (HE : 0 < 2 ^ (- e)) by (apply Z.pow_pos_nonneg; lia).
      (* n * 2^(-e) * 2^a = M * d * 2^(b - e) *)
      assert (Hab : a <= b + (- e)).
      { apply pow2_le_inv; try lia. rewrite Z.pow_add_r by lia.
        apply (Z.mul_lt_mono_pos_l (2 ^ 52 * d)); [nia|]. nia. }
      exists (M * 2 ^ (b + (- e) - a)).
      assert (HC : 0 < 2 ^ (b + (- e) - a)) by (apply Z.pow_pos_nonneg; lia).
      split; [nia|].
      apply (Z.mul_cancel_r _ _ (2 ^ a)); [lia|].
      replace (n * 2 ^ (- e) * 2 ^ a) with (n * 2 ^ a * 2 ^ (- e)) by ring.
      rewrite Heq.
      replace (M * 2 ^ (b + - e - a) * d * 2 ^ a)
        with (M * d * (2 ^ (b + - e - a) * 2 ^ a)) by ring.
      rewrite <- Z.pow_add_r by lia.
      replace (b + - e - a + a) with (b + - e) by lia.
      rewrite Z.pow_add_r by lia. ring. }
  destruct Hmult as (k & Hk & Hmult).
  destruct (scaled n d e) as [N D] eqn:Hs. cbn [fst snd] in *.
  rewrite Hmult, (round_half_even_multiple k D HD).
  unfold scaled in Hs.
  unfold Qeq. cbn [Qnum Qden].
  destruct (Z.leb_spec 0 e) as [He|He]; injection Hs as HeqN HeqD.
  - unfold inject_Z. cbn [Qnum Qden]. rewrite Z2Pos.id by lia. subst N D. nia.
  - assert (HE : 0 < 2 ^ (- e)) by (apply Z.pow_pos_nonneg; lia).
    cbn [Qnum Qden]. rewrite !Z2Pos.id by lia. subst N D. nia.
Qed.

Lemma fl_exact (q : Q) (M a b : Z) :
  0 < M < 2 ^ 53 -> 0 <= a -> 0 <= b ->
  (q * inject_Z (2 ^ a) == inject_Z (M * 2 ^ b))%Q ->
  (fl q == q)%Q.
Proof.
  intros HM Ha Hb Heq. destruct q as [num den].
  assert (HA : 0 < 2 ^ a) by (apply Z.pow_pos_nonneg; lia).
  assert (HB : 0 < 2 ^ b) by (apply Z.pow_pos_nonneg; lia).
  unfold Qeq, Qmult, inject_Z in Heq. cbn [Qnum Qden] in Heq.
  rewrite Pos.mul_1_r, Z.mul_1_r in Heq.
  unfold fl. cbn [Qnum Qden].
  destruct num as [|n|n].
  - exfalso. nia.
  - rewrite (fl_pos_exact (Z.pos n) (Z.pos den) M a b); try lia.
    reflexivity.
  - exfalso. assert (Z.neg n * 2 ^ a < 0) by nia. nia.
Qed.

Lemma of_int_exact (k : Z) : - 2 ^ 53 < k < 2 ^ 53 -> (of_int k == inject_Z k)%Q.
Proof.
  intros Hk. unfold of_int.
  destruct k as [|p|p].
  - reflexivity.
  - apply (fl_exact _ (Z.pos p) 0 0); try lia.
    change (2 ^ 0) with 1. rewrite Qmult_1_r, Z.mul_1_r. reflexivity.
  - unfold fl, inject_Z. cbn [Qnum Qden].
    rewrite (fl_pos_exact (Z.pos p) 1 (Z.pos p) 0 0); try lia.
    reflexivity.
Qed.

End RoundingFacts.

Section QuotientFacts.
Import Ieee.

Lemma inject_Z_pos (h : Z) : 0 < h -> (0 < inject_Z h)%Q.
Proof. intros Hh. change 0%Q with (inject_Z 0). rewrite <- Zlt_Qlt. exact Hh. Qed.

Lemma quotient_pos (w h : Z) : 0 < w -> 0 < h -> (0 < inject_Z w / inject_Z h)%Q.
Proof.
  intros Hw Hh. apply Qlt_shift_div_l; [apply inject_Z_pos, Hh|].
  rewrite Qmult_0_l. apply inject_Z_pos, Hw.
Qed.

Lemma quotient_nonpos (w h : Z) : w <= 0 -> 0 < h -> (inject_Z w / inject_Z h <= 0)%Q.
Proof.
  intros Hw Hh. apply Qle_shift_div_r; [apply inject_Z_pos, Hh|].
  rewrite Qmult_0_l. change 0%Q with (inject_Z 0). rewrite <- Zle_Qle. exact Hw.
Qed.

(** What a bound on the rounded quotient of two integers says of the
    integers. *)
Lemma fl_quotient_upper (q : Q) (w h n : Z) (d : positive) :
  (q == inject_Z w / inject_Z h)%Q -> 0 < w -> 0 < h ->
  (fl q <= n # d)%Q ->
  w * (2 ^ 53 - 1) * Z.pos d <= n * h * 2 ^ 53.
Proof.
  intros Hq Hw Hh Hle.
  assert (Hpos : (0 < q)%Q) by (rewrite Hq; apply quotient_pos; assumption).
  destruct (fl_bounds q Hpos) as [Hlo _].
  assert (Hb : (inject_Z w / inject_Z h * (9007199254740991 # 9007199254740992)
                <= n # d)%Q).
  { rewrite <- Hq. eapply Qle_trans; [exact Hlo | exact Hle]. }
  assert (Hm : (inject_Z w * (9007199254740991 # 9007199254740992)
                <= (n # d) * inject_Z h)%Q).
  { apply (Qmult_le_r _ _ (/ inject_Z h)).
    - apply Qinv_lt_0_compat, inject_Z_pos, Hh.
    - rewrite <- (Qmult_assoc (n # d)), Qmult_inv_r, Qmult_1_r.
      + eapply Qle_trans; [|exact Hb]. unfold Qdiv.
        rewrite <- !Qmult_assoc, (Qmult_comm (_ # _) (/ _)). apply Qle_refl.
      + intros Hz. pose proof (inject_Z_pos h Hh) as Hp. rewrite Hz in Hp. discriminate. }
  unfold Qle, Qmult, inject_Z in Hm. cbn [Qnum Qden] in Hm.
  change (2 ^ 53) with 9007199254740992.
  rewrite !Pos2Z.inj_mul in Hm. lia.
Qed.

Lemma fl_quotient_lower (q : Q) (w h n : Z) (d : positive) :
  (q == inject_Z w / inject_Z h)%Q -> 0 < w -> 0 < h ->
  (n # d <= fl q)%Q ->
  n * h * 2 ^ 53 <= w * (2 ^ 53 + 1) * Z.pos d.
Proof.
  intros Hq Hw Hh Hle.
  assert (Hpos : (0 < q)%Q) by (rewrite Hq; apply quotient_pos; assumption).
  destruct (fl_bounds q Hpos) as [_ Hhi].
  assert (Hb : (n # d
                <= inject_Z w / inject_Z h * (9007199254740993 # 9007199254740992))%Q).
  { rewrite <- Hq. eapply Qle_trans; [exact Hle | exact Hhi]. }
  assert (Hm : ((n # d) * inject_Z h
                <= inject_Z w * (9007199254740993 # 9007199254740992))%Q).
  { apply (Qmult_le_r _ _ (/ inject_Z h)).
    - apply Qinv_lt_0_compat, inject_Z_pos, Hh.
    - rewrite <- (Qmult_assoc (n # d)), Qmult_inv_r, Qmult_1_r.
      + eapply Qle_trans; [exact Hb|]. unfold Qdiv.
        rewrite <- !Qmult_assoc, (Qmult_comm (_ # _) (/ _)). apply Qle_refl.
      + intros Hz. pose proof (inject_Z_pos h Hh) as Hp. rewrite Hz in Hp. discriminate. }
  unfold Qle, Qmult, inject_Z in Hm. cbn [Qnum Qden] in Hm.
  change (2 ^ 53) with 9007199254740992.
  rewrite !Pos2Z.inj_mul in Hm. lia.
Qed.

Lemma fl_quotient_nonpos (q : Q) (w h : Z) :
  (q == inject_Z w / inject_Z h)%Q -> w <= 0 -> 0 < h -> (fl q <= 0)%Q.
Proof.
  intros Hq Hw Hh. apply fl_nonpos. rewrite Hq. apply quotient_nonpos; assumption.
Qed.

(** Halving a float below [2^53] is exact. *)
Lemma half_exact (A : Z) :
  0 < A < 2 ^ 53 -> (mul (of_int A) (1 # 2) == inject_Z A * (1 # 2))%Q.
Proof.
  intros HA. unfold mul.
  assert (Hof : (of_int A == inject_Z A)%Q) by (apply of_int_exact; lia).
  transitivity (of_int A * (1 # 2))%Q; [|rewrite Hof; reflexivity].
  apply (fl_exact _ A 1 0); try lia.
  rewrite Hof. change (2 ^ 1) with 2. change (2 ^ 0) with 1. rewrite Z.mul_1_r.
  rewrite <- Qmult_assoc. setoid_replace ((1 # 2) * inject_Z 2)%Q with 1%Q by reflexivity.
  apply Qmult_1_r.
Qed.

Lemma of_int_nonpos (k : Z) : k <= 0 -> (of_int k <= 0)%Q.
Proof.
  intros Hk. apply fl_nonpos. change 0%Q with (inject_Z 0). rewrite <- Zle_Qle. exact Hk.
Qed.

Lemma mul_nonpos (a b : Q) : (a <= 0)%Q -> (0 <= b)%Q -> (mul a b <= 0)%Q.
Proof.
  intros Ha Hb. apply fl_nonpos.
  setoid_replace 0%Q with (0 * b)%Q by (rewrite Qmult_0_l; reflexivity).
  apply Qmult_le_compat_r; assumption.
Qed.

End QuotientFacts.

Section ContourFacts.
Import Numpy Detector.

(** [scan_contours] numbers the ROIs by the position of their contour. *)
Lemma scan_contours_nth (body : nat -> contour_info -> option ROI)
    (P : ROI -> Prop) (contours : list contour_info) (i : nat) :
  (forall j c r, nth_error contours j = Some c -> body (i + j)%nat c = Some r -> P r) ->
  Forall P (scan_contours body i contours).
Proof.
  revert i. induction contours as [|c rest IH]; intros i Hbody; cbn [scan_contours].
  - constructor.
  - assert (Hrest : Forall P (scan_contours body (S i) rest)).
    { apply IH. intros j c' r Hnth Hr. apply (Hbody (S j) c' r); [exact Hnth|].
      rewrite <- Hr. f_equal. lia. }
    destruct (body i c) as [r|] eqn:Hc; [|exact Hrest].
    constructor; [|exact Hrest]. apply (Hbody 0%nat c r); [reflexivity|].
    rewrite Nat.add_0_r. exact Hc.
Qed.

Lemma button_roi_shape (pixmap : Qt.QPixmap) (fresh_id : nat -> string)
    (i : nat) (c : contour_info) (r : ROI) :
  Qt.width pixmap * Qt.height pixmap < 2 ^ 53 -> int_rect c ->
  button_roi pixmap fresh_id i c = Some r ->
  boundingRect c = geometry r
  /\ 0 < Roi.width r /\ 0 < Roi.height r
  /\ Roi.height r <= 10 * Roi.width r /\ Roi.width r <= 10 * Roi.height r
  /\ (4 <= approx_vertices c)%nat
  /\ (200 <= contourArea c)%Q
  /\ (contourArea c <= inject_Z (Qt.width pixmap * Qt.height pixmap) * (1 # 2))%Q
  /\ Roi.name r = ("button_" ++ format_0d 2 (Z.of_nat i + 1))%string.
Proof.
  intros Hsmall Hrect. unfold button_roi, int_rect in *.
  destruct (Qle_bool 200 (contourArea c)) eqn:Hlo; [|discriminate].
  destruct (Qle_bool (contourArea c) _) eqn:Hhi; [|discriminate].
  cbn [negb orb].
  destruct (boundingRect c) as [[[x y] w] h].
  destruct Hrect as [Hwfit Hhfit]. unfold Collection.fits_int in Hwfit, Hhfit.
  change (2 ^ 31) with 2147483648 in Hwfit, Hhfit.
  destruct (Z.ltb_spec 0 h) as [Hh|Hh]; [|discriminate].
  destruct (Qle_bool float_0_1 _) eqn:Hmin; [|discriminate].
  destruct (Qle_bool _ 10) eqn:Hmax; [|discriminate].
  cbn [negb orb].
  destruct (Nat.leb_spec 4 (approx_vertices c)) as [Hv|Hv]; [|discriminate].
  intros [= <-].
  apply Qle_bool_iff in Hlo. apply Qle_bool_iff in Hhi.
  apply Qle_bool_iff in Hmin. apply Qle_bool_iff in Hmax.
  assert (Hq : (Ieee.of_int w / Ieee.of_int h == inject_Z w / inject_Z h)%Q).
  { rewrite (of_int_exact w), (of_int_exact h);
      [reflexivity | | ]; change (2 ^ 53) with 9007199254740992; lia. }
  assert (Hw : 0 < w).
  { destruct (Z.lt_ge_cases 0 w) as [|Hneg]; [assumption|]. exfalso.
    pose proof (fl_quotient_nonpos _ w h Hq Hneg Hh) as Hz.
    pose proof (Qle_trans _ _ _ Hmin Hz) as Habs.
    unfold Qle, float_0_1 in Habs. cbn in Habs. lia. }
  pose proof (fl_quotient_lower _ w h _ _ Hq Hw Hh Hmin) as Hlow.
  pose proof (fl_quotient_upper _ w h _ _ Hq Hw Hh Hmax) as Hupp.
  change (2 ^ 53) with 9007199254740992 in Hlow, Hupp.
  assert (Harea : (contourArea c
                   <= inject_Z (Qt.width pixmap * Qt.height pixmap) * (1 # 2))%Q).
  { destruct (Z.lt_ge_cases 0 (Qt.width pixmap * Qt.height pixmap)) as [Hpos|Hneg].
    - rewrite <- half_exact by lia. exact Hhi.
    - exfalso.
      pose proof (mul_nonpos _ (1 # 2) (of_int_nonpos _ Hneg) ltac:(discriminate)) as Hz.
      pose proof (Qle_trans _ _ _ Hlo (Qle_trans _ _ _ Hhi Hz)) as Habs.
      unfold Qle in Habs. cbn in Habs. lia. }
  unfold geometry.
  cbn [with_name Roi.set_name Roi.make Roi.x Roi.y Roi.width Roi.height Roi.name].
  repeat split; try assumption; lia.
Qed.

Lemma icon_roi_shape (pixmap : Qt.QPixmap) (fresh_id : nat -> string)
    (i : nat) (c : contour_info) (r : ROI) :
  Qt.width pixmap * Qt.height pixmap < 2 ^ 53 -> int_rect c ->
  icon_roi pixmap fresh_id i c = Some r ->
  boundingRect c = geometry r
  /\ (0 < Z.min (Roi.width r) (Roi.height r) ->
      Roi.width r <= 2 * Roi.height r /\ Roi.height r <= 2 * Roi.width r)
  /\ (100 <= contourArea c)%Q
  /\ (contourArea c
      <= Ieee.mul (Ieee.of_int (Qt.width pixmap * Qt.height pixmap)) float_0_3)%Q
  /\ (contourArea c
      <= inject_Z (Qt.width pixmap * Qt.height pixmap) * (3 # 10)
         * (9007199254740993 # 9007199254740992))%Q
  /\ Roi.name r = ("icon_" ++ format_0d 2 (Z.of_nat i + 1))%string.
Proof.
  intros Hsmall Hrect. unfold icon_roi, int_rect in *.
  destruct (Qle_bool 100 (contourArea c)) eqn:Hlo; [|discriminate].
  destruct (Qle_bool (contourArea c) _) eqn:Hhi; [|discriminate].
  cbn [negb orb].
  destruct (boundingRect c) as [[[x y] w] h].
  destruct Hrect as [Hwfit Hhfit]. unfold Collection.fits_int in Hwfit, Hhfit.
  change (2 ^ 31) with 2147483648 in Hwfit, Hhfit.
  destruct (Qle_bool _ 2) eqn:Hmax; [|discriminate].
  cbn [negb]. intros [= <-].
  apply Qle_bool_iff in Hlo. apply Qle_bool_iff in Hhi. apply Qle_bool_iff in Hmax.
  assert (Hratio : 0 < Z.min w h -> w <= 2 * h /\ h <= 2 * w).
  { intros Hm. destruct (Z.ltb_spec 0 (Z.min w h)) as [_|]; [|lia].
    unfold Ieee.int_truediv in Hmax.
    pose proof (fl_quotient_upper _ (Z.max w h) (Z.min w h) _ _
                  (Qeq_refl _) ltac:(lia) Hm Hmax) as Hupp.
    change (2 ^ 53) with 9007199254740992 in Hupp. lia. }
  assert (Harea : (contourArea c
                   <= inject_Z (Qt.width pixmap * Qt.height pixmap) * (3 # 10)
                      * (9007199254740993 # 9007199254740992))%Q).
  { destruct (Z.lt_ge_cases 0 (Qt.width pixmap * Qt.height pixmap)) as [Hpos|Hneg].
    - assert (Hof : (Ieee.of_int (Qt.width pixmap * Qt.height pixmap)
                     == inject_Z (Qt.width pixmap * Qt.height pixmap))%Q)
        by (apply of_int_exact; lia).
      assert (Hprod : (0 < Ieee.of_int (Qt.width pixmap * Qt.height pixmap)
                          * float_0_3)%Q).
      { rewrite Hof. apply Qmult_lt_0_compat; [apply inject_Z_pos, Hpos | reflexivity]. }
      destruct (fl_bounds _ Hprod) as [_ Hup].
      eapply Qle_trans; [exact Hhi|]. eapply Qle_trans; [exact Hup|].
      rewrite Hof. apply Qmult_le_compat_r; [|discriminate].
      rewrite !(Qmult_comm (inject_Z _)).
      apply Qmult_le_compat_r; [discriminate|].
      apply Qlt_le_weak, inject_Z_pos, Hpos.
    - exfalso.
      pose proof (mul_nonpos _ float_0_3 (of_int_nonpos _ Hneg) ltac:(discriminate))
        as Hz.
      pose proof (Qle_trans _ _ _ Hlo (Qle_trans _ _ _ Hhi Hz)) as Habs.
      unfold Qle in Habs. cbn in Habs. lia. }
  unfold geometry.
  cbn [with_name Roi.set_name Roi.make Roi.x Roi.y Roi.width Roi.height Roi.name].
  repeat split; try assumption; apply Hratio; assumption.
Qed.

End ContourFacts.

(** ** The merge of [detect_all] on float IoUs *)

Section FloatMerge.
Import Detector.

Lemma float_iou_rounds (a b : ROI) :
  _calculate_iou a b = Ieee.fl (Merger._calculate_iou a b).
Proof.
  unfold _calculate_iou, Merger._calculate_iou, Ieee.int_truediv.
  destruct (_ || _); [reflexivity|].
  destruct (0 <? _); reflexivity.
Qed.

Lemma float_iou_sym (a b : ROI) : _calculate_iou a b = _calculate_iou b a.
Proof. rewrite !float_iou_rounds, (calculate_iou_sym a b). reflexivity. Qed.

(** The float is within one part in [2^53] below of the exact ratio. *)
Lemma float_iou_near (a b : ROI) :
  (Merger._calculate_iou a b * (9007199254740991 # 9007199254740992)
   <= _calculate_iou a b)%Q.
Proof.
  rewrite float_iou_rounds.
  pose proof (calculate_iou_nonneg a b) as Hpos.
  destruct (Qle_lt_or_eq _ _ Hpos) as [Hlt|Heq].
  - exact (proj1 (fl_bounds _ Hlt)).
  - assert (Hn : Qnum (Merger._calculate_iou a b) = 0).
    { unfold Qeq in Heq. cbn in Heq. lia. }
    rewrite (fl_zero _ Hn). unfold Qle, Qmult. cbn [Qnum Qden]. rewrite Hn. cbn. lia.
Qed.

Lemma pairs_snoc {A : Type} (R : A -> A -> Prop) (l : list A) (c : A) :
  ForallOrdPairs R l -> Forall (fun k => R k c) l -> ForallOrdPairs R (l ++ [c]).
Proof.
  induction 1 as [|a l Ha _ IH]; intros Hc; cbn [app].
  - repeat constructor.
  - inversion Hc as [|? ? Hac Hlc]; subst. constructor.
    + apply Forall_app. split; [exact Ha | repeat constructor; exact Hac].
    + apply IH, Hlc.
Qed.

Lemma pairs_impl {A : Type} (R S : A -> A -> Prop) (l : list A) :
  (forall a b, R a b -> S a b) -> ForallOrdPairs R l -> ForallOrdPairs S l.
Proof.
  intros HRS. induction 1 as [|a l Ha _ IH]; constructor; [|exact IH].
  eapply Forall_impl; [|exact Ha]. intros b. apply HRS.
Qed.

Variable iou_threshold : Q.

Let fits (k c : ROI) : Prop := (_calculate_iou c k <= iou_threshold)%Q.

Lemma float_should_merge_false (roi : ROI) (merged : list ROI) :
  should_merge iou_threshold roi merged = false <-> Forall (fun k => fits k roi) merged.
Proof.
  induction merged as [|e rest IH]; cbn [should_merge].
  - split; [constructor | reflexivity].
  - destruct (Qle_bool (_calculate_iou roi e) iou_threshold) eqn:Hle; cbn [negb].
    + rewrite IH. split.
      * intros Hrest. constructor; [apply Qle_bool_iff; exact Hle | exact Hrest].
      * intros Hall. inversion Hall; assumption.
    + split; [discriminate|].
      intros Hall. inversion Hall as [|? ? He _]; subst.
      apply Qle_bool_iff in He. congruence.
Qed.

Lemma float_merge_loop_pairs (kept l : list ROI) :
  ForallOrdPairs fits kept -> ForallOrdPairs fits (merge_loop iou_threshold kept l).
Proof.
  revert kept. induction l as [|c l IH]; intros kept Hk; cbn [merge_loop]; [exact Hk|].
  destruct (should_merge iou_threshold c kept) eqn:Hm; [apply IH, Hk|].
  apply IH. apply pairs_snoc; [exact Hk|]. apply float_should_merge_false, Hm.
Qed.

Lemma float_merge_loop_sorted (kept l : list ROI) :
  StronglySorted Merger.area_desc (kept ++ l) ->
  StronglySorted Merger.area_desc (merge_loop iou_threshold kept l).
Proof.
  revert kept. induction l as [|c l IH]; intros kept; cbn [merge_loop].
  - rewrite app_nil_r. auto.
  - intros Hs. destruct (should_merge iou_threshold c kept).
    + apply IH. exact (sorted_drop_middle Roi.area kept c l Hs).
    + apply IH. rewrite <- app_assoc. exact Hs.
Qed.

Lemma float_merge_loop_from_input (kept l : list ROI) (r : ROI) :
  In r (merge_loop iou_threshold kept l) -> In r kept \/ In r l.
Proof.
  revert kept. induction l as [|c l IH]; intros kept; cbn [merge_loop].
  - auto.
  - destruct (should_merge iou_threshold c kept); intros Hin.
    + destruct (IH _ Hin); [left | right; right]; assumption.
    + destruct (IH _ Hin) as [Hm|Hl]; [|right; right; exact Hl].
      apply in_app_or in Hm. destruct Hm as [Hm|[<-|[]]];
        [left; exact Hm | right; left; reflexivity].
Qed.

Lemma float_merge_loop_length (kept l : list ROI) :
  (List.length (merge_loop iou_threshold kept l)
   <= List.length kept + List.length l)%nat.
Proof.
  revert kept. induction l as [|c l IH]; intros kept; cbn [merge_loop List.length].
  - lia.
  - destruct (should_merge iou_threshold c kept).
    + specialize (IH kept). lia.
    + specialize (IH (kept ++ [c])). rewrite length_app in IH. cbn in IH. lia.
Qed.

(** A candidate is dropped only for a kept ROI it overlaps too much. *)
Lemma float_should_merge_true (roi : ROI) (merged : list ROI) :
  should_merge iou_threshold roi merged = true ->
  exists k, In k merged /\ ~ (_calculate_iou roi k <= iou_threshold)%Q.
Proof.
  induction merged as [|e rest IH]; cbn [should_merge]; [discriminate|].
  destruct (Qle_bool (_calculate_iou roi e) iou_threshold) eqn:Hle; cbn [negb].
  - intros Hm. destruct (IH Hm) as (k & Hk & Hover).
    exists k. split; [right; exact Hk | exact Hover].
  - intros _. exists e. split; [left; reflexivity|].
    intros Hq. apply Qle_bool_iff in Hq. congruence.
Qed.

Lemma float_merge_loop_keeps_kept (kept l : list ROI) (r : ROI) :
  In r kept -> In r (merge_loop iou_threshold kept l).
Proof.
  revert kept. induction l as [|c l IH]; intros kept Hin; cbn [merge_loop]; [exact Hin|].
  destruct (should_merge iou_threshold c kept); apply IH; [exact Hin|].
  apply in_or_app. left. exact Hin.
Qed.

Lemma float_dropped_or_kept (kept l : list ROI) (r : ROI) :
  StronglySorted Merger.area_desc (kept ++ l) -> In r l ->
  In r (merge_loop iou_threshold kept l)
  \/ exists k, In k (merge_loop iou_threshold kept l)
               /\ Roi.area r <= Roi.area k
               /\ ~ (_calculate_iou r k <= iou_threshold)%Q.
Proof.
  revert kept. induction l as [|c l IH]; intros kept Hs Hin; [contradiction|].
  cbn [merge_loop]. destruct Hin as [<-|Hin].
  - destruct (should_merge iou_threshold c kept) eqn:Hm.
    + right. destruct (float_should_merge_true c kept Hm) as (k & Hk & Hover).
      exists k. split; [apply float_merge_loop_keeps_kept, Hk|]. split; [|exact Hover].
      clear - Hs Hk. induction kept as [|b kept IHk]; [contradiction|].
      cbn [app] in Hs. inversion Hs as [|? ? Hrest Hb]; subst.
      destruct Hk as [<-|Hk].
      * apply Forall_app in Hb. destruct Hb as [_ Hb]. inversion Hb; assumption.
      * apply IHk; assumption.
    + left. apply float_merge_loop_keeps_kept. apply in_or_app. right. left. reflexivity.
  - destruct (should_merge iou_threshold c kept).
    + apply IH; [exact (sorted_drop_middle Roi.area kept c l Hs) | exact Hin].
    + apply IH; [rewrite <- app_assoc; exact Hs | exact Hin].
Qed.

End FloatMerge.

Section FloatMergeResult.
Import Detector.

Lemma float_merge_pairs (rois : list ROI) (iou_threshold : Q) :
  ForallOrdPairs
    (fun a b => (_calculate_iou a b <= iou_threshold)%Q
                /\ (_calculate_iou b a <= iou_threshold)%Q)
    (_merge_overlapping_rois rois iou_threshold).
Proof.
  unfold _merge_overlapping_rois.
  destruct rois as [|r0 rois']; [constructor|].
  pose proof (float_merge_loop_pairs iou_threshold []
                (py_sorted_reverse Roi.area (r0 :: rois')) (FOP_nil _)) as Hpairs.
  induction Hpairs as [|x l Hx _ IH]; constructor; [|exact IH].
  eapply Forall_impl; [|exact Hx]. cbn. intros b Hb.
  split; [rewrite float_iou_sym; exact Hb | exact Hb].
Qed.

Lemma float_merge_sorted (rois : list ROI) (iou_threshold : Q) :
  ForallOrdPairs Merger.area_desc (_merge_overlapping_rois rois iou_threshold).
Proof.
  assert (Hs : StronglySorted Merger.area_desc
                 (_merge_overlapping_rois rois iou_threshold)).
  { unfold _merge_overlapping_rois.
    destruct rois as [|r0 rois']; [constructor|].
    apply float_merge_loop_sorted. apply (py_sorted_reverse_sorted Roi.area). }
  induction Hs; constructor; assumption.
Qed.

Lemma float_merge_from_input (rois : list ROI) (iou_threshold : Q) (r : ROI) :
  In r (_merge_overlapping_rois rois iou_threshold) -> In r rois.
Proof.
  unfold _merge_overlapping_rois.
  destruct rois as [|r0 rois']; [intros []|].
  intros Hr. apply float_merge_loop_from_input in Hr. destruct Hr as [[]|Hr].
  exact (Permutation_in _ (py_sorted_reverse_perm Roi.area _) Hr).
Qed.

Lemma float_merge_no_longer (rois : list ROI) (iou_threshold : Q) :
  (List.length (_merge_overlapping_rois rois iou_threshold) <= List.length rois)%nat.
Proof.
  unfold _merge_overlapping_rois.
  destruct rois as [|r0 rois']; [cbn; lia|].
  pose proof (float_merge_loop_length iou_threshold []
                (py_sorted_reverse Roi.area (r0 :: rois'))) as Hlen.
  rewrite (Permutation_length (py_sorted_reverse_perm Roi.area (r0 :: rois'))) in Hlen.
  exact Hlen.
Qed.

Lemma float_merge_dropped (rois : list ROI) (iou_threshold : Q) (r : ROI) :
  In r rois ->
  In r (_merge_overlapping_rois rois iou_threshold)
  \/ exists k, In k (_merge_overlapping_rois rois iou_threshold)
               /\ Roi.area r <= Roi.area k
               /\ ~ (_calculate_iou r k <= iou_threshold)%Q.
Proof.
  intros Hr. unfold _merge_overlapping_rois.
  destruct rois as [|r0 rois']; [contradiction|].
  apply float_dropped_or_kept.
  - apply (py_sorted_reverse_sorted Roi.area).
  - apply (Permutation_in _ (Permutation_sym (py_sorted_reverse_perm Roi.area _)) Hr).
Qed.

End FloatMergeResult.

Section DetectAllFacts.
Import Numpy Detector.

Lemma rename_auto_of (merged : list ROI) (i : nat) (m : ROI) :
  In m merged ->
  exists r, In r (rename_auto i merged) /\ r = with_name (Roi.name r) m.
Proof.
  revert i. induction merged as [|m' rest IH]; intros i; cbn [rename_auto]; [intros []|].
  intros [->|Hin].
  - eexists. split; [left; reflexivity | reflexivity].
  - destruct (IH (S i) Hin) as (r & Hr & Heq). exists r. split; [right; exact Hr | exact Heq].
Qed.

(** [detect_all] converts the pixmap four times, with the same outcome
    each time. *)
Lemma detect_all_cases (pixmap : Qt.QPixmap) (fresh_id : nat -> nat -> string)
    (circles : option (list (Z * Z * Z)))
    (red_contours button_contours icon_contours : list contour_info) :
  match Qt._qpixmap_to_cv2 pixmap with
  | Returned img =>
      exists found red_dots buttons icons,
        detect_circles Legacy pixmap (fresh_id 0%nat) circles = Returned found
        /\ detect_red_dots pixmap (fresh_id 1%nat) red_contours = Returned red_dots
        /\ detect_ui_buttons pixmap (fresh_id 2%nat) button_contours = Returned buttons
        /\ detect_icons pixmap (fresh_id 3%nat) icon_contours = Returned icons
        /\ detect_all pixmap fresh_id circles red_contours button_contours icon_contours
           = Returned (rename_auto 0
                         (_merge_overlapping_rois
                            (found ++ red_dots ++ buttons ++ icons) float_0_3))
        /\ (img = None -> found ++ red_dots ++ buttons ++ icons = [])
  | Raised e =>
      detect_all pixmap fresh_id circles red_contours button_contours icon_contours
      = Raised e
  end.
Proof.
  unfold detect_all, detect_circles, detect_red_dots, detect_ui_buttons, detect_icons.
  destruct (Qt._qpixmap_to_cv2 pixmap) as [[img|]|e]; cbn [bind].
  - assert (Hfound : exists found,
               match circles with
               | Some hits => circle_rois Legacy pixmap (fresh_id 0%nat) 0 hits
               | None => Returned []
               end = Returned found).
    { destruct circles as [hits|]; [|exists []; reflexivity].
      apply circle_rois_legacy_returns. }
    destruct Hfound as (found & ->). cbn [bind].
    do 4 eexists. do 5 (split; [reflexivity|]). discriminate.
  - exists [], [], [], []. do 5 (split; [reflexivity|]). reflexivity.
  - reflexivity.
Qed.

End DetectAllFacts.

(** X15. Away from the left and top edges [detect_circles] is right under
    either NumPy promotion rule.  For a non-null pixmap whose width is a
    multiple of 4, narrower and lower than 65536 pixels, and Hough hits
    whose centre lies in the image, at least [radius + 2] from the left and
    top edges, it returns one ROI per hit, in order, named [circle_01],
    [circle_02], ...; each is the circle's square with its margin of 2, cut
    at the right and bottom edges, lies in the image with positive size and
    holds the circle centre. *)
Theorem detect_circles_interior_hits (p : Numpy.promotion) (pixmap : Qt.QPixmap)
    (fresh_id : nat -> string) (hits : list (Z * Z * Z)) :
  Qt.isNull pixmap = false -> Qt.width pixmap mod 4 = 0 ->
  Qt.width pixmap < 65536 -> Qt.height pixmap < 65536 ->
  Forall (Detector.interior_hit pixmap) hits ->
  exists rois,
    Detector.detect_circles p pixmap fresh_id (Some hits) = Returned rois
    /\ Forall2 (Detector.hit_square pixmap) hits rois
    /\ Forall (fun r => Detector.bbox_in_image pixmap r /\ Detector.circle_in_bbox r) rois
    /\ map Roi.name rois
       = map (fun k => ("circle_" ++ format_0d 2 (Z.of_nat k + 1))%string)
           (seq 0 (List.length hits)).
Proof.
  intros Hnull Hwidth Hw Hh Hall. unfold Detector.detect_circles.
  rewrite (qpixmap_aligned pixmap Hnull Hwidth). cbn [Detector.bind].
  apply circle_rois_inside; assumption.
Qed.

Lemma detect_circles_interior_hits_witness :
  exists rois,
    Detector.detect_circles Numpy.NEP50 Detector.pixmap_100 Detector.no_ids
      (Some [(50, 50, 10); (95, 20, 5)]) = Returned rois
    /\ Forall2 (Detector.hit_square Detector.pixmap_100) [(50, 50, 10); (95, 20, 5)] rois
    /\ Forall (fun r => Detector.bbox_in_image Detector.pixmap_100 r
                        /\ Detector.circle_in_bbox r) rois
    /\ map Roi.name rois = ["circle_01"; "circle_02"]%string.
Proof.
  apply (detect_circles_interior_hits Numpy.NEP50 Detector.pixmap_100 Detector.no_ids
           [(50, 50, 10); (95, 20, 5)]).
  - reflexivity.
  - reflexivity.
  - reflexivity.
  - reflexivity.
  - repeat constructor; cbn; lia.
Defined.

(** X16. [detect_red_dots] keeps its ROIs in the image.  When the
    enclosing circle of every contour has its centre in the image and a
    radius that is not negative, every returned ROI has positive width and
    height, lies within the pixmap, is marked as a circle and holds the
    recorded (truncated) circle centre.  There are never more ROIs than
    contours, and a null pixmap gives none.  The call raises only while
    converting a non-null pixmap whose width is not a multiple of 4
    ([ValueError]). *)
Theorem detect_red_dots_in_image (pixmap : Qt.QPixmap) (fresh_id : nat -> string)
    (contours : list Detector.contour_info) :
  Forall (Detector.dot_inside pixmap) contours ->
  match Detector.detect_red_dots pixmap fresh_id contours with
  | Returned rois =>
      Forall (fun r => Detector.bbox_in_image pixmap r /\ Detector.circle_in_bbox r) rois
      /\ (List.length rois <= List.length contours)%nat
  | Raised e =>
      Qt.isNull pixmap = false /\ e = "ValueError"%string
      /\ Qt.width pixmap mod 4 <> 0
  end
  /\ (Qt.isNull pixmap = true ->
      Detector.detect_red_dots pixmap fresh_id contours = Returned []).
Proof.
  intros Hall. unfold Detector.detect_red_dots.
  pose proof (qpixmap_cases pixmap) as Hcases.
  destruct (Qt._qpixmap_to_cv2 pixmap) as [[img|]|e]; cbn [Detector.bind].
  - destruct Hcases as [Hnull _]. split; [|rewrite Hnull; discriminate].
    split; [|apply scan_contours_length].
    apply scan_contours_all. intros j c r Hin Hr.
    apply (red_dot_roi_inside pixmap fresh_id j c r); [|exact Hr].
    exact (proj1 (Forall_forall _ _) Hall c Hin).
  - split; [|reflexivity]. split; [constructor | cbn; lia].
  - split; [exact Hcases|]. destruct Hcases as [Hnull _]. rewrite Hnull. discriminate.
Qed.

Lemma detect_red_dots_in_image_witness :
  match Detector.detect_red_dots Detector.pixmap_200 Detector.no_ids
          [Detector.round_dot] with
  | Returned rois =>
      Forall (fun r => Detector.bbox_in_image Detector.pixmap_200 r
                       /\ Detector.circle_in_bbox r) rois
      /\ (List.length rois <= 1)%nat
  | Raised e =>
      Qt.isNull Detector.pixmap_200 = false /\ e = "ValueError"%string
      /\ 200 mod 4 <> 0
  end.
Proof.
  assert (Hdots : Forall (Detector.dot_inside Detector.pixmap_200) [Detector.round_dot])
    by (repeat constructor; cbn; discriminate).
  exact (proj1 (detect_red_dots_in_image Detector.pixmap_200 Detector.no_ids
                  [Detector.round_dot] Hdots)).
Defined.

(** X17. Every ROI of [detect_ui_buttons] is the bounding rectangle of one
    of the contours, named [button_NN] after the position of that contour,
    which has at least 4 polygon vertices and an area between 200 and half
    the image area.  The width and height of the ROI are positive and
    neither exceeds ten times the other, the comparisons being made on the
    rounded quotient [float(w) / h]: for rectangles that fit C [int]s and
    an image of fewer than [2^53] pixels the rounding admits no rectangle
    beyond the ratio 10 or 1/10.  There are never more ROIs than contours,
    a null pixmap gives none, and the call raises only while converting a
    non-null pixmap whose width is not a multiple of 4 ([ValueError]). *)
Theorem detect_ui_buttons_shape (pixmap : Qt.QPixmap) (fresh_id : nat -> string)
    (contours : list Detector.contour_info) :
  Qt.width pixmap * Qt.height pixmap < 2 ^ 53 ->
  Forall Detector.int_rect contours ->
  match Detector.detect_ui_buttons pixmap fresh_id contours with
  | Returned rois =>
      Forall (fun r =>
                0 < Roi.width r /\ 0 < Roi.height r
                /\ Roi.height r <= 10 * Roi.width r /\ Roi.width r <= 10 * Roi.height r
                /\ exists j c,
                     nth_error contours j = Some c
                     /\ Roi.name r = ("button_" ++ format_0d 2 (Z.of_nat j + 1))%string
                     /\ Detector.boundingRect c = Detector.geometry r
                     /\ (4 <= Detector.approx_vertices c)%nat
                     /\ (200 <= Detector.contourArea c)%Q
                     /\ (Detector.contourArea c
                         <= inject_Z (Qt.width pixmap * Qt.height pixmap) * (1 # 2))%Q)
        rois
      /\ (List.length rois <= List.length contours)%nat
  | Raised e =>
      Qt.isNull pixmap = false /\ e = "ValueError"%string
      /\ Qt.width pixmap mod 4 <> 0
  end
  /\ (Qt.isNull pixmap = true ->
      Detector.detect_ui_buttons pixmap fresh_id contours = Returned []).
Proof.
  intros Hsmall Hall. unfold Detector.detect_ui_buttons.
  pose proof (qpixmap_cases pixmap) as Hcases.
  destruct (Qt._qpixmap_to_cv2 pixmap) as [[img|]|e]; cbn [Detector.bind].
  - destruct Hcases as [Hnull _]. split; [|rewrite Hnull; discriminate].
    split; [|apply scan_contours_length].
    apply scan_contours_nth. intros j c r Hnth Hr. cbn [Nat.add] in Hr.
    pose proof (proj1 (Forall_forall _ _) Hall c (nth_error_In _ _ Hnth)) as Hrect.
    destruct (button_roi_shape _ _ _ _ _ Hsmall Hrect Hr)
      as (Hg & Hw & Hh & Hhw & Hwh & Hv & Hlo & Hhi & Hname).
    do 4 (split; [assumption|]).
    exists j, c. repeat split; assumption.
  - split; [|reflexivity]. split; [constructor | cbn; lia].
  - split; [exact Hcases|]. destruct Hcases as [Hnull _]. rewrite Hnull. discriminate.
Qed.

Lemma detect_ui_buttons_shape_witness :
  match Detector.detect_ui_buttons Detector.pixmap_200 Detector.no_ids
          [Detector.thin_bar] with
  | Returned rois =>
      Forall (fun r =>
                0 < Roi.width r /\ 0 < Roi.height r
                /\ Roi.height r <= 10 * Roi.width r /\ Roi.width r <= 10 * Roi.height r
                /\ exists j c,
                     nth_error [Detector.thin_bar] j = Some c
                     /\ Roi.name r = ("button_" ++ format_0d 2 (Z.of_nat j + 1))%string
                     /\ Detector.boundingRect c = Detector.geometry r
                     /\ (4 <= Detector.approx_vertices c)%nat
                     /\ (200 <= Detector.contourArea c)%Q
                     /\ (Detector.contourArea c <= inject_Z (200 * 200) * (1 # 2))%Q)
        rois
      /\ (List.length rois <= 1)%nat
  | Raised e =>
      Qt.isNull Detector.pixmap_200 = false /\ e = "ValueError"%string
      /\ 200 mod 4 <> 0
  end
  /\ exists rois,
       Detector.detect_ui_buttons Detector.pixmap_200 Detector.no_ids
         [Detector.thin_bar] = Returned rois
       /\ map Detector.geometry rois = [(100, 100, 10, 100)].
Proof.
  split.
  - assert (Hsmall : Qt.width Detector.pixmap_200 * Qt.height Detector.pixmap_200
                     < 2 ^ 53) by reflexivity.
    assert (Hrects : Forall Detector.int_rect [Detector.thin_bar])
      by (repeat constructor; cbn; lia).
    exact (proj1 (detect_ui_buttons_shape Detector.pixmap_200 Detector.no_ids
                    [Detector.thin_bar] Hsmall Hrects)).
  - eexists. split; reflexivity.
Defined.

(** X18. Every ROI of [detect_icons] is the bounding rectangle of one of
    the contours, named [icon_NN] after the position of that contour, whose
    area is at least 100 and at most the float product [img_area * 0.3],
    which exceeds 3/10 of the image area by no more than one part in
    [2^53].  When the shorter side of the rectangle is positive the longer
    side is at most twice the shorter one (for rectangles that fit C
    [int]s the rounding of [max(w, h) / min(w, h)] admits nothing beyond
    the ratio 2).  There are never more ROIs than contours, a null pixmap
    gives none, and the call raises only while converting a non-null
    pixmap whose width is not a multiple of 4 ([ValueError]). *)
Theorem detect_icons_shape (pixmap : Qt.QPixmap) (fresh_id : nat -> string)
    (contours : list Detector.contour_info) :
  Qt.width pixmap * Qt.height pixmap < 2 ^ 53 ->
  Forall Detector.int_rect contours ->
  match Detector.detect_icons pixmap fresh_id contours with
  | Returned rois =>
      Forall (fun r =>
                (0 < Z.min (Roi.width r) (Roi.height r) ->
                 Roi.width r <= 2 * Roi.height r /\ Roi.height r <= 2 * Roi.width r)
                /\ exists j c,
                     nth_error contours j = Some c
                     /\ Roi.name r = ("icon_" ++ format_0d 2 (Z.of_nat j + 1))%string
                     /\ Detector.boundingRect c = Detector.geometry r
                     /\ (100 <= Detector.contourArea c)%Q
                     /\ (Detector.contourArea c
                         <= Ieee.mul (Ieee.of_int (Qt.width pixmap * Qt.height pixmap))
                              Detector.float_0_3)%Q
                     /\ (Detector.contourArea c
                         <= inject_Z (Qt.width pixmap * Qt.height pixmap) * (3 # 10)
                            * (9007199254740993 # 9007199254740992))%Q)
        rois
      /\ (List.length rois <= List.length contours)%nat
  | Raised e =>
      Qt.isNull pixmap = false /\ e = "ValueError"%string
      /\ Qt.width pixmap mod 4 <> 0
  end
  /\ (Qt.isNull pixmap = true ->
      Detector.detect_icons pixmap fresh_id contours = Returned []).
Proof.
  intros Hsmall Hall. unfold Detector.detect_icons.
  pose proof (qpixmap_cases pixmap) as Hcases.
  destruct (Qt._qpixmap_to_cv2 pixmap) as [[img|]|e]; cbn [Detector.bind].
  - destruct Hcases as [Hnull _]. split; [|rewrite Hnull; discriminate].
    split; [|apply scan_contours_length].
    apply scan_contours_nth. intros j c r Hnth Hr. cbn [Nat.add] in Hr.
    pose proof (proj1 (Forall_forall _ _) Hall c (nth_error_In _ _ Hnth)) as Hrect.
    destruct (icon_roi_shape _ _ _ _ _ Hsmall Hrect Hr)
      as (Hg & Hsq & Hlo & Hhi & Hfrac & Hname).
    split; [exact Hsq|].
    exists j, c. repeat split; assumption.
  - split; [|reflexivity]. split; [constructor | cbn; lia].
  - split; [exact Hcases|]. destruct Hcases as [Hnull _]. rewrite Hnull. discriminate.
Qed.

Lemma detect_icons_shape_witness :
  match Detector.detect_icons Detector.pixmap_100 Detector.no_ids
          [Detector.large_outline] with
  | Returned rois =>
      Forall (fun r =>
                (0 < Z.min (Roi.width r) (Roi.height r) ->
                 Roi.width r <= 2 * Roi.height r /\ Roi.height r <= 2 * Roi.width r)
                /\ exists j c,
                     nth_error [Detector.large_outline] j = Some c
                     /\ Roi.name r = ("icon_" ++ format_0d 2 (Z.of_nat j + 1))%string
                     /\ Detector.boundingRect c = Detector.geometry r
                     /\ (100 <= Detector.contourArea c)%Q
                     /\ (Detector.contourArea c
                         <= Ieee.mul (Ieee.of_int (100 * 100)) Detector.float_0_3)%Q
                     /\ (Detector.contourArea c
                         <= inject_Z (100 * 100) * (3 # 10)
                            * (9007199254740993 # 9007199254740992))%Q)
        rois
      /\ (List.length rois <= 1)%nat
  | Raised e =>
      Qt.isNull Detector.pixmap_100 = false /\ e = "ValueError"%string
      /\ 100 mod 4 <> 0
  end
  /\ exists rois,
       Detector.detect_icons Detector.pixmap_100 Detector.no_ids
         [Detector.large_outline] = Returned rois
       /\ map Detector.geometry rois = [(0, 0, 60, 50)].
Proof.
  split.
  - assert (Hsmall : Qt.width Detector.pixmap_100 * Qt.height Detector.pixmap_100
                     < 2 ^ 53) by reflexivity.
    assert (Hrects : Forall Detector.int_rect [Detector.large_outline])
      by (repeat constructor; cbn; lia).
    exact (proj1 (detect_icons_shape Detector.pixmap_100 Detector.no_ids
                    [Detector.large_outline] Hsmall Hrects)).
  - eexists. split; reflexivity.
Defined.

(** X19. [detect_all] under NumPy 1.x promotion.  When it returns, the
    four detectors returned and the result is the merge at threshold 0.3
    of their ROIs (circles, red dots, buttons, icons, in this order),
    renamed [auto_01], [auto_02], ... in order.  The float IoU of any two
    results is at most the double 0.3, whichever way it is taken, so their
    exact IoU is at most 3/10 up to one part in [2^53]; the results come in
    descending order of area; each is one of the detectors' ROIs under a
    new name, and there are no more of them than the detectors found.
    Every ROI of a detector is either among the results or has a float IoU
    above 0.3 with a result of at least its area.  A null pixmap gives the
    empty list, and the call raises only while converting a non-null pixmap
    whose width is not a multiple of 4 ([ValueError]). *)
Theorem detect_all_merged_renamed (pixmap : Qt.QPixmap) (fresh_id : nat -> nat -> string)
    (circles : option (list (Z * Z * Z)))
    (red_contours button_contours icon_contours : list Detector.contour_info) :
  match Detector.detect_all pixmap fresh_id circles red_contours button_contours
          icon_contours with
  | Returned rois =>
      exists found red_dots buttons icons,
        Detector.detect_circles Numpy.Legacy pixmap (fresh_id 0%nat) circles
        = Returned found
        /\ Detector.detect_red_dots pixmap (fresh_id 1%nat) red_contours
           = Returned red_dots
        /\ Detector.detect_ui_buttons pixmap (fresh_id 2%nat) button_contours
           = Returned buttons
        /\ Detector.detect_icons pixmap (fresh_id 3%nat) icon_contours = Returned icons
        /\ let all_rois := (found ++ red_dots ++ buttons ++ icons)%list in
           rois = Detector.rename_auto 0
                    (Detector._merge_overlapping_rois all_rois Detector.float_0_3)
           /\ map Roi.name rois
              = map (fun k => ("auto_" ++ format_0d 2 (Z.of_nat k + 1))%string)
                  (seq 0 (List.length rois))
           /\ ForallOrdPairs
                (fun a b =>
                   (Detector._calculate_iou a b <= Detector.float_0_3)%Q
                   /\ (Detector._calculate_iou b a <= Detector.float_0_3)%Q
                   /\ (Merger._calculate_iou a b
                       * (9007199254740991 # 9007199254740992) <= 3 # 10)%Q) rois
           /\ ForallOrdPairs Merger.area_desc rois
           /\ Forall (fun r => exists r0, In r0 all_rois
                                          /\ r = Detector.with_name (Roi.name r) r0) rois
           /\ (List.length rois <= List.length all_rois)%nat
           /\ Forall (fun r0 =>
                        (exists r, In r rois /\ r = Detector.with_name (Roi.name r) r0)
                        \/ exists k, In k rois /\ Roi.area r0 <= Roi.area k
                             /\ ~ (Detector._calculate_iou r0 k
                                   <= Detector.float_0_3)%Q) all_rois
  | Raised e =>
      Qt.isNull pixmap = false /\ e = "ValueError"%string
      /\ Qt.width pixmap mod 4 <> 0
  end
  /\ (Qt.isNull pixmap = true ->
      Detector.detect_all pixmap fresh_id circles red_contours button_contours
        icon_contours = Returned []).
Proof.
  pose proof (qpixmap_cases pixmap) as Hcases.
  pose proof (detect_all_cases pixmap fresh_id circles red_contours button_contours
                icon_contours) as Hall.
  destruct (Qt._qpixmap_to_cv2 pixmap) as [img|e].
  - destruct Hall as (found & red_dots & buttons & icons
                      & Hfound & Hred & Hbuttons & Hicons & -> & Hnone).
    split.
    + exists found, red_dots, buttons, icons.
      do 4 (split; [assumption|]). cbv zeta.
      set (all_rois := (found ++ red_dots ++ buttons ++ icons)%list).
      split; [reflexivity|].
      split; [rewrite rename_auto_names, rename_auto_length; reflexivity|].
      split; [|split; [|split; [|split]]].
      * apply rename_auto_pairs.
        { intros a b s t H. exact H. }
        eapply pairs_impl; [|apply float_merge_pairs].
        intros a b [Hab Hba]. split; [exact Hab|]. split; [exact Hba|].
        eapply Qle_trans; [apply float_iou_near|].
        eapply Qle_trans; [exact Hab|]. unfold Qle. cbn. lia.
      * apply rename_auto_pairs; [|apply float_merge_sorted].
        intros a b s t H. exact H.
      * apply Forall_forall. intros r Hr.
        destruct (rename_auto_in _ _ _ Hr) as (m & Hm & Heq).
        exists m. split; [|exact Heq]. exact (float_merge_from_input _ _ _ Hm).
      * rewrite rename_auto_length. apply float_merge_no_longer.
      * apply Forall_forall. intros r0 Hr0.
        destruct (float_merge_dropped all_rois Detector.float_0_3 r0 Hr0)
          as [Hkept|(k & Hk & Harea & Hover)].
        -- left. exact (rename_auto_of _ 0 _ Hkept).
        -- right. destruct (rename_auto_of _ 0 _ Hk) as (r & Hr & Heq).
           exists r. split; [exact Hr|]. rewrite Heq. split; [exact Harea | exact Hover].
    + intros Hnull. destruct img as [img|]; [destruct Hcases; congruence|].
      rewrite (Hnone eq_refl). reflexivity.
  - rewrite Hall. split; [exact Hcases|].
    destruct Hcases as [Hnull _]. rewrite Hnull. discriminate.
Qed.

(** Two icons whose exact IoU is 3/10 are both kept: the quotient rounds
    to the double 0.3, which is not above the threshold. *)
Lemma detect_all_keeps_three_tenths :
  exists rois,
    Detector.detect_all Detector.pixmap_200 Detector.no_ids2 None [] []
      [Detector.left_outline; Detector.right_outline] = Returned rois
    /\ map Detector.geometry rois = [(0, 0, 130, 100); (70, 0, 130, 100)]
    /\ map Roi.name rois = ["auto_01"; "auto_02"]%string
    /\ Forall (fun r => Forall (fun k => r = k
                                  \/ (Merger._calculate_iou r k == 3 # 10)%Q) rois) rois.
Proof.
  eexists. split; [reflexivity|]. split; [reflexivity|]. split; [reflexivity|].
  repeat constructor; try (left; reflexivity); right; reflexivity.
Qed.

(** X20. [detect_at_point] never samples outside the image.  On a pixmap
    of positive width and height the seed handed to the colour flood lies
    in the image, so two floods that agree on in-image seeds give the same
    result; and a click outside the image acts as a click on the nearest
    pixel of the image. *)
Theorem detect_at_point_seed_in_image (pixmap : Qt.QPixmap) (x y color_tolerance : Z)
    (merge_all : bool) (flood flood' : Z -> Z -> Z -> Detector.flood_result)
    (fresh_id : string) :
  0 < Qt.width pixmap -> 0 < Qt.height pixmap ->
  (forall sx sy, 0 <= sx < Qt.width pixmap -> 0 <= sy < Qt.height pixmap ->
                 flood sx sy color_tolerance = flood' sx sy color_tolerance) ->
  let seed := Detector.clamp_seed pixmap x y in
  (0 <= fst seed < Qt.width pixmap /\ 0 <= snd seed < Qt.height pixmap)
  /\ Detector.detect_at_point pixmap x y color_tolerance merge_all flood fresh_id
     = Detector.detect_at_point pixmap x y color_tolerance merge_all flood' fresh_id
  /\ Detector.detect_at_point pixmap x y color_tolerance merge_all flood fresh_id
     = Detector.detect_at_point pixmap (fst seed) (snd seed) color_tolerance merge_all
         flood fresh_id.
Proof.
  intros Hw Hh Hagree seed. subst seed. unfold Detector.clamp_seed. cbn [fst snd].
  split; [lia|].
  unfold Detector.detect_at_point.
  destruct (Qt._qpixmap_to_cv2 pixmap) as [[img|]|e] eqn:Himg; cbn [Detector.bind];
    [|split; reflexivity|split; reflexivity].
  pose proof (qpixmap_cases pixmap) as Hcases. rewrite Himg in Hcases.
  destruct Hcases as [_ ->].
  split.
  - rewrite Hagree by lia. reflexivity.
  - replace (Z.max 0 (Z.min (Z.max 0 (Z.min x (Qt.width pixmap - 1))) (Qt.width pixmap - 1)))
      with (Z.max 0 (Z.min x (Qt.width pixmap - 1))) by lia.
    replace (Z.max 0 (Z.min (Z.max 0 (Z.min y (Qt.height pixmap - 1))) (Qt.height pixmap - 1)))
      with (Z.max 0 (Z.min y (Qt.height pixmap - 1))) by lia.
    reflexivity.
Qed.

Lemma detect_at_point_seed_in_image_witness :
  Detector.clamp_seed Detector.pixmap_100 (-7) 250 = (0, 99)
  /\ Detector.detect_at_point Detector.pixmap_100 (-7) 250 30 false
       Detector.two_blobs_flood EmptyString
     = Detector.detect_at_point Detector.pixmap_100 0 99 30 false
         Detector.two_blobs_flood EmptyString.
Proof.
  split; [reflexivity|].
  refine (proj2 (proj2 (detect_at_point_seed_in_image Detector.pixmap_100 (-7) 250 30 false
                          Detector.two_blobs_flood Detector.two_blobs_flood EmptyString
                          _ _ _))).
  - reflexivity.
  - reflexivity.
  - intros sx sy _ _. reflexivity.
Defined.

(** X21. [detect_at_point] without [merge_all], on a non-null pixmap whose
    width is a multiple of 4 and with the label under the seed among the
    labels of [stats]: the call does not raise; it returns an ROI exactly
    when that label is not the background and its component has an area of
    at least 20, and the ROI is then that component's bounding box, named
    [color_blob], inside the image with positive size whenever the
    component's box is. *)
Theorem detect_at_point_clicked_blob (pixmap : Qt.QPixmap) (x y color_tolerance : Z)
    (flood : Z -> Z -> Z -> Detector.flood_result) (fresh_id : string) :
  Qt.isNull pixmap = false -> Qt.width pixmap mod 4 = 0 ->
  let seed := Detector.clamp_seed pixmap x y in
  let cc := flood (fst seed) (snd seed) color_tolerance in
  0 <= Detector.clicked_label cc < Detector.num_labels cc ->
  exists c,
    nth_error (Detector.stats cc) (Z.to_nat (Detector.clicked_label cc)) = Some c
    /\ match Detector.detect_at_point pixmap x y color_tolerance false flood fresh_id with
       | Returned (Some r) =>
           0 < Detector.clicked_label cc /\ 20 <= Detector.comp_area c
           /\ Detector.geometry r
              = (Detector.left c, Detector.top c,
                 Detector.comp_width c, Detector.comp_height c)
           /\ Roi.name r = "color_blob"%string
           /\ (Detector.component_in_image pixmap c -> Detector.bbox_in_image pixmap r)
       | Returned None =>
           Detector.clicked_label cc = 0 \/ Detector.comp_area c < 20
       | Raised _ => False
       end.
Proof.
  intros Hnull Hwidth seed cc Hlabel. subst seed.
  unfold Detector.clamp_seed in cc. cbn [fst snd] in cc.
  unfold Detector.num_labels in Hlabel.
  destruct (nth_error (Detector.stats cc) (Z.to_nat (Detector.clicked_label cc)))
    as [c|] eqn:Hc.
  2:{ apply nth_error_None in Hc. lia. }
  exists c. split; [reflexivity|].
  unfold Detector.detect_at_point. rewrite (qpixmap_aligned pixmap Hnull Hwidth).
  cbn [Detector.bind].
  fold cc. unfold Detector.num_labels.
  destruct (Z.ltb_spec (Z.of_nat (List.length (Detector.stats cc))) 2) as [Hn|Hn].
  - left. lia.
  - destruct (Z.eqb_spec (Detector.clicked_label cc) 0) as [Hz|Hz]; [left; exact Hz|].
    rewrite Hc.
    destruct (Z.ltb_spec (Detector.comp_area c) 20) as [Ha|Ha]; [right; exact Ha|].
    split; [lia|]. split; [exact Ha|]. split; [reflexivity|]. split; [reflexivity|].
    unfold Detector.component_in_image, Detector.bbox_in_image. cbn. lia.
Qed.

Lemma detect_at_point_clicked_blob_witness :
  exists c,
    nth_error (Detector.stats Detector.two_blobs) 1 = Some c
    /\ match Detector.detect_at_point Detector.pixmap_100 2 2 30 false
               Detector.two_blobs_flood EmptyString with
       | Returned (Some r) =>
           Detector.geometry r
           = (Detector.left c, Detector.top c, Detector.comp_width c, Detector.comp_height c)
       | _ => False
       end.
Proof.
  destruct (detect_at_point_clicked_blob Detector.pixmap_100 2 2 30
              Detector.two_blobs_flood EmptyString) as (c & Hc & Hres).
  - reflexivity.
  - reflexivity.
  - cbn. lia.
  - exists c. split; [exact Hc|].
    destruct (Detector.detect_at_point Detector.pixmap_100 2 2 30 false
                Detector.two_blobs_flood EmptyString) as [[r|]|e].
    + exact (proj1 (proj2 (proj2 Hres))).
    + destruct Hres as [Hres|Hres]; [discriminate Hres|].
      vm_compute in Hc. injection Hc as <-. vm_compute in Hres. discriminate Hres.
    + exact Hres.
Defined.

(** ** Queries on a segmented image *)

Section QueryFacts.
Import Cv Superpixel.

Lemma slice_index_range (n i : Z) : 0 <= n -> 0 <= slice_index n i <= n.
Proof. intros Hn. unfold slice_index. destruct (Z.ltb_spec i 0); lia. Qed.

Lemma py_slice_In {A : Type} (start stop : Z) (l : list A) (v : A) :
  In v (py_slice start stop l) <->
  exists i, slice_index (Z.of_nat (List.length l)) start <= Z.of_nat i
            < slice_index (Z.of_nat (List.length l)) stop
            /\ nth_error l i = Some v.
Proof.
  unfold py_slice. set (n := Z.of_nat (List.length l)).
  pose proof (slice_index_range n start ltac:(lia)) as Hlo.
  pose proof (slice_index_range n stop ltac:(lia)) as Hhi.
  set (lo := slice_index n start) in *. set (hi := slice_index n stop) in *.
  split.
  - intros Hin. apply In_nth_error in Hin. destruct Hin as [j Hj].
    rewrite nth_error_firstn in Hj.
    destruct (Nat.ltb_spec j (Z.to_nat (hi - lo))) as [Hlt|Hge]; [|discriminate].
    rewrite nth_error_skipn in Hj.
    exists (Z.to_nat lo + j)%nat. split; [lia | exact Hj].
  - intros (i & Hi & Hv). apply nth_error_In with (n := (i - Z.to_nat lo)%nat).
    rewrite nth_error_firstn.
    destruct (Nat.ltb_spec (i - Z.to_nat lo) (Z.to_nat (hi - lo))) as [Hlt|Hge]; [|lia].
    rewrite nth_error_skipn.
    replace (Z.to_nat lo + (i - Z.to_nat lo))%nat with i by lia. exact Hv.
Qed.

Lemma pixel_bounds (h w : Z) (l : raster) (nx ny : nat) (v : Z) :
  has_shape h w l -> pixel l nx ny = Some v ->
  Z.of_nat nx < w /\ Z.of_nat ny < h /\ In v (List.concat l).
Proof.
  intros [Hh Hw] Hp. unfold pixel in Hp.
  destruct (nth_error l ny) as [row|] eqn:Hrow; [|discriminate].
  assert (Hny : (ny < List.length l)%nat) by (apply nth_error_Some; congruence).
  assert (Hnx : (nx < List.length row)%nat) by (apply nth_error_Some; congruence).
  apply nth_error_In in Hrow.
  pose proof (proj1 (Forall_forall _ _) Hw row Hrow) as Hlen. cbn in Hlen.
  split; [lia|]. split; [lia|].
  apply in_concat. exists row. split; [exact Hrow | exact (nth_error_In _ _ Hp)].
Qed.

Lemma pixel_defined (h w : Z) (l : raster) (x y : Z) :
  has_shape h w l -> 0 <= x < w -> 0 <= y < h ->
  exists v, pixel l (Z.to_nat x) (Z.to_nat y) = Some v.
Proof.
  intros [Hh Hw] Hx Hy. unfold pixel.
  destruct (nth_error l (Z.to_nat y)) as [row|] eqn:Hrow.
  - pose proof (proj1 (Forall_forall _ _) Hw row (nth_error_In _ _ Hrow)) as Hlen.
    cbn in Hlen.
    destruct (nth_error row (Z.to_nat x)) as [v|] eqn:Hv; [exists v; reflexivity|].
    apply nth_error_None in Hv. lia.
  - apply nth_error_None in Hrow. lia.
Qed.

Lemma shape_of (h w : Z) (l : raster) :
  has_shape h w l -> l <> [] -> shape l = (h, w).
Proof.
  intros [Hh Hw] Hne. unfold shape. destruct l as [|row rest]; [contradiction|].
  rewrite Hh. inversion Hw as [|? ? Hrow _]. cbn in Hrow. rewrite Hrow. reflexivity.
Qed.

(** The labels that the slice [labels[ya:yb, xa:xb]] holds. *)
Lemma window_labels (h w : Z) (l : raster) (xa ya xb yb lab : Z) :
  has_shape h w l ->
  In lab (List.concat (map (py_slice xa xb) (py_slice ya yb l))) <->
  exists nx ny,
    slice_index w xa <= Z.of_nat nx < slice_index w xb
    /\ slice_index h ya <= Z.of_nat ny < slice_index h yb
    /\ pixel l nx ny = Some lab.
Proof.
  intros Hshape. pose proof Hshape as [Hh Hw]. split.
  - intros Hin. apply in_concat in Hin. destruct Hin as (cut & Hcut & Hlab).
    apply in_map_iff in Hcut. destruct Hcut as (row & <- & Hrow).
    apply py_slice_In in Hrow. destruct Hrow as (ny & Hny & Hrow).
    apply py_slice_In in Hlab. destruct Hlab as (nx & Hnx & Hlab).
    pose proof (proj1 (Forall_forall _ _) Hw row (nth_error_In _ _ Hrow)) as Hlen.
    cbn in Hlen. rewrite Hlen in Hnx. rewrite Hh in Hny.
    exists nx, ny. repeat split; try lia. unfold pixel. rewrite Hrow. exact Hlab.
  - intros (nx & ny & Hnx & Hny & Hp). unfold pixel in Hp.
    destruct (nth_error l ny) as [row|] eqn:Hrow; [|discriminate].
    pose proof (proj1 (Forall_forall _ _) Hw row (nth_error_In _ _ Hrow)) as Hlen.
    cbn in Hlen.
    apply in_concat. exists (py_slice xa xb row). split.
    + apply in_map. apply py_slice_In. exists ny. rewrite Hh. split; [lia | exact Hrow].
    + apply py_slice_In. exists nx. rewrite Hlen. split; [lia | exact Hp].
Qed.

Lemma get_regions_in_rect_In (h w : Z) (self : SuperpixelSegmenter) (l : raster)
    (x1 y1 x2 y2 : Z) (r : SuperpixelRegion) :
  labels self = Some l -> has_shape h w l ->
  In r (get_regions_in_rect self x1 y1 x2 y2) <->
  In r (regions self)
  /\ exists nx ny,
       slice_index w (Z.max 0 (Z.min x1 x2)) <= Z.of_nat nx
         < slice_index w (Z.min w (Z.max x1 x2))
       /\ slice_index h (Z.max 0 (Z.min y1 y2)) <= Z.of_nat ny
         < slice_index h (Z.min h (Z.max y1 y2))
       /\ pixel l nx ny = Some (label r).
Proof.
  intros Hl Hshape. unfold get_regions_in_rect. rewrite Hl.
  destruct l as [|row rest] eqn:El.
  - assert (Hnone : forall nx ny v, pixel (@nil (list Z)) nx ny <> Some v).
    { intros nx ny v. unfold pixel. destruct ny; discriminate. }
    cbv beta iota zeta delta [shape].
    rewrite filter_In. split.
    + intros [_ Hex]. exfalso. apply existsb_exists in Hex.
      destruct Hex as (u & Hu & _). apply (proj2 (np_unique_spec _)) in Hu.
      apply (window_labels 0 0 []) in Hu; [|split; [reflexivity | constructor]].
      destruct Hu as (nx & ny & _ & _ & Hp). exact (Hnone _ _ _ Hp).
    + intros (_ & nx & ny & _ & _ & Hp). exfalso. exact (Hnone _ _ _ Hp).
  - rewrite <- El in *. rewrite (shape_of h w l Hshape) by (subst l; discriminate).
    rewrite filter_In. apply and_iff_compat_l.
    rewrite existsb_exists. split.
    + intros (u & Hu & Heq). apply Z.eqb_eq in Heq. subst u.
      apply (proj2 (np_unique_spec _)) in Hu.
      apply (window_labels h w l _ _ _ _ _ Hshape) in Hu. exact Hu.
    + intros Hwin. exists (label r). split; [|apply Z.eqb_refl].
      apply (proj2 (np_unique_spec _)).
      apply (window_labels h w l _ _ _ _ _ Hshape). exact Hwin.
Qed.

End QueryFacts.

Section ExtractedFacts.
Import Cv Superpixel.

Variable contourArea : Cv.contour -> Q.
Variable moments : Cv.contour -> Q * Q * Q.
Variable mean_color : Cv.raster -> Q * Q * Q.

Lemma extracted_regions (l : raster) :
  Forall (Forall (fun v => 0 <= v)) l ->
  Permutation (map label (_extract_regions contourArea moments mean_color l))
              (np_unique l)
  /\ Forall (fun r => mask r = label_mask l (label r) /\ region_wf r)
       (_extract_regions contourArea moments mean_color l).
Proof.
  intros Hpos. unfold _extract_regions.
  assert (Hus : Forall (fun u => In u (List.concat l) /\ 0 <= u) (np_unique l)).
  { apply Forall_forall. intros u Hu. apply (proj2 (np_unique_spec l)) in Hu.
    split; [exact Hu|].
    apply in_concat in Hu. destruct Hu as (row & Hrow & Hu).
    exact (proj1 (Forall_forall _ _) (proj1 (Forall_forall _ _) Hpos row Hrow) u Hu). }
  pose proof (collect_labels contourArea moments mean_color l (np_unique l) Hus)
    as Hcollect.
  cbv zeta in Hcollect. destruct Hcollect as [Hlab Hall].
  split.
  - eapply Permutation_trans; [apply Permutation_map, py_sorted_reverse_perm|].
    rewrite Hlab. apply Permutation_refl.
  - eapply Permutation_Forall; [apply Permutation_sym, py_sorted_reverse_perm | exact Hall].
Qed.

Lemma get_region_at_point_extracted (h w : Z) (self : SuperpixelSegmenter)
    (l : raster) (x y : Z) :
  labels self = Some l ->
  regions self = _extract_regions contourArea moments mean_color l ->
  has_shape h w l -> Forall (Forall (fun v => 0 <= v)) l ->
  match get_region_at_point self x y with
  | Some r =>
      0 <= x < w /\ 0 <= y < h /\ In r (regions self) /\ lit (mask r) (x, y)
      /\ pixel l (Z.to_nat x) (Z.to_nat y) = Some (label r)
  | None => ~ (0 <= x < w /\ 0 <= y < h)
  end.
Proof.
  intros Hl Hr Hshape Hpos. unfold get_region_at_point. rewrite Hl.
  destruct l as [|row rest] eqn:El.
  - destruct Hshape as [Hh _]. cbn in Hh.
    cbv beta iota zeta delta [shape]. cbn [List.length Z.of_nat].
    destruct (Z.ltb_spec x 0) as [Hx0|Hx0]; cbn [orb]; [intros [_ Hy]; lia|].
    destruct (Z.leb_spec 0 x) as [Hxw|Hxw]; cbn [orb]; [intros [_ Hy]; lia | lia].
  - rewrite <- El in *. rewrite (shape_of h w l Hshape) by (subst l; discriminate).
    destruct (Z.ltb_spec x 0) as [Hx0|Hx0]; cbn [orb]; [intros [? ?]; lia|].
    destruct (Z.leb_spec w x) as [Hxw|Hxw]; cbn [orb]; [intros [? ?]; lia|].
    destruct (Z.ltb_spec y 0) as [Hy0|Hy0]; cbn [orb]; [intros [? ?]; lia|].
    destruct (Z.leb_spec h y) as [Hyh|Hyh]; cbn [orb]; [intros [? ?]; lia|].
    destruct (pixel_defined h w l x y Hshape) as [lab Hlab]; [lia | lia |].
    rewrite Hlab.
    destruct (pixel_bounds h w l _ _ lab Hshape Hlab) as (_ & _ & Hin).
    destruct (extracted_regions l Hpos) as [Hperm Hall]. rewrite <- Hr in Hperm, Hall.
    destruct (find _ (regions self)) as [r|] eqn:Hfind.
    + apply find_some in Hfind. destruct Hfind as [Hrin Heq]. apply Z.eqb_eq in Heq.
      pose proof (proj1 (Forall_forall _ _) Hall r Hrin) as [Hmask _].
      split; [lia|]. split; [lia|]. split; [exact Hrin|]. split; [|congruence].
      unfold lit. apply nonzero_In. exists (Z.to_nat x), (Z.to_nat y), 255.
      cbn [fst snd]. split; [lia|]. split; [lia|].
      rewrite Hmask. apply label_mask_pixel. split; [congruence | reflexivity].
    + exfalso.
      assert (Hlabs : In lab (map label (regions self))).
      { apply (Permutation_in _ (Permutation_sym Hperm)).
        apply np_unique_spec. exact Hin. }
      apply in_map_iff in Hlabs. destruct Hlabs as (r & Hlr & Hrin).
      pose proof (find_none _ _ Hfind r Hrin) as Hf. cbn in Hf.
      rewrite Hlr, Z.eqb_refl in Hf. discriminate.
Qed.

Lemma segment_leaves (sk cv : Z * Z -> outcome (option Cv.raster))
    (self : SuperpixelSegmenter) (pixmap : Qt.QPixmap) (rs : list SuperpixelRegion) :
  Qt.isNull pixmap = false ->
  backend_contract (Qt.height pixmap, Qt.width pixmap) sk ->
  backend_contract (Qt.height pixmap, Qt.width pixmap) cv ->
  snd (segment contourArea moments mean_color sk cv self pixmap) = Returned rs ->
  exists l,
    labels (fst (segment contourArea moments mean_color sk cv self pixmap)) = Some l
    /\ regions (fst (segment contourArea moments mean_color sk cv self pixmap)) = rs
    /\ rs = _extract_regions contourArea moments mean_color l
    /\ has_shape (Qt.height pixmap) (Qt.width pixmap) l
    /\ Forall (Forall (fun v => 0 <= v)) l.
Proof.
  intros Hnull Hsk Hcv. unfold segment.
  pose proof (qpixmap_cases pixmap) as Hcases.
  destruct (Qt._qpixmap_to_cv2 pixmap) as [[img|]|e0];
    [|rewrite Hnull in Hcases; discriminate|cbn [snd]; discriminate].
  destruct Hcases as [_ ->].
  unfold backend_contract in Hsk, Hcv. cbn [fst snd] in Hsk, Hcv.
  destruct (sk (Qt.height pixmap, Qt.width pixmap)) as [[l|]|e].
  - cbn [fst snd labels regions]. intros [= <-]. exists l.
    destruct Hsk as [Hshape Hpos]. do 3 (split; [reflexivity|]). split; assumption.
  - contradiction.
  - destruct (cv (Qt.height pixmap, Qt.width pixmap)) as [[l|]|e'].
    + cbn [fst snd labels regions]. intros [= <-]. exists l.
      destruct Hcv as [Hshape Hpos]. do 3 (split; [reflexivity|]). split; assumption.
    + contradiction.
    + cbn [snd]. discriminate.
Qed.

End ExtractedFacts.

(** X22. After a [segment] that returned on a non-null pixmap, with SLIC
    backends that keep their contract (a label array of the image's shape,
    labels from 0), [get_region_at_point] finds a region at every pixel of
    the image and at no other position: the region returned is one of
    those [segment] returned, and its mask is lit at the pixel asked for. *)
Theorem get_region_at_point_after_segment
    (contourArea : Cv.contour -> Q) (moments : Cv.contour -> Q * Q * Q)
    (mean_color : Cv.raster -> Q * Q * Q)
    (_segment_skimage _segment_opencv : Z * Z -> outcome (option Cv.raster))
    (self : Superpixel.SuperpixelSegmenter) (pixmap : Qt.QPixmap)
    (rs : list Superpixel.SuperpixelRegion) (x y : Z) :
  Qt.isNull pixmap = false ->
  Superpixel.backend_contract (Qt.height pixmap, Qt.width pixmap) _segment_skimage ->
  Superpixel.backend_contract (Qt.height pixmap, Qt.width pixmap) _segment_opencv ->
  snd (Superpixel.segment contourArea moments mean_color
         _segment_skimage _segment_opencv self pixmap) = Returned rs ->
  match Superpixel.get_region_at_point
          (fst (Superpixel.segment contourArea moments mean_color
                  _segment_skimage _segment_opencv self pixmap)) x y with
  | Some r =>
      0 <= x < Qt.width pixmap /\ 0 <= y < Qt.height pixmap
      /\ In r rs /\ Cv.lit (Superpixel.mask r) (x, y)
  | None => ~ (0 <= x < Qt.width pixmap /\ 0 <= y < Qt.height pixmap)
  end.
Proof.
  intros Hnull Hsk Hcv Hret.
  destruct (segment_leaves contourArea moments mean_color _ _ self pixmap rs
              Hnull Hsk Hcv Hret) as (l & Hl & Hrs & Hex & Hshape & Hpos).
  pose proof (get_region_at_point_extracted contourArea moments mean_color
                (Qt.height pixmap) (Qt.width pixmap) _ l x y Hl
                (eq_trans Hrs Hex) Hshape Hpos) as Hat.
  destruct (Superpixel.get_region_at_point _ x y) as [r|]; [|exact Hat].
  destruct Hat as (Hx & Hy & Hin & Hlit & _). rewrite Hrs in Hin.
  repeat split; try assumption; lia.
Qed.

Lemma get_region_at_point_after_segment_witness :
  match Superpixel.get_region_at_point
          (fst (Superpixel.segment Superpixel.pixel_count_area Superpixel.no_moments
                  Superpixel.grey Superpixel.failing_backend Superpixel.two_cells
                  Superpixel.new_segmenter Superpixel.pixmap_2x4)) 3 0 with
  | Some r =>
      0 <= 3 < 4 /\ 0 <= 0 < 2
      /\ In r (Superpixel.regions Superpixel.segmented_2x4)
      /\ Cv.lit (Superpixel.mask r) (3, 0)
  | None => ~ (0 <= 3 < 4 /\ 0 <= 0 < 2)
  end.
Proof.
  apply (get_region_at_point_after_segment Superpixel.pixel_count_area
           Superpixel.no_moments Superpixel.grey Superpixel.failing_backend
           Superpixel.two_cells Superpixel.new_segmenter Superpixel.pixmap_2x4
           (Superpixel.regions Superpixel.segmented_2x4) 3 0).
  - reflexivity.
  - exact I.
  - split; [split; [reflexivity | repeat constructor] | repeat constructor; lia].
  - reflexivity.
Defined.

(** X23. [get_regions_in_rect] with a rectangle whose larger corner
    coordinates are not negative returns exactly the regions of the
    segmenter whose label occurs at a pixel of the image with
    [min(x1, x2) <= x < max(x1, x2)] and [min(y1, y2) <= y < max(y1, y2)]
    (the column and row of the larger corner are left out); the corners can
    be given in either order. *)
Theorem get_regions_in_rect_window (h w : Z) (self : Superpixel.SuperpixelSegmenter)
    (l : Cv.raster) (x1 y1 x2 y2 : Z) (r : Superpixel.SuperpixelRegion) :
  Superpixel.labels self = Some l -> Cv.has_shape h w l ->
  0 <= Z.max x1 x2 -> 0 <= Z.max y1 y2 ->
  (In r (Superpixel.get_regions_in_rect self x1 y1 x2 y2) <->
   In r (Superpixel.regions self)
   /\ Superpixel.label_in_window l (Z.min x1 x2) (Z.min y1 y2)
        (Z.max x1 x2) (Z.max y1 y2) (Superpixel.label r))
  /\ Superpixel.get_regions_in_rect self x2 y2 x1 y1
     = Superpixel.get_regions_in_rect self x1 y1 x2 y2.
Proof.
  intros Hl Hshape Hx Hy. split.
  - rewrite (get_regions_in_rect_In h w self l x1 y1 x2 y2 r Hl Hshape).
    apply and_iff_compat_l. unfold Superpixel.label_in_window.
    split; intros (nx & ny & Hnx & Hny & Hp); exists nx, ny;
      destruct (pixel_bounds h w l nx ny _ Hshape Hp) as (Hbx & Hby & _);
      (split; [|split; [|exact Hp]]);
      unfold Superpixel.slice_index in *;
      repeat match goal with
             | H : context [?a <? ?b] |- _ => destruct (Z.ltb_spec a b)
             | |- context [?a <? ?b] => destruct (Z.ltb_spec a b)
             end; lia.
  - unfold Superpixel.get_regions_in_rect.
    rewrite (Z.min_comm x2 x1), (Z.max_comm x2 x1), (Z.min_comm y2 y1), (Z.max_comm y2 y1).
    reflexivity.
Qed.

Lemma get_regions_in_rect_window_witness :
  Forall (fun r => Superpixel.label_in_window Superpixel.three_wide_cells 1 0 4 2
                     (Superpixel.label r))
    (Superpixel.get_regions_in_rect Superpixel.segmented_2x8 4 2 1 0)
  /\ map Superpixel.label (Superpixel.get_regions_in_rect Superpixel.segmented_2x8 4 2 1 0)
     = [0; 1].
Proof.
  split; [|reflexivity].
  apply Forall_forall. intros r Hr.
  refine (proj2 (proj1 (proj1 (get_regions_in_rect_window 2 8 Superpixel.segmented_2x8
                                 Superpixel.three_wide_cells 4 2 1 0 r _ _ _ _)) Hr)).
  - reflexivity.
  - split; [reflexivity | repeat constructor].
  - lia.
  - lia.
Defined.

(** X24. A rectangle lying wholly to the left of the image is not empty
    for [get_regions_in_rect]: when both [x1] and [x2] are negative the
    clipped right bound stays negative and the slice counts it from the
    right edge, so the call returns the regions with a label in the columns
    [0 <= x < width + max(x1, x2)] of the rows asked for. *)
Theorem get_regions_in_rect_left_of_image (h w : Z)
    (self : Superpixel.SuperpixelSegmenter) (l : Cv.raster)
    (x1 y1 x2 y2 : Z) (r : Superpixel.SuperpixelRegion) :
  Superpixel.labels self = Some l -> Cv.has_shape h w l ->
  Z.max x1 x2 < 0 -> 0 <= Z.max y1 y2 ->
  (In r (Superpixel.get_regions_in_rect self x1 y1 x2 y2) <->
   In r (Superpixel.regions self)
   /\ Superpixel.label_in_window l 0 (Z.min y1 y2)
        (w + Z.max x1 x2) (Z.max y1 y2) (Superpixel.label r)).
Proof.
  intros Hl Hshape Hx Hy.
  rewrite (get_regions_in_rect_In h w self l x1 y1 x2 y2 r Hl Hshape).
  apply and_iff_compat_l. unfold Superpixel.label_in_window.
  split; intros (nx & ny & Hnx & Hny & Hp); exists nx, ny;
    destruct (pixel_bounds h w l nx ny _ Hshape Hp) as (Hbx & Hby & _);
    (split; [|split; [|exact Hp]]);
    unfold Superpixel.slice_index in *;
    repeat match goal with
           | H : context [?a <? ?b] |- _ => destruct (Z.ltb_spec a b)
           | |- context [?a <? ?b] => destruct (Z.ltb_spec a b)
           end; lia.
Qed.

Lemma get_regions_in_rect_left_of_image_witness :
  Forall (fun r => Superpixel.label_in_window Superpixel.three_wide_cells 0 0 4 2
                     (Superpixel.label r))
    (Superpixel.get_regions_in_rect Superpixel.segmented_2x8 (-9) 0 (-4) 2)
  /\ map Superpixel.label
       (Superpixel.get_regions_in_rect Superpixel.segmented_2x8 (-9) 0 (-4) 2)
     = [0; 1].
Proof.
  split; [|reflexivity].
  apply Forall_forall. intros r Hr.
  refine (proj2 (proj1 (get_regions_in_rect_left_of_image 2 8 Superpixel.segmented_2x8
                          Superpixel.three_wide_cells (-9) 0 (-4) 2 r _ _ _ _) Hr)).
  - reflexivity.
  - split; [reflexivity | repeat constructor].
  - lia.
  - lia.
Defined.

Section FilterFacts.
Import Superpixel.

Lemma collect_In {A B : Type} (f : A -> option B) (l : list A) (b : B) :
  In b (collect f l) <-> exists a, In a l /\ f a = Some b.
Proof.
  induction l as [|a l IH]; cbn [collect].
  - split; [intros [] | intros (a & [] & _)].
  - destruct (f a) as [b'|] eqn:Hfa.
    + cbn [In]. rewrite IH. split.
      * intros [<-|(a' & Ha' & Hb)].
        -- exists a. split; [left; reflexivity | exact Hfa].
        -- exists a'. split; [right; exact Ha' | exact Hb].
      * intros (a' & [<-|Ha'] & Hb).
        -- left. congruence.
        -- right. exists a'. split; assumption.
    + rewrite IH. split.
      * intros (a' & Ha' & Hb). exists a'. split; [right; exact Ha' | exact Hb].
      * intros (a' & [<-|Ha'] & Hb); [congruence|].
        exists a'. split; assumption.
Qed.

Lemma collect_ext {A B : Type} (f g : A -> option B) (l : list A) :
  (forall a, In a l -> f a = g a) -> collect f l = collect g l.
Proof.
  induction l as [|a l IH]; intros Hfg; cbn [collect]; [reflexivity|].
  rewrite (Hfg a (or_introl eq_refl)), IH; [reflexivity|].
  intros a' Ha'. apply Hfg. right. exact Ha'.
Qed.

Lemma collect_none {A B : Type} (f : A -> option B) (l : list A) :
  (forall a, In a l -> f a = None) -> collect f l = [].
Proof.
  induction l as [|a l IH]; intros Hf; cbn [collect]; [reflexivity|].
  rewrite (Hf a (or_introl eq_refl)). apply IH.
  intros a' Ha'. apply Hf. right. exact Ha'.
Qed.

End FilterFacts.

(** X25. [filter_regions] returns exactly the regions of the segmenter with
    [area >= min_area], width and height of the bbox [>= min_wh] and, for a
    [max_area] other than [None] and 0, [area <= max_area].  A [max_area]
    of 0 filters like [None] (no upper bound); a negative one with a
    non-negative [min_area] leaves nothing. *)
Theorem filter_regions_bounds (self : Superpixel.SuperpixelSegmenter)
    (min_area : Z) (max_area : option Z) (min_wh : Z) :
  (forall r,
     In r (Superpixel.filter_regions self min_area max_area min_wh) <->
     In r (Superpixel.regions self)
     /\ min_area <= Superpixel.area r
     /\ match max_area with
        | Some m => m = 0 \/ Superpixel.area r <= m
        | None => True
        end
     /\ min_wh <= snd (fst (Superpixel.bbox r)) /\ min_wh <= snd (Superpixel.bbox r))
  /\ Superpixel.filter_regions self min_area (Some 0) min_wh
     = Superpixel.filter_regions self min_area None min_wh
  /\ (forall m, m < 0 -> 0 <= min_area ->
        Superpixel.filter_regions self min_area (Some m) min_wh = []).
Proof.
  split; [|split].
  - intros r. unfold Superpixel.filter_regions. rewrite collect_In. split.
    + intros (a & Ha & Hkeep).
      destruct (Z.ltb_spec (Superpixel.area a) min_area) as [Hlo|Hlo]; [discriminate|].
      destruct (Superpixel.bbox a) as [[[bx by'] bw] bh] eqn:Hb.
      destruct max_area as [m|].
      * destruct (Z.eqb_spec m 0) as [Hm|Hm]; cbn [negb andb] in Hkeep.
        -- destruct (Z.ltb_spec bw min_wh), (Z.ltb_spec bh min_wh);
             cbn [orb] in Hkeep; try discriminate.
           injection Hkeep as <-. rewrite Hb. cbn [fst snd].
           repeat split; try assumption; lia.
        -- destruct (Z.ltb_spec m (Superpixel.area a)); [discriminate|].
           destruct (Z.ltb_spec bw min_wh), (Z.ltb_spec bh min_wh);
             cbn [orb] in Hkeep; try discriminate.
           injection Hkeep as <-. rewrite Hb. cbn [fst snd].
           repeat split; try assumption; lia.
      * destruct (Z.ltb_spec bw min_wh), (Z.ltb_spec bh min_wh);
          cbn [orb] in Hkeep; try discriminate.
        injection Hkeep as <-. rewrite Hb. cbn [fst snd].
        repeat split; try assumption; lia.
    + intros (Hin & Hlo & Hhi & Hw & Hh). exists r. split; [exact Hin|].
      destruct (Z.ltb_spec (Superpixel.area r) min_area) as [Hlo'|_]; [lia|].
      destruct (Superpixel.bbox r) as [[[bx by'] bw] bh]. cbn [fst snd] in Hw, Hh.
      assert (Hwh : (bw <? min_wh) || (bh <? min_wh) = false).
      { destruct (Z.ltb_spec bw min_wh), (Z.ltb_spec bh min_wh); cbn; try lia; reflexivity. }
      destruct max_area as [m|]; [|rewrite Hwh; reflexivity].
      destruct (Z.eqb_spec m 0) as [Hm|Hm]; cbn [negb andb]; [rewrite Hwh; reflexivity|].
      destruct (Z.ltb_spec m (Superpixel.area r)); [|rewrite Hwh; reflexivity].
      destruct Hhi; [contradiction | lia].
  - reflexivity.
  - intros m Hm Hmin. unfold Superpixel.filter_regions. apply collect_none.
    intros a _.
    destruct (Z.ltb_spec (Superpixel.area a) min_area) as [Hlo|Hlo]; [reflexivity|].
    destruct (Z.eqb_spec m 0) as [Hz|Hz]; [lia|]. cbn [negb andb].
    destruct (Z.ltb_spec m (Superpixel.area a)); [reflexivity | lia].
Qed.

(** ** The merge tool *)

Section ToolFacts.
Import Superpixel.

Lemma set_in_add (v u : Z) (s : list Z) :
  set_in v (set_add u s) = (v =? u) || set_in v s.
Proof.
  unfold set_add. destruct (set_in u s) eqn:Hu.
  - destruct (Z.eqb_spec v u) as [->|Hvu]; [rewrite Hu|]; reflexivity.
  - reflexivity.
Qed.

Lemma set_in_remove (v u : Z) (s : list Z) :
  set_in v (set_remove u s) = negb (v =? u) && set_in v s.
Proof.
  unfold set_in, set_remove. induction s as [|w s IH]; cbn [filter existsb].
  - rewrite andb_false_r. reflexivity.
  - destruct (Z.eqb_spec w u) as [->|Hwu]; cbn [negb].
    + rewrite IH. destruct (Z.eqb_spec v u); reflexivity.
    + cbn [existsb]. rewrite IH.
      destruct (Z.eqb_spec v w) as [->|Hvw].
      * destruct (Z.eqb_spec w u); [contradiction | reflexivity].
      * reflexivity.
Qed.

Lemma set_in_fold_add (found : list SuperpixelRegion) (s : list Z) (v : Z) :
  set_in v (fold_left (fun acc r => set_add (label r) acc) found s)
  = set_in v s || existsb (fun r => label r =? v) found.
Proof.
  revert s. induction found as [|r found IH]; intros s; cbn [fold_left existsb].
  - rewrite orb_false_r. reflexivity.
  - rewrite IH, set_in_add, (Z.eqb_sym v (label r)).
    destruct (label r =? v), (set_in v s); reflexivity.
Qed.

Lemma filter_ext_in_eq {A : Type} (f g : A -> bool) (l : list A) :
  (forall a, In a l -> f a = g a) -> filter f l = filter g l.
Proof.
  induction l as [|a l IH]; intros Hfg; cbn [filter]; [reflexivity|].
  rewrite (Hfg a (or_introl eq_refl)), IH; [reflexivity|].
  intros b Hb. apply Hfg. right. exact Hb.
Qed.

(** Among regions of distinct labels, the ones with the label of a member
    are that member alone. *)
Lemma filter_label_single (rs : list SuperpixelRegion) (r : SuperpixelRegion) :
  NoDup (map label rs) -> In r rs ->
  filter (fun r' => label r' =? label r) rs = [r].
Proof.
  induction rs as [|a rs IH]; intros Hnd Hin; [contradiction|].
  cbn [map] in Hnd. inversion Hnd as [|? ? Hnotin Hnd']; subst.
  cbn [filter]. destruct Hin as [->|Hin].
  - rewrite Z.eqb_refl. f_equal.
    assert (Hnone : forall b, In b rs -> (label b =? label r) = false).
    { intros b Hb. apply Z.eqb_neq. intros Heq. apply Hnotin.
      rewrite <- Heq. apply in_map. exact Hb. }
    clear IH Hnd Hnd' Hnotin. induction rs as [|b rs IH]; [reflexivity|].
    cbn [filter]. rewrite (Hnone b (or_introl eq_refl)). apply IH.
    intros c Hc. apply Hnone. right. exact Hc.
  - destruct (Z.eqb_spec (label a) (label r)) as [Heq|Hne].
    + exfalso. apply Hnotin. rewrite Heq. apply in_map. exact Hin.
    + apply IH; assumption.
Qed.

Lemma filter_empty_selection (rs : list SuperpixelRegion) :
  filter (fun r => set_in (label r) []) rs = [].
Proof. induction rs as [|a rs IH]; [reflexivity | exact IH]. Qed.

End ToolFacts.

(** X26. An additive [click_select] toggles one label and nothing else: a
    click that hits a region flips the membership of that region's label in
    the selection and leaves every other label as it was; a click that hits
    nothing leaves the selection as it was.  The segmenter and the merged
    ROIs are not touched, so a second additive click at the same position
    returns the same region and restores the selection. *)
Theorem click_select_additive_toggles (self : Superpixel.SuperpixelMergeTool) (x y : Z) :
  let once := Superpixel.click_select self x y true in
  let twice := Superpixel.click_select (fst once) x y true in
  snd once = Superpixel.get_region_at_point (Superpixel.segmenter self) x y
  /\ snd twice = snd once
  /\ Superpixel.segmenter (fst once) = Superpixel.segmenter self
  /\ Superpixel.merged_rois (fst once) = Superpixel.merged_rois self
  /\ (forall v,
        Superpixel.set_in v (Superpixel.selected_labels (fst once))
        = match snd once with
          | Some r => xorb (v =? Superpixel.label r)
                        (Superpixel.set_in v (Superpixel.selected_labels self))
          | None => Superpixel.set_in v (Superpixel.selected_labels self)
          end)
  /\ (forall v,
        Superpixel.set_in v (Superpixel.selected_labels (fst twice))
        = Superpixel.set_in v (Superpixel.selected_labels self))
  /\ Superpixel.get_selected_regions (fst twice) = Superpixel.get_selected_regions self.
Proof.
  intros once twice.
  assert (Honce : forall t : Superpixel.SuperpixelMergeTool,
            let res := Superpixel.click_select t x y true in
            snd res = Superpixel.get_region_at_point (Superpixel.segmenter t) x y
            /\ Superpixel.segmenter (fst res) = Superpixel.segmenter t
            /\ Superpixel.merged_rois (fst res) = Superpixel.merged_rois t
            /\ forall v,
                 Superpixel.set_in v (Superpixel.selected_labels (fst res))
                 = match snd res with
                   | Some r => xorb (v =? Superpixel.label r)
                                 (Superpixel.set_in v (Superpixel.selected_labels t))
                   | None => Superpixel.set_in v (Superpixel.selected_labels t)
                   end).
  { intros t res. subst res. unfold Superpixel.click_select.
    destruct (Superpixel.get_region_at_point (Superpixel.segmenter t) x y) as [r|];
      cbn [negb]; [|repeat split; reflexivity].
    destruct (Superpixel.set_in (Superpixel.label r) (Superpixel.selected_labels t))
      eqn:Hin; cbn [fst snd Superpixel.with_selection Superpixel.segmenter
                    Superpixel.merged_rois Superpixel.selected_labels];
      (split; [reflexivity|]); (split; [reflexivity|]); (split; [reflexivity|]);
      intros v.
    - rewrite set_in_remove.
      destruct (Z.eqb_spec v (Superpixel.label r)) as [->|Hv]; cbn [negb andb xorb].
      + rewrite Hin. reflexivity.
      + destruct (Superpixel.set_in v _); reflexivity.
    - rewrite set_in_add.
      destruct (Z.eqb_spec v (Superpixel.label r)) as [->|Hv]; cbn [orb xorb].
      + rewrite Hin. reflexivity.
      + destruct (Superpixel.set_in v _); reflexivity. }
  destruct (Honce self) as (H1 & H2 & H3 & H4).
  destruct (Honce (fst once)) as (G1 & G2 & G3 & G4).
  fold once in H1, H2, H3, H4. fold twice in G1, G2, G3, G4.
  assert (Hsame : snd twice = snd once) by (rewrite G1, H2, H1; reflexivity).
  assert (Hback : forall v,
            Superpixel.set_in v (Superpixel.selected_labels (fst twice))
            = Superpixel.set_in v (Superpixel.selected_labels self)).
  { intros v. rewrite G4, Hsame, H4. destruct (snd once) as [r|]; [|reflexivity].
    destruct (v =? Superpixel.label r), (Superpixel.set_in v _); reflexivity. }
  repeat split; try assumption.
  unfold Superpixel.get_selected_regions. rewrite G2, H2.
  apply filter_ext_in_eq. intros r _. apply Hback.
Qed.

(** X27. A plain (non-additive) [click_select] replaces the selection: after
    a click that hits region [r] the selection is the label of [r] alone, and
    after a click that hits nothing it is empty.  When the labels of the
    segmenter's regions are distinct, [r] is then the only selected region,
    and [merge_selected] returns [None] and changes nothing: one click never
    makes a merge. *)
Theorem click_select_replaces (contourArea : Cv.contour -> Q) (fresh_id : string)
    (self : Superpixel.SuperpixelMergeTool) (x y : Z) :
  NoDup (map Superpixel.label (Superpixel.regions (Superpixel.segmenter self))) ->
  let after := Superpixel.click_select self x y false in
  snd after = Superpixel.get_region_at_point (Superpixel.segmenter self) x y
  /\ Superpixel.segmenter (fst after) = Superpixel.segmenter self
  /\ Superpixel.merged_rois (fst after) = Superpixel.merged_rois self
  /\ (forall v,
        Superpixel.set_in v (Superpixel.selected_labels (fst after))
        = match snd after with
          | Some r => v =? Superpixel.label r
          | None => false
          end)
  /\ Superpixel.get_selected_regions (fst after)
     = match snd after with
       | Some r => [r]
       | None => []
       end
  /\ Superpixel.merge_selected contourArea fresh_id (fst after)
     = (fst after, Returned None).
Proof.
  intros Hnd after. subst after. unfold Superpixel.click_select.
  destruct (Superpixel.get_region_at_point (Superpixel.segmenter self) x y) as [r|] eqn:Hat;
    cbn [negb fst snd Superpixel.with_selection Superpixel.segmenter
         Superpixel.merged_rois Superpixel.selected_labels].
  - assert (Hin : In r (Superpixel.regions (Superpixel.segmenter self))).
    { unfold Superpixel.get_region_at_point in Hat.
      destruct (Superpixel.labels (Superpixel.segmenter self)) as [l|]; [|discriminate].
      destruct (Superpixel.shape l) as [h w].
      destruct (_ || _); [discriminate|].
      destruct (Cv.pixel l _ _); [|discriminate].
      apply find_some in Hat. exact (proj1 Hat). }
    assert (Hsel : Superpixel.get_selected_regions
                     (Superpixel.with_selection
                        (Superpixel.set_add (Superpixel.label r) []) self) = [r]).
    { unfold Superpixel.get_selected_regions.
      cbn [Superpixel.with_selection Superpixel.segmenter Superpixel.selected_labels].
      rewrite <- (filter_label_single _ r Hnd Hin).
      apply filter_ext_in_eq. intros a _. rewrite set_in_add.
      cbn. rewrite orb_false_r. reflexivity. }
    do 3 (split; [reflexivity|]).
    split; [intros v; rewrite set_in_add; cbn; apply orb_false_r|].
    split; [exact Hsel|].
    unfold Superpixel.merge_selected. rewrite Hsel. reflexivity.
  - do 3 (split; [reflexivity|]).
    split; [reflexivity|].
    assert (Hsel : Superpixel.get_selected_regions (Superpixel.with_selection [] self) = []).
    { unfold Superpixel.get_selected_regions.
      cbn [Superpixel.with_selection Superpixel.segmenter Superpixel.selected_labels].
      apply filter_empty_selection. }
    split; [exact Hsel|].
    unfold Superpixel.merge_selected. rewrite Hsel. reflexivity.
Qed.

Lemma click_select_replaces_witness :
  Superpixel.merge_selected Superpixel.pixel_count_area EmptyString
    (fst (Superpixel.click_select (Superpixel.new_tool Superpixel.segmented_2x8) 1 0 false))
  = (fst (Superpixel.click_select (Superpixel.new_tool Superpixel.segmented_2x8) 1 0 false),
     Returned None)
  /\ map Superpixel.label
       (Superpixel.get_selected_regions
          (fst (Superpixel.click_select (Superpixel.new_tool Superpixel.segmented_2x8)
                  1 0 false))) = [0].
Proof.
  split; [|reflexivity].
  refine (proj2 (proj2 (proj2 (proj2 (proj2
            (click_select_replaces Superpixel.pixel_count_area EmptyString
               (Superpixel.new_tool Superpixel.segmented_2x8) 1 0 _)))))).
  cbn. repeat constructor; cbn; intuition discriminate.
Defined.

(** X28. [rect_select] only adds to the selection: it returns the regions
    that [get_regions_in_rect] finds and a label is selected afterwards
    exactly when it was selected before or is the label of a region found.
    Every region selected before stays selected, every region found is
    selected, and the segmenter and the merged ROIs are not touched. *)
Theorem rect_select_adds (self : Superpixel.SuperpixelMergeTool) (x1 y1 x2 y2 : Z) :
  let after := Superpixel.rect_select self x1 y1 x2 y2 in
  snd after = Superpixel.get_regions_in_rect (Superpixel.segmenter self) x1 y1 x2 y2
  /\ Superpixel.segmenter (fst after) = Superpixel.segmenter self
  /\ Superpixel.merged_rois (fst after) = Superpixel.merged_rois self
  /\ (forall v,
        Superpixel.set_in v (Superpixel.selected_labels (fst after))
        = Superpixel.set_in v (Superpixel.selected_labels self)
          || existsb (fun r => Superpixel.label r =? v) (snd after))
  /\ (forall r, In r (Superpixel.get_selected_regions self) ->
                In r (Superpixel.get_selected_regions (fst after)))
  /\ (forall r, In r (snd after) -> In r (Superpixel.get_selected_regions (fst after))).
Proof.
  intros after. subst after. unfold Superpixel.rect_select.
  cbn [fst snd Superpixel.with_selection Superpixel.segmenter Superpixel.merged_rois
       Superpixel.selected_labels].
  do 3 (split; [reflexivity|]).
  split; [intros v; apply set_in_fold_add|].
  unfold Superpixel.get_selected_regions.
  cbn [Superpixel.with_selection Superpixel.segmenter Superpixel.selected_labels].
  split; intros r Hr.
  - apply filter_In in Hr. destruct Hr as [Hin Hsel]. apply filter_In.
    split; [exact Hin|]. rewrite set_in_fold_add, Hsel. reflexivity.
  - apply filter_In. split.
    + unfold Superpixel.get_regions_in_rect in Hr.
      destruct (Superpixel.labels (Superpixel.segmenter self)) as [l|]; [|contradiction].
      destruct (Superpixel.shape l) as [h w].
      apply filter_In in Hr. exact (proj1 Hr).
    + rewrite set_in_fold_add. apply orb_true_iff. right.
      apply existsb_exists. exists r. split; [exact Hr | apply Z.eqb_refl].
Qed.


